(** * GNUnet: address/session lifecycle (transport ATS glue) and the
      trail-routing core of the W-DHT neighbours subsystem.

    Two shallow embeddings of C code:
    - [Ats]  : transport/gnunet-service-transport_ats.c
    - [Wdht] : dht/gnunet-service-wdht_neighbours.c

    Pointers are natural numbers handed out by a bump allocator, [NULL] is
    [None]; unsigned machine integers are [Z] with the wrap-around written
    out; a failed [GNUNET_assert] and a dereference of [NULL] or of freed
    memory stop the run with a fault; [GNUNET_break] only logs. *)

From stdpp Require Import base option list gmap strings.
From Stdlib Require Import ZArith Lia.
From Stdlib.Strings Require Import Byte.

(** ** Time (gnunet_time_lib.h), shared by both subsystems *)

Module Time.
Local Open Scope Z_scope.

(** [UINT64_MAX], the value of [GNUNET_TIME_UNIT_FOREVER_REL] and
    [GNUNET_TIME_UNIT_FOREVER_ABS]. *)
Definition FOREVER : Z := 2 ^ 64 - 1.

Definition UNIT_ZERO : Z := 0.
Definition UNIT_MILLISECONDS : Z := 1000.
Definition UNIT_MINUTES : Z := 60 * 1000 * 1000.

(** Modelled from the spec: [GNUNET_TIME_relative_multiply], part of the
    time library that is not among the sources; the product of a relative
    time (microseconds, 64 bit) and a factor, saturating at FOREVER. *)
Definition relative_multiply (rel factor : Z) : Z :=
  if (factor =? 0) then 0
  else if (rel =? FOREVER) then FOREVER
  else if (rel * factor >? FOREVER) then FOREVER
  else rel * factor.

(** Modelled from the spec: [GNUNET_TIME_relative_to_absolute], not among
    the sources; the absolute time [rel] from [now], FOREVER when that
    does not fit. *)
Definition relative_to_absolute (now rel : Z) : Z :=
  if (rel =? FOREVER) then FOREVER
  else if (now + rel >? FOREVER) then FOREVER
  else now + rel.

(** Modelled from the spec: [GNUNET_TIME_absolute_get_remaining], not among
    the sources; the time left until [future], zero when it has passed. *)
Definition absolute_get_remaining (now future : Z) : Z :=
  if (future =? FOREVER) then FOREVER
  else if (future <? now) then 0
  else future - now.

(** Modelled from the spec: the cap of the standard backoff
    ([GNUNET_TIME_STD_EXPONENTIAL_BACKOFF_THRESHOLD]), not among the
    sources: a quarter of an hour. *)
Definition STD_EXPONENTIAL_BACKOFF_THRESHOLD : Z :=
  relative_multiply UNIT_MINUTES 15.

(** Modelled from the spec: the macro [GNUNET_TIME_STD_BACKOFF], not among
    the sources: "doubling ... and a cap", the doubled value of the
    current backoff (at least one millisecond), cut at the threshold. *)
Definition STD_BACKOFF (r : Z) : Z :=
  Z.min STD_EXPONENTIAL_BACKOFF_THRESHOLD
        (relative_multiply (Z.max UNIT_MILLISECONDS r) 2).

End Time.

(** ** Address/session lifecycle: gnunet-service-transport_ats.c *)

Module Ats.
Local Open Scope Z_scope.

(** [struct GNUNET_HELLO_Address]: the peer, the plugin name (can be
    [NULL]), the raw address and the INBOUND bit of [local_info]. *)
Record HelloAddress := {
  peer : Z;
  transport_name : option string;
  address : list Z;
  inbound : bool
}.

(** Modelled from the spec: [GNUNET_HELLO_address_cmp], not among the
    sources; zero ([true] here) when plugin name, local info and address
    bytes agree.  The peer is the key of the map and is not compared. *)
Definition address_cmp_eq (a1 a2 : HelloAddress) : bool :=
  bool_decide (transport_name a1 = transport_name a2)
  && bool_decide (address a1 = address a2)
  && bool_decide (inbound a1 = inbound a2).

(** [GNUNET_HELLO_address_check_option (a, GNUNET_HELLO_ADDRESS_INFO_INBOUND)] *)
Definition check_option_inbound (a : HelloAddress) : bool := inbound a.

(** Modelled from the spec: [struct GNUNET_ATS_Properties] and the network
    type [GNUNET_ATS_NET_UNSPECIFIED] (gnunet_ats_service.h, not among the
    sources): the performance snapshot of an address, with the fields this
    file reads and writes; the unspecified network is the first value of
    its enumeration. *)
Record ATS_Properties := {
  delay : Z;
  utilization_out : Z;
  utilization_in : Z;
  distance : Z;
  scope : Z
}.

Definition GNUNET_ATS_NET_UNSPECIFIED : Z := 0.

(** [struct AddressInfo].  [ai_ptr] is the address of the record itself. *)
Record AddressInfo := {
  ai_ptr : nat;
  ai_address : HelloAddress;
  session : option nat;
  ar : option nat;
  properties : ATS_Properties;
  blocked : Z;
  back_off : Z;
  unblock_task : option Z;
  expired : bool
}.

Definition set_session (v : option nat) (a : AddressInfo) : AddressInfo :=
  {| ai_ptr := ai_ptr a; ai_address := ai_address a; session := v; ar := ar a;
     properties := properties a; blocked := blocked a; back_off := back_off a;
     unblock_task := unblock_task a; expired := expired a |}.

Definition set_ar (v : option nat) (a : AddressInfo) : AddressInfo :=
  {| ai_ptr := ai_ptr a; ai_address := ai_address a; session := session a; ar := v;
     properties := properties a; blocked := blocked a; back_off := back_off a;
     unblock_task := unblock_task a; expired := expired a |}.

Definition set_blocked (v : Z) (a : AddressInfo) : AddressInfo :=
  {| ai_ptr := ai_ptr a; ai_address := ai_address a; session := session a; ar := ar a;
     properties := properties a; blocked := v; back_off := back_off a;
     unblock_task := unblock_task a; expired := expired a |}.

Definition set_back_off (v : Z) (a : AddressInfo) : AddressInfo :=
  {| ai_ptr := ai_ptr a; ai_address := ai_address a; session := session a; ar := ar a;
     properties := properties a; blocked := blocked a; back_off := v;
     unblock_task := unblock_task a; expired := expired a |}.

Definition set_unblock_task (v : option Z) (a : AddressInfo) : AddressInfo :=
  {| ai_ptr := ai_ptr a; ai_address := ai_address a; session := session a; ar := ar a;
     properties := properties a; blocked := blocked a; back_off := back_off a;
     unblock_task := v; expired := expired a |}.

Definition set_expired (v : bool) (a : AddressInfo) : AddressInfo :=
  {| ai_ptr := ai_ptr a; ai_address := ai_address a; session := session a; ar := ar a;
     properties := properties a; blocked := blocked a; back_off := back_off a;
     unblock_task := unblock_task a; expired := v |}.

(** What the module does to its collaborators and to the allocator, newest
    event first. *)
Inductive event :=
| EvAtsAdd (rec : nat) (a : HelloAddress) (s : option nat) (prop : ATS_Properties)
| EvAtsDestroy (rec : nat)
| EvAtsAddSession (rec : nat) (s : option nat)
| EvAtsDelSession (rec : nat) (s : nat)
| EvFree (ai : nat)
| EvBreak.

(** The file's statics: the map [p2a] (a multi map from peers to records;
    here the list of its values, the most recently put first, the key of a
    record being the peer of its address), [num_blocked] (unsigned int),
    the two statistics values, and the allocator. *)
Record state := {
  p2a : list AddressInfo;
  num_blocked : Z;
  stat_given : Z;
  stat_blocked : Z;
  next_ai : nat;
  next_ar : nat;
  events : list event
}.

Definition init_state : state :=
  {| p2a := []; num_blocked := 0; stat_given := 0; stat_blocked := 0;
     next_ai := 1; next_ar := 1; events := [] |}.

Definition set_p2a (v : list AddressInfo) (s : state) : state :=
  {| p2a := v; num_blocked := num_blocked s; stat_given := stat_given s;
     stat_blocked := stat_blocked s; next_ai := next_ai s; next_ar := next_ar s;
     events := events s |}.

Definition set_num_blocked (v : Z) (s : state) : state :=
  {| p2a := p2a s; num_blocked := v; stat_given := stat_given s;
     stat_blocked := stat_blocked s; next_ai := next_ai s; next_ar := next_ar s;
     events := events s |}.

Definition log (e : event) (s : state) : state :=
  {| p2a := p2a s; num_blocked := num_blocked s; stat_given := stat_given s;
     stat_blocked := stat_blocked s; next_ai := next_ai s; next_ar := next_ar s;
     events := e :: events s |}.

Definition uint (z : Z) : Z := z mod 2 ^ 32.

(** [publish_p2a_stat_update] *)
Definition publish_p2a_stat_update (s : state) : state :=
  {| p2a := p2a s; num_blocked := num_blocked s;
     stat_given := uint (Z.of_nat (length (p2a s)) - num_blocked s);
     stat_blocked := num_blocked s;
     next_ai := next_ai s; next_ar := next_ar s; events := events s |}.

(** [ai->field = v] for the record at address [p]. *)
Definition update_ai (p : nat) (f : AddressInfo -> AddressInfo)
    (l : list AddressInfo) : list AddressInfo :=
  map (fun a => if Nat.eqb (ai_ptr a) p then f a else a) l.

Definition modify (p : nat) (f : AddressInfo -> AddressInfo) (s : state) : state :=
  set_p2a (update_ai p f (p2a s)) s.

(** The record at address [p], if it is in the map. *)
Definition lookup_ai (p : nat) (l : list AddressInfo) : option AddressInfo :=
  find (fun a => Nat.eqb (ai_ptr a) p) l.

(** [GNUNET_CONTAINER_multipeermap_remove (p2a, peer, ai)]: [true] if the
    value was in the map. *)
Definition remove_ai (p : nat) (l : list AddressInfo) : list AddressInfo :=
  filter (fun a => ai_ptr a ≠ p) l.

(** A search that can run into the assertion of [find_ai_cb]. *)
Inductive lookup_result :=
| Found (a : AddressInfo)
| Missing
| AssertFailed.

(** [find_ai_cb] iterated by [GNUNET_CONTAINER_multipeermap_get_multiple]
    over the records of the peer of [address]. *)
Fixpoint find_ai_iter (address0 : HelloAddress) (session0 : option nat)
    (l : list AddressInfo) : lookup_result :=
  match l with
  | [] => Missing
  | a :: l' =>
      if negb (Z.eqb (peer (ai_address a)) (peer address0))
      then find_ai_iter address0 session0 l'
      else if address_cmp_eq address0 (ai_address a)
                && bool_decide (session0 = session a)
      then Found a
      else if negb (bool_decide (session0 = session a))
                || bool_decide (session a = None)
      then find_ai_iter address0 session0 l'
      else AssertFailed
  end.

(** [find_ai] *)
Definition find_ai (address0 : HelloAddress) (session0 : option nat)
    (s : state) : lookup_result :=
  find_ai_iter address0 session0 (p2a s).

(** [find_ai_no_session_cb] iterated over the records of the peer. *)
Fixpoint find_ai_no_session_iter (address0 : HelloAddress)
    (l : list AddressInfo) : option AddressInfo :=
  match l with
  | [] => None
  | a :: l' =>
      if Z.eqb (peer (ai_address a)) (peer address0)
         && address_cmp_eq address0 (ai_address a)
      then Some a
      else find_ai_no_session_iter address0 l'
  end.

(** [find_ai_no_session] *)
Definition find_ai_no_session (address0 : HelloAddress) (s : state)
    : option AddressInfo :=
  find_ai_no_session_iter address0 (p2a s).

(** [GST_ats_is_known] *)
Definition GST_ats_is_known (address0 : HelloAddress) (session0 : option nat)
    (s : state) : option bool :=
  match find_ai address0 session0 s with
  | Found _ => Some true
  | Missing => Some false
  | AssertFailed => None
  end.

(** How a call ends: it returns, or a [GNUNET_assert] aborts the process.
    Both carry the state reached. *)
Inductive outcome :=
| Done (s : state)
| Abort (s : state).

Definition state_of (o : outcome) : state :=
  match o with Done s => s | Abort s => s end.

Section Scoring.

(** Modelled from the spec: the scoring subsystem
    ([GNUNET_ATS_address_add], [_destroy], [_add_session], [_del_session]),
    not among the sources.  [address_add] hands out a fresh record handle;
    [address_del_session] answers whether the record is "now empty", which
    this module cannot predict: the answer is a parameter. *)
Variable now_empty : nat -> nat -> bool.

Definition ats_address_add (a : HelloAddress) (s : option nat)
    (prop : ATS_Properties) (st : state) : nat * state :=
  (next_ar st,
   {| p2a := p2a st; num_blocked := num_blocked st; stat_given := stat_given st;
      stat_blocked := stat_blocked st; next_ai := next_ai st;
      next_ar := S (next_ar st);
      events := EvAtsAdd (next_ar st) a s prop :: events st |}).

(** The timer callback [unblock_address], for the record at [p]; the
    scheduler runs it only while the record holds the task. *)
Definition unblock_address (p : nat) (st : state) : outcome :=
  match lookup_ai p (p2a st) with
  | None => Done st
  | Some a =>
      match unblock_task a with
      | None => Done st
      | Some _ =>
          let st1 := modify p (set_unblock_task None) st in
          let '(r, st2) :=
            ats_address_add (ai_address a) (session a) (properties a) st1 in
          let st3 := modify p (set_ar (Some r)) st2 in
          let st4 := set_num_blocked (uint (num_blocked st3 - 1)) st3 in
          Done (publish_p2a_stat_update st4)
      end
  end.

(** [GST_ats_block_address] *)
Definition GST_ats_block_address (now : Z) (address0 : HelloAddress)
    (session0 : option nat) (st : state) : outcome :=
  match find_ai address0 session0 st with
  | AssertFailed => Abort st
  | Missing => Abort st
  | Found a =>
      match ar a with
      | None => Done (log EvBreak st)
      | Some r =>
          let p := ai_ptr a in
          let st1 := modify p (fun x => set_back_off (Time.STD_BACKOFF (back_off x)) x) st in
          let st2 :=
            match session0 with
            | None => log (EvAtsDestroy r) st1
            | Some s =>
                if now_empty r s
                then log (EvAtsDelSession r s) st1
                else log (EvAtsDestroy r) (log (EvAtsDelSession r s) st1)
            end in
          let st3 := modify p (set_ar None) st2 in
          let st4 := modify p (fun x =>
                       set_unblock_task (Some (back_off x))
                         (set_blocked (Time.relative_to_absolute now (back_off x)) x)) st3 in
          let st5 := set_num_blocked (uint (num_blocked st4 + 1)) st4 in
          Done (publish_p2a_stat_update st5)
      end
  end.

(** [GST_ats_block_reset] *)
Definition GST_ats_block_reset (address0 : HelloAddress) (session0 : option nat)
    (st : state) : outcome :=
  match find_ai address0 session0 st with
  | AssertFailed => Abort st
  | Missing => Done (log EvBreak st)
  | Found a =>
      let st1 := match unblock_task a with
                 | None => st
                 | Some _ => log EvBreak st
                 end in
      Done (modify (ai_ptr a) (set_back_off Time.UNIT_ZERO) st1)
  end.

(** [GST_ats_add_inbound_address] *)
Definition GST_ats_add_inbound_address (address0 : HelloAddress)
    (session0 : option nat) (prop : ATS_Properties) (st : state) : outcome :=
  match transport_name address0 with
  | None => Done (log EvBreak st)
  | Some _ =>
      if negb (check_option_inbound address0) then Abort st
      else match session0 with
      | None => Abort st
      | Some _ =>
          match find_ai address0 session0 st with
          | AssertFailed => Abort st
          | Found _ => Done (log EvBreak st)
          | Missing =>
              let st0 := if scope prop =? GNUNET_ATS_NET_UNSPECIFIED
                         then log EvBreak st else st in
              let '(r, st1) := ats_address_add address0 session0 prop st0 in
              let a := {| ai_ptr := next_ai st1; ai_address := address0;
                          session := session0; ar := Some r; properties := prop;
                          blocked := 0; back_off := 0; unblock_task := None;
                          expired := false |} in
              Done (publish_p2a_stat_update
                      {| p2a := a :: p2a st1; num_blocked := num_blocked st1;
                         stat_given := stat_given st1; stat_blocked := stat_blocked st1;
                         next_ai := S (next_ai st1); next_ar := next_ar st1;
                         events := events st1 |})
          end
      end
  end.

(** [GST_ats_add_address] *)
Definition GST_ats_add_address (address0 : HelloAddress) (prop : ATS_Properties)
    (st : state) : outcome :=
  match transport_name address0 with
  | None => Done (log EvBreak st)
  | Some _ =>
      if check_option_inbound address0 then Abort st
      else match find_ai_no_session address0 st with
      | Some _ => Abort st
      | None =>
          let '(r, st1) := ats_address_add address0 None prop st in
          let a := {| ai_ptr := next_ai st1; ai_address := address0;
                      session := None; ar := Some r; properties := prop;
                      blocked := 0; back_off := 0; unblock_task := None;
                      expired := false |} in
          Done (publish_p2a_stat_update
                  {| p2a := a :: p2a st1; num_blocked := num_blocked st1;
                     stat_given := stat_given st1; stat_blocked := stat_blocked st1;
                     next_ai := S (next_ai st1); next_ar := next_ar st1;
                     events := events st1 |})
      end
  end.

(** [GST_ats_new_session] *)
Definition GST_ats_new_session (address0 : HelloAddress) (session0 : option nat)
    (st : state) : outcome :=
  match find_ai address0 None st with
  | AssertFailed => Abort st
  | Missing =>
      match find_ai address0 session0 st with
      | Found _ => Done st
      | _ => Abort st
      end
  | Found a =>
      let st0 := match session a with None => st | Some _ => log EvBreak st end in
      let st1 := modify (ai_ptr a) (set_session session0) st0 in
      match ar a with
      | Some r => Done (log (EvAtsAddSession r session0) st1)
      | None => Done st1
      end
  end.

(** [GST_ats_expire_address] *)
Definition GST_ats_expire_address (address0 : HelloAddress) (st : state) : outcome :=
  match find_ai_no_session address0 st with
  | None => Abort st
  | Some a =>
      let p := ai_ptr a in
      let st1 :=
        match unblock_task a with
        | None => st
        | Some _ =>
            let s1 := modify p (set_unblock_task None) st in
            set_num_blocked (uint (num_blocked s1 - 1)) s1
        end in
      match session a with
      | Some _ =>
          let st2 := modify p (set_expired true) st1 in
          match ar a with
          | None => Done st2
          | Some r => Done (modify p (set_ar None) (log (EvAtsDestroy r) st2))
          end
      | None =>
          let st2 := set_p2a (remove_ai p (p2a st1)) st1 in
          let st3 := match ar a with
                     | None => st2
                     | Some r => log (EvAtsDestroy r) st2
                     end in
          Done (log (EvFree p) (publish_p2a_stat_update st3))
      end
  end.

(** [GST_ats_del_session] *)
Definition GST_ats_del_session (address0 : HelloAddress) (session0 : option nat)
    (st : state) : outcome :=
  match session0 with
  | None => Done (log EvBreak st)
  | Some s =>
      match find_ai address0 session0 st with
      | AssertFailed => Abort st
      | Missing =>
          Done (if check_option_inbound address0 then log EvBreak st else st)
      | Found a =>
          let p := ai_ptr a in
          let st1 := modify p (set_session None) st in
          match ar a with
          | None =>
              if expired a || check_option_inbound address0
              then GST_ats_expire_address address0 st1
              else Done st1
          | Some r =>
              let st2 := log (EvAtsDelSession r s) st1 in
              if now_empty r s
              then GST_ats_expire_address address0 (modify p (set_ar None) st2)
              else Done st2
          end
      end
  end.

(** The calls the transport service and the scheduler make into the
    module. *)
Inductive call :=
| AddAddress (a : HelloAddress) (prop : ATS_Properties)
| AddInboundAddress (a : HelloAddress) (s : option nat) (prop : ATS_Properties)
| NewSession (a : HelloAddress) (s : option nat)
| DelSession (a : HelloAddress) (s : option nat)
| BlockAddress (now : Z) (a : HelloAddress) (s : option nat)
| BlockReset (a : HelloAddress) (s : option nat)
| ExpireAddress (a : HelloAddress)
| UnblockTimer (p : nat).

Definition step (c : call) (st : state) : outcome :=
  match c with
  | AddAddress a prop => GST_ats_add_address a prop st
  | AddInboundAddress a s prop => GST_ats_add_inbound_address a s prop st
  | NewSession a s => GST_ats_new_session a s st
  | DelSession a s => GST_ats_del_session a s st
  | BlockAddress now a s => GST_ats_block_address now a s st
  | BlockReset a s => GST_ats_block_reset a s st
  | ExpireAddress a => GST_ats_expire_address a st
  | UnblockTimer p => unblock_address p st
  end.

(** A sequence of calls; an abort ends it. *)
Fixpoint run (cs : list call) (st : state) : outcome :=
  match cs with
  | [] => Done st
  | c :: cs' =>
      match step c st with
      | Done st' => run cs' st'
      | Abort st' => Abort st'
      end
  end.


Definition never_both (a : AddressInfo) : Prop :=
  ¬ (ar a ≠ None ∧ unblock_task a ≠ None).




(** How often the record at [p] was handed to [GNUNET_free]. *)
Definition is_free_of (p : nat) (e : event) : bool :=
  match e with
  | EvFree q => Nat.eqb q p
  | _ => false
  end.

Definition times_freed (p : nat) (st : state) : nat :=
  length (List.filter (is_free_of p) (events st)).

End Scoring.

(** Two addresses of one peer, for the worked examples: one inbound, one
    outbound. *)
Definition example_inbound : HelloAddress :=
  {| peer := 7; transport_name := Some "tcp"%string; address := [10; 0; 0; 1];
     inbound := true |}.

Definition example_outbound : HelloAddress :=
  {| peer := 7; transport_name := Some "tcp"%string; address := [10; 0; 0; 2];
     inbound := false |}.

(** Properties of an address in a known network, for the worked
    examples. *)
Definition example_prop : ATS_Properties :=
  {| delay := 30; utilization_out := 0; utilization_in := 0; distance := 1;
     scope := 2 |}.

(** *** Shutdown *)

(** [destroy_ai], for the record at address [p] *)
Definition destroy_ai (p : nat) (st : state) : outcome :=
  match lookup_ai p (p2a st) with
  | None => Abort st
  | Some a =>
      let st1 := set_p2a (remove_ai p (p2a st)) st in
      let st2 := match unblock_task a with
                 | None => st1
                 | Some _ => set_num_blocked (uint (num_blocked st1 - 1)) st1
                 end in
      let st3 := match ar a with
                 | None => st2
                 | Some r => log (EvAtsDestroy r) st2
                 end in
      Done (log (EvFree p) st3)
  end.

(** Modelled from the spec: [GNUNET_CONTAINER_multipeermap_iterate]
    (container_multipeermap.c, not among the sources) with [destroy_ai] as
    its callback: the callback runs once for every value that is in the map
    when the iteration starts, and may remove the value it is called
    with. *)
Fixpoint iterate_destroy_ai (ps : list nat) (st : state) : outcome :=
  match ps with
  | [] => Done st
  | p :: ps' =>
      match destroy_ai p st with
      | Done st' => iterate_destroy_ai ps' st'
      | Abort st' => Abort st'
      end
  end.

(** [GST_ats_done]; the map destroyed, [p2a] is [NULL]. *)
Definition GST_ats_done (st : state) : outcome :=
  match iterate_destroy_ai (map ai_ptr (p2a st)) st with
  | Done st1 => Done (set_p2a [] (publish_p2a_stat_update st1))
  | Abort st1 => Abort st1
  end.

(** *** Notions the facts below are stated with *)

(** A field update that leaves the address of the record alone. *)
Definition keeps_ptr (f : AddressInfo -> AddressInfo) : Prop :=
  forall a, ai_ptr (f a) = ai_ptr a.

(** Pointers come from the allocator, the backoff stays under its cap. *)
Definition wf_ai (n : nat) (a : AddressInfo) : Prop :=
  (ai_ptr a < n)%nat /\ 0 <= back_off a <= Time.STD_EXPONENTIAL_BACKOFF_THRESHOLD.

Definition wf_event (n : nat) (e : event) : Prop :=
  match e with
  | EvFree q => (q < n)%nat
  | _ => True
  end.

Definition wf (st : state) : Prop :=
  Forall (wf_ai (next_ai st)) (p2a st) /\ Forall (wf_event (next_ai st)) (events st).







(** Whether the record at address [p] is in the map (1) or not (0). *)
Definition live (p : nat) (l : list AddressInfo) : nat :=
  match lookup_ai p l with Some _ => 1%nat | None => 0%nat end.

(** Every address the allocator handed out is that of a record in the map
    or has been given to [GNUNET_free] once, and no other address is
    either. *)
Definition accounted (st : state) : Prop :=
  (1 <= next_ai st)%nat /\
  forall q, (times_freed q st + live q (p2a st))%nat
            = if bool_decide (1 <= q < next_ai st)%nat then 1%nat else 0%nat.

(** The records that wait for their unblock task. *)
Definition is_blocked (a : AddressInfo) : bool :=
  match unblock_task a with
  | Some _ => true
  | None => false
  end.

Definition count_blocked (l : list AddressInfo) : nat :=
  length (List.filter is_blocked l).

(** No address is in the map twice, and [num_blocked] counts the records
    that wait for their unblock task. *)
Definition counted (st : state) : Prop :=
  NoDup (map ai_ptr (p2a st)) /\
  num_blocked st = uint (Z.of_nat (count_blocked (p2a st))).

End Ats.

(** ** Trail routing core: gnunet-service-wdht_neighbours.c *)

Module Wdht.
Local Open Scope Z_scope.

Definition GNUNET_OK : Z := 1.
Definition GNUNET_SYSERR : Z := -1.
Definition GNUNET_YES : Z := 1.
Definition GNUNET_NO : Z := 0.

Definition TRAIL_TIMEOUT : Z := Time.relative_multiply Time.UNIT_MINUTES 42.
Definition RANDOM_WALK_DELAY : Z := Time.relative_multiply Time.UNIT_MINUTES 42.
Definition NUMBER_LAYERED_ID : Z := 8.
Definition NUMBER_RANDOM_WALK : Z := 20.

(** Modelled from the spec: constants and sizes of declarations that are
    not among the sources: the largest message (64k), the sizes of
    [struct GNUNET_MessageHeader] (size and type, 16 bit each),
    [struct GNUNET_HashCode] (512 bit) and [struct GNUNET_PeerIdentity]
    (256 bit), and with them the sizes of the packed structs of this
    file. *)
Definition GNUNET_SERVER_MAX_MESSAGE_SIZE : Z := 65536.
Definition sizeof_MessageHeader : Z := 4.
Definition sizeof_HashCode : Z := 64.
Definition sizeof_PeerIdentity : Z := 32.
Definition sizeof_TrailRouteMessage : Z := sizeof_MessageHeader + 2 + 2 + sizeof_HashCode.
Definition sizeof_FindSuccessorMessage : Z := sizeof_MessageHeader + 4 + sizeof_HashCode.

(** Modelled from the spec: the numbers of the four payload message types
    (gnunet_protocols.h among the sources predates them); four distinct
    16-bit numbers. *)
Definition GNUNET_MESSAGE_TYPE_WDHT_SUCCESSOR_FIND : Z := 914.
Definition GNUNET_MESSAGE_TYPE_WDHT_GET : Z := 915.
Definition GNUNET_MESSAGE_TYPE_WDHT_PUT : Z := 916.
Definition GNUNET_MESSAGE_TYPE_WDHT_GET_RESULT : Z := 917.

(** [struct Trail].  [pred], [succ] point to [struct FriendInfo], the four
    links and [hn] to trails and heap nodes, [ft] to one of the tables of
    the array [fingers] (its index). *)
Record Trail := {
  pred_id : Z;
  succ_id : Z;
  expiration_time : Z;
  prev_succ : option nat;
  next_succ : option nat;
  prev_pred : option nat;
  next_pred : option nat;
  pred : option nat;
  succ : option nat;
  hn : option nat;
  ft : option nat;
  finger_off : nat
}.

(** [GNUNET_new (struct Trail)]: all zero. *)
Definition new_Trail : Trail :=
  {| pred_id := 0; succ_id := 0; expiration_time := 0;
     prev_succ := None; next_succ := None; prev_pred := None; next_pred := None;
     pred := None; succ := None; hn := None; ft := None; finger_off := 0 |}.

(** [struct FriendInfo]; the message queue [mq] is named by the peer it
    leads to. *)
Record FriendInfo := {
  id : Z;
  pred_head : option nat;
  pred_tail : option nat;
  succ_head : option nat;
  succ_tail : option nat;
  mq : Z
}.

(** [struct Finger] *)
Record Finger := {
  trail : option nat;
  finger_ft : option nat;
  destination : Z;
  valid : Z
}.

(** [struct FingerTable]; the array [fingers] of the struct is
    [ft_fingers], [NULL] being the empty array. *)
Record FingerTable := {
  ft_fingers : list (option Finger);
  finger_array_size : nat;
  number_valid_fingers : Z;
  walk_offset : nat;
  is_sorted : Z
}.

Definition new_FingerTable : FingerTable :=
  {| ft_fingers := []; finger_array_size := 0; number_valid_fingers := 0;
     walk_offset := 0; is_sorted := 0 |}.

(** The wire messages, fields in host byte order. *)
Record RandomWalkMessage := {
  rw_hops_taken : Z;
  rw_layer : Z;
  rw_trail_id : Z
}.

Record RandomWalkResponseMessage := {
  rwr_trail_id : Z;
  rwr_location : Z
}.

Record TrailDestroyMessage := {
  td_trail_id : Z
}.

(** An outgoing [struct TrailRouteMessage]: the header fields, the bytes of
    the path copied from the incoming message, the identity appended to
    them (if any) and the bytes of the payload. *)
Record TrailRouteOut := {
  tr_record_path : Z;
  tr_path_length : Z;
  tr_trail_id : Z;
  tr_path : list Byte.byte;
  tr_appended : option Z;
  tr_payload : list Byte.byte
}.

Inductive message :=
| MsgRandomWalk (m : RandomWalkMessage)
| MsgRandomWalkResponse (m : RandomWalkResponseMessage)
| MsgTrailDestroy (m : TrailDestroyMessage)
| MsgTrailRoute (m : TrailRouteOut).

(** What the file does to its collaborators, newest first. *)
Inductive event :=
| EvSend (queue : Z) (m : message)
| EvBreak
| EvBreakOp
| EvFreeTrail (p : nat)
| EvFreeFinger (table : nat) (off : nat)
| EvFreeFriend (p : nat)
| EvGetSuccessors (trail_id key : Z).

(** The statics of the file, the heap cells of trails and friends, and the
    allocator.  A scheduler task is the delay it was scheduled with; the
    heap is the list of its nodes, a node being the trail it holds with
    its cost. *)
Record state := {
  trail_timeout_task : option Z;
  random_walk_task : option Z;
  my_identity : Z;
  friends_peermap : gmap Z nat;
  fingers : list FingerTable;
  trail_map : gmap Z nat;
  trail_heap : list (nat * Z);
  walk_layer : nat;
  trail_mem : gmap nat Trail;
  friend_mem : gmap nat FriendInfo;
  next_ptr : nat;
  events : list event
}.

(** The state after [core_init] and [GDS_NEIGHBOURS_init]. *)
Definition init_state (me : Z) : state :=
  {| trail_timeout_task := None; random_walk_task := None; my_identity := me;
     friends_peermap := ∅;
     fingers := replicate (Z.to_nat NUMBER_LAYERED_ID) new_FingerTable;
     trail_map := ∅; trail_heap := []; walk_layer := 0;
     trail_mem := ∅; friend_mem := ∅; next_ptr := 1; events := [] |}.

Definition set_trail_timeout_task (v : option Z) (s : state) : state :=
  {| trail_timeout_task := v; random_walk_task := random_walk_task s;
     my_identity := my_identity s; friends_peermap := friends_peermap s;
     fingers := fingers s; trail_map := trail_map s; trail_heap := trail_heap s;
     walk_layer := walk_layer s; trail_mem := trail_mem s;
     friend_mem := friend_mem s; next_ptr := next_ptr s; events := events s |}.

Definition set_random_walk_task (v : option Z) (s : state) : state :=
  {| trail_timeout_task := trail_timeout_task s; random_walk_task := v;
     my_identity := my_identity s; friends_peermap := friends_peermap s;
     fingers := fingers s; trail_map := trail_map s; trail_heap := trail_heap s;
     walk_layer := walk_layer s; trail_mem := trail_mem s;
     friend_mem := friend_mem s; next_ptr := next_ptr s; events := events s |}.

Definition set_friends_peermap (v : gmap Z nat) (s : state) : state :=
  {| trail_timeout_task := trail_timeout_task s; random_walk_task := random_walk_task s;
     my_identity := my_identity s; friends_peermap := v;
     fingers := fingers s; trail_map := trail_map s; trail_heap := trail_heap s;
     walk_layer := walk_layer s; trail_mem := trail_mem s;
     friend_mem := friend_mem s; next_ptr := next_ptr s; events := events s |}.

Definition set_fingers (v : list FingerTable) (s : state) : state :=
  {| trail_timeout_task := trail_timeout_task s; random_walk_task := random_walk_task s;
     my_identity := my_identity s; friends_peermap := friends_peermap s;
     fingers := v; trail_map := trail_map s; trail_heap := trail_heap s;
     walk_layer := walk_layer s; trail_mem := trail_mem s;
     friend_mem := friend_mem s; next_ptr := next_ptr s; events := events s |}.

Definition set_trail_map (v : gmap Z nat) (s : state) : state :=
  {| trail_timeout_task := trail_timeout_task s; random_walk_task := random_walk_task s;
     my_identity := my_identity s; friends_peermap := friends_peermap s;
     fingers := fingers s; trail_map := v; trail_heap := trail_heap s;
     walk_layer := walk_layer s; trail_mem := trail_mem s;
     friend_mem := friend_mem s; next_ptr := next_ptr s; events := events s |}.

Definition set_trail_heap (v : list (nat * Z)) (s : state) : state :=
  {| trail_timeout_task := trail_timeout_task s; random_walk_task := random_walk_task s;
     my_identity := my_identity s; friends_peermap := friends_peermap s;
     fingers := fingers s; trail_map := trail_map s; trail_heap := v;
     walk_layer := walk_layer s; trail_mem := trail_mem s;
     friend_mem := friend_mem s; next_ptr := next_ptr s; events := events s |}.

Definition set_walk_layer (v : nat) (s : state) : state :=
  {| trail_timeout_task := trail_timeout_task s; random_walk_task := random_walk_task s;
     my_identity := my_identity s; friends_peermap := friends_peermap s;
     fingers := fingers s; trail_map := trail_map s; trail_heap := trail_heap s;
     walk_layer := v; trail_mem := trail_mem s;
     friend_mem := friend_mem s; next_ptr := next_ptr s; events := events s |}.

Definition set_trail_mem (v : gmap nat Trail) (s : state) : state :=
  {| trail_timeout_task := trail_timeout_task s; random_walk_task := random_walk_task s;
     my_identity := my_identity s; friends_peermap := friends_peermap s;
     fingers := fingers s; trail_map := trail_map s; trail_heap := trail_heap s;
     walk_layer := walk_layer s; trail_mem := v;
     friend_mem := friend_mem s; next_ptr := next_ptr s; events := events s |}.

Definition set_friend_mem (v : gmap nat FriendInfo) (s : state) : state :=
  {| trail_timeout_task := trail_timeout_task s; random_walk_task := random_walk_task s;
     my_identity := my_identity s; friends_peermap := friends_peermap s;
     fingers := fingers s; trail_map := trail_map s; trail_heap := trail_heap s;
     walk_layer := walk_layer s; trail_mem := trail_mem s;
     friend_mem := v; next_ptr := next_ptr s; events := events s |}.

Definition set_next_ptr (v : nat) (s : state) : state :=
  {| trail_timeout_task := trail_timeout_task s; random_walk_task := random_walk_task s;
     my_identity := my_identity s; friends_peermap := friends_peermap s;
     fingers := fingers s; trail_map := trail_map s; trail_heap := trail_heap s;
     walk_layer := walk_layer s; trail_mem := trail_mem s;
     friend_mem := friend_mem s; next_ptr := v; events := events s |}.

Definition set_events (v : list event) (s : state) : state :=
  {| trail_timeout_task := trail_timeout_task s; random_walk_task := random_walk_task s;
     my_identity := my_identity s; friends_peermap := friends_peermap s;
     fingers := fingers s; trail_map := trail_map s; trail_heap := trail_heap s;
     walk_layer := walk_layer s; trail_mem := trail_mem s;
     friend_mem := friend_mem s; next_ptr := next_ptr s; events := v |}.

(** *** The monad of the C code: state, and the ways a run stops *)

Inductive fault :=
| NullDeref        (* a dereference of NULL *)
| UseAfterFree     (* a dereference of freed memory *)
| AssertFailed     (* GNUNET_assert *)
| OutOfBounds      (* an access outside an array or a message buffer *)
| OutOfFuel.       (* a loop of the model ran out of fuel; see [fuel_suffices] *)

Inductive res (A : Type) :=
| Ok (a : A) (s : state)
| Fault (f : fault) (s : state).
Arguments Ok {A} a s.
Arguments Fault {A} f s.

Definition M (A : Type) : Type := state -> res A.

Definition ret {A} (a : A) : M A := fun s => Ok a s.

Definition bind {A B} (m : M A) (k : A -> M B) : M B :=
  fun s => match m s with
           | Ok a s' => k a s'
           | Fault f s' => Fault f s'
           end.

Declare Scope c_scope.
Delimit Scope c_scope with C.
Notation "'do' x <- m ; k" := (bind m (fun x => k))
  (at level 10, x name, m at level 100, k at level 200) : c_scope.
Notation "'do' ' p <- m ; k" := (bind m (fun x => match x with p => k end))
  (at level 10, p pattern, m at level 100, k at level 200) : c_scope.
Notation "m ;; k" := (bind m (fun _ => k))
  (at level 100, k at level 200, right associativity) : c_scope.
Local Open Scope c_scope.

Definition crash {A} (f : fault) : M A := fun s => Fault f s.
Definition get : M state := fun s => Ok s s.
Definition modify (f : state -> state) : M unit := fun s => Ok tt (f s).
Definition log (e : event) : M unit := modify (fun s => set_events (e :: events s) s).

(** [GNUNET_assert], [GNUNET_break], [GNUNET_break_op] *)
Definition GNUNET_assert (b : bool) : M unit :=
  if b then ret tt else crash AssertFailed.
Definition GNUNET_break (b : bool) : M unit :=
  if b then ret tt else log EvBreak.
Definition GNUNET_break_op (b : bool) : M unit :=
  if b then ret tt else log EvBreakOp.

(** [*p] for a trail pointer, and the store through it. *)
Definition load_trail (p : option nat) : M Trail :=
  fun s => match p with
           | None => Fault NullDeref s
           | Some q => match trail_mem s !! q with
                       | Some t => Ok t s
                       | None => Fault UseAfterFree s
                       end
           end.

Definition store_trail (p : option nat) (f : Trail -> Trail) : M unit :=
  do t <- load_trail p;
  match p with
  | Some q => modify (fun s => set_trail_mem (<[q := f t]> (trail_mem s)) s)
  | None => crash NullDeref
  end.

Definition load_friend (p : option nat) : M FriendInfo :=
  fun s => match p with
           | None => Fault NullDeref s
           | Some q => match friend_mem s !! q with
                       | Some t => Ok t s
                       | None => Fault UseAfterFree s
                       end
           end.

Definition store_friend (p : option nat) (f : FriendInfo -> FriendInfo) : M unit :=
  do t <- load_friend p;
  match p with
  | Some q => modify (fun s => set_friend_mem (<[q := f t]> (friend_mem s)) s)
  | None => crash NullDeref
  end.

(** [GNUNET_new (struct Trail)] and [GNUNET_free] *)
Definition alloc_trail : M nat :=
  fun s => Ok (next_ptr s)
              (set_next_ptr (S (next_ptr s))
                 (set_trail_mem (<[next_ptr s := new_Trail]> (trail_mem s)) s)).

Definition free_trail (p : nat) : M unit :=
  load_trail (Some p);;
  modify (fun s => set_trail_mem (delete p (trail_mem s)) s);;
  log (EvFreeTrail p).

Definition alloc_friend (f : FriendInfo) : M nat :=
  fun s => Ok (next_ptr s)
              (set_next_ptr (S (next_ptr s))
                 (set_friend_mem (<[next_ptr s := f]> (friend_mem s)) s)).

Definition free_friend (p : nat) : M unit :=
  load_friend (Some p);;
  modify (fun s => set_friend_mem (delete p (friend_mem s)) s);;
  log (EvFreeFriend p).

(** [GNUNET_MQ_send (friend->mq, env)] *)
Definition send_to (friend : option nat) (m : message) : M unit :=
  do f <- load_friend friend;
  log (EvSend (mq f) m).

(** *** The trail lists of a friend (MDLL) *)

(** Which of the two lists ("pred" or "succ") a macro call names, both in
    its first argument (the links of the trail) and in its head and tail
    arguments (the fields of the friend). *)
Inductive mdll := PRED | SUCC.

Definition prev_ (m : mdll) (t : Trail) : option nat :=
  match m with PRED => prev_pred t | SUCC => prev_succ t end.

Definition next_ (m : mdll) (t : Trail) : option nat :=
  match m with PRED => next_pred t | SUCC => next_succ t end.

Definition set_prev_ (m : mdll) (v : option nat) (t : Trail) : Trail :=
  {| pred_id := pred_id t; succ_id := succ_id t; expiration_time := expiration_time t;
     prev_succ := match m with SUCC => v | PRED => prev_succ t end;
     next_succ := next_succ t;
     prev_pred := match m with PRED => v | SUCC => prev_pred t end;
     next_pred := next_pred t;
     pred := pred t; succ := succ t; hn := hn t; ft := ft t; finger_off := finger_off t |}.

Definition set_next_ (m : mdll) (v : option nat) (t : Trail) : Trail :=
  {| pred_id := pred_id t; succ_id := succ_id t; expiration_time := expiration_time t;
     prev_succ := prev_succ t;
     next_succ := match m with SUCC => v | PRED => next_succ t end;
     prev_pred := prev_pred t;
     next_pred := match m with PRED => v | SUCC => next_pred t end;
     pred := pred t; succ := succ t; hn := hn t; ft := ft t; finger_off := finger_off t |}.

Definition head_ (m : mdll) (f : FriendInfo) : option nat :=
  match m with PRED => pred_head f | SUCC => succ_head f end.

Definition tail_ (m : mdll) (f : FriendInfo) : option nat :=
  match m with PRED => pred_tail f | SUCC => succ_tail f end.

Definition set_head_ (m : mdll) (v : option nat) (f : FriendInfo) : FriendInfo :=
  {| id := id f;
     pred_head := match m with PRED => v | SUCC => pred_head f end;
     pred_tail := pred_tail f;
     succ_head := match m with SUCC => v | PRED => succ_head f end;
     succ_tail := succ_tail f;
     mq := mq f |}.

Definition set_tail_ (m : mdll) (v : option nat) (f : FriendInfo) : FriendInfo :=
  {| id := id f;
     pred_head := pred_head f;
     pred_tail := match m with PRED => v | SUCC => pred_tail f end;
     succ_head := succ_head f;
     succ_tail := match m with SUCC => v | PRED => succ_tail f end;
     mq := mq f |}.

(** Modelled from the spec: the macro [GNUNET_CONTAINER_MDLL_insert]
    (gnunet_container_lib.h, not among the sources) for the doubly-linked
    trail lists of a friend: [element] becomes the head of the list whose
    head and tail are the fields [hd] of [friend] and whose links are the
    fields [m] of the trails.  The macro asserts that the element is not
    linked yet. *)
Definition MDLL_insert (m hd : mdll) (friend : option nat) (element : nat) : M unit :=
  do f <- load_friend friend;
  do e <- load_trail (Some element);
  GNUNET_assert (bool_decide (prev_ m e = None)
                 && negb (bool_decide (head_ hd f = Some element)));;
  GNUNET_assert (bool_decide (next_ m e = None)
                 && negb (bool_decide (tail_ hd f = Some element)));;
  store_trail (Some element) (set_next_ m (head_ hd f));;
  store_trail (Some element) (set_prev_ m None);;
  match tail_ hd f with
  | None => store_friend friend (set_tail_ hd (Some element))
  | Some _ => store_trail (head_ hd f) (set_prev_ m (Some element))
  end;;
  store_friend friend (set_head_ hd (Some element)).

(** Modelled from the spec: the macro [GNUNET_CONTAINER_MDLL_remove]
    (gnunet_container_lib.h, not among the sources): the neighbours of
    [element] in the list of links [m] are linked to each other, the head
    and tail fields [hd] of [friend] take over where [element] has no
    neighbour, and the links of [element] are cleared.  The macro asserts
    that an element without a neighbour is the head, respectively the
    tail, it was given. *)
Definition MDLL_remove (m hd : mdll) (friend : option nat) (element : nat) : M unit :=
  do e <- load_trail (Some element);
  do f <- load_friend friend;
  GNUNET_assert (negb (bool_decide (prev_ m e = None))
                 || bool_decide (head_ hd f = Some element));;
  GNUNET_assert (negb (bool_decide (next_ m e = None))
                 || bool_decide (tail_ hd f = Some element));;
  match prev_ m e with
  | None => store_friend friend (set_head_ hd (next_ m e))
  | Some p => store_trail (Some p) (set_next_ m (next_ m e))
  end;;
  do e <- load_trail (Some element);
  match next_ m e with
  | None => store_friend friend (set_tail_ hd (prev_ m e))
  | Some n => store_trail (Some n) (set_prev_ m (prev_ m e))
  end;;
  store_trail (Some element) (set_next_ m None);;
  store_trail (Some element) (set_prev_ m None).

(** *** The expiration heap and the two maps *)

(** Modelled from the spec: [GNUNET_CONTAINER_heap_insert] of the min-heap
    (container_heap.c, not among the sources); the node is named by the
    trail it holds. *)
Definition heap_insert (element : nat) (cost : Z) : M (option nat) :=
  modify (fun s => set_trail_heap (trail_heap s ++ [(element, cost)]) s);;
  ret (Some element).

(** The node of least cost, the earliest inserted among equals. *)
Fixpoint heap_min (h : list (nat * Z)) : option (nat * Z) :=
  match h with
  | [] => None
  | n :: h' =>
      match heap_min h' with
      | None => Some n
      | Some n' => if (n.2 <=? n'.2) then Some n else Some n'
      end
  end.

(** Modelled from the spec: [GNUNET_CONTAINER_heap_peek], not among the
    sources: the element at the root of the min-heap, [NULL] if the heap is
    empty. *)
Definition heap_peek : M (option nat) :=
  do s <- get;
  ret (fst <$> heap_min (trail_heap s)).

(** Modelled from the spec: [GNUNET_CONTAINER_heap_remove_node], not among
    the sources: takes the node out of the heap, frees it and returns its
    element. *)
Definition heap_remove_node (node : option nat) : M (option nat) :=
  match node with
  | None => crash NullDeref
  | Some n =>
      do s <- get;
      if bool_decide (n ∈ (trail_heap s).*1)
      then modify (fun s => set_trail_heap (filter (fun x => x.1 ≠ n) (trail_heap s)) s);;
           ret (Some n)
      else crash UseAfterFree
  end.

(** Modelled from the spec: [GNUNET_CONTAINER_multihashmap_put] with the
    option UNIQUE_ONLY (container_multihashmap.c, not among the sources):
    [GNUNET_SYSERR] and no change if the key is taken. *)
Definition multihashmap_put_unique (key : Z) (value : nat) : M Z :=
  do s <- get;
  match trail_map s !! key with
  | Some _ => ret GNUNET_SYSERR
  | None => modify (fun s => set_trail_map (<[key := value]> (trail_map s)) s);;
            ret GNUNET_OK
  end.

(** [GNUNET_CONTAINER_multihashmap_get (trail_map, key)] *)
Definition multihashmap_get (key : Z) : M (option nat) :=
  do s <- get;
  ret (trail_map s !! key).

(** What the environment decides during one callback: the clock, the
    random numbers, the network size estimate ([GDS_NSE_get], rounded
    down), the random key of the datacache if it has one, and the byte
    order of the host. *)
Record env := {
  now : Z;
  random_friend : nat;
  random_hash : Z;
  random_u32 : Z;
  nse : Z;
  datacache_random_key : option Z;
  little_endian : bool
}.

(** *** The table of fingers *)

Definition load_ft (i : option nat) : M FingerTable :=
  fun s => match i with
           | None => Fault NullDeref s
           | Some j => match fingers s !! j with
                       | Some t => Ok t s
                       | None => Fault OutOfBounds s
                       end
           end.

Definition store_ft (i : option nat) (f : FingerTable -> FingerTable) : M unit :=
  do t <- load_ft i;
  match i with
  | Some j => modify (fun s => set_fingers (<[j := f t]> (fingers s)) s)
  | None => crash NullDeref
  end.

(** [ft->fingers[off]] *)
Definition load_finger (i : option nat) (off : nat) : M (option Finger) :=
  do t <- load_ft i;
  match ft_fingers t with
  | [] => crash NullDeref
  | _ => match ft_fingers t !! off with
         | Some slot => ret slot
         | None => crash OutOfBounds
         end
  end.

Definition set_ft_fingers (v : list (option Finger)) (t : FingerTable) : FingerTable :=
  {| ft_fingers := v; finger_array_size := finger_array_size t;
     number_valid_fingers := number_valid_fingers t;
     walk_offset := walk_offset t; is_sorted := is_sorted t |}.

Definition set_finger_array_size (v : nat) (t : FingerTable) : FingerTable :=
  {| ft_fingers := ft_fingers t; finger_array_size := v;
     number_valid_fingers := number_valid_fingers t;
     walk_offset := walk_offset t; is_sorted := is_sorted t |}.

Definition set_number_valid_fingers (v : Z) (t : FingerTable) : FingerTable :=
  {| ft_fingers := ft_fingers t; finger_array_size := finger_array_size t;
     number_valid_fingers := v;
     walk_offset := walk_offset t; is_sorted := is_sorted t |}.

Definition set_walk_offset (v : nat) (t : FingerTable) : FingerTable :=
  {| ft_fingers := ft_fingers t; finger_array_size := finger_array_size t;
     number_valid_fingers := number_valid_fingers t;
     walk_offset := v; is_sorted := is_sorted t |}.

Definition set_is_sorted (v : Z) (t : FingerTable) : FingerTable :=
  {| ft_fingers := ft_fingers t; finger_array_size := finger_array_size t;
     number_valid_fingers := number_valid_fingers t;
     walk_offset := walk_offset t; is_sorted := v |}.

(** [ft->fingers[off] = v] *)
Definition store_finger (i : option nat) (off : nat) (v : option Finger) : M unit :=
  load_finger i off;;
  store_ft i (fun t => set_ft_fingers (<[off := v]> (ft_fingers t)) t).

Definition uint (z : Z) : Z := z mod 2 ^ 32.

(** Field updates of a trail. *)
Definition set_pred_id (v : Z) (t : Trail) : Trail :=
  {| pred_id := v; succ_id := succ_id t; expiration_time := expiration_time t;
     prev_succ := prev_succ t; next_succ := next_succ t;
     prev_pred := prev_pred t; next_pred := next_pred t;
     pred := pred t; succ := succ t; hn := hn t; ft := ft t; finger_off := finger_off t |}.

Definition set_succ_id (v : Z) (t : Trail) : Trail :=
  {| pred_id := pred_id t; succ_id := v; expiration_time := expiration_time t;
     prev_succ := prev_succ t; next_succ := next_succ t;
     prev_pred := prev_pred t; next_pred := next_pred t;
     pred := pred t; succ := succ t; hn := hn t; ft := ft t; finger_off := finger_off t |}.

Definition set_expiration_time (v : Z) (t : Trail) : Trail :=
  {| pred_id := pred_id t; succ_id := succ_id t; expiration_time := v;
     prev_succ := prev_succ t; next_succ := next_succ t;
     prev_pred := prev_pred t; next_pred := next_pred t;
     pred := pred t; succ := succ t; hn := hn t; ft := ft t; finger_off := finger_off t |}.

Definition set_pred (v : option nat) (t : Trail) : Trail :=
  {| pred_id := pred_id t; succ_id := succ_id t; expiration_time := expiration_time t;
     prev_succ := prev_succ t; next_succ := next_succ t;
     prev_pred := prev_pred t; next_pred := next_pred t;
     pred := v; succ := succ t; hn := hn t; ft := ft t; finger_off := finger_off t |}.

Definition set_succ (v : option nat) (t : Trail) : Trail :=
  {| pred_id := pred_id t; succ_id := succ_id t; expiration_time := expiration_time t;
     prev_succ := prev_succ t; next_succ := next_succ t;
     prev_pred := prev_pred t; next_pred := next_pred t;
     pred := pred t; succ := v; hn := hn t; ft := ft t; finger_off := finger_off t |}.

Definition set_hn (v : option nat) (t : Trail) : Trail :=
  {| pred_id := pred_id t; succ_id := succ_id t; expiration_time := expiration_time t;
     prev_succ := prev_succ t; next_succ := next_succ t;
     prev_pred := prev_pred t; next_pred := next_pred t;
     pred := pred t; succ := succ t; hn := v; ft := ft t; finger_off := finger_off t |}.

Definition set_ft (v : option nat) (t : Trail) : Trail :=
  {| pred_id := pred_id t; succ_id := succ_id t; expiration_time := expiration_time t;
     prev_succ := prev_succ t; next_succ := next_succ t;
     prev_pred := prev_pred t; next_pred := next_pred t;
     pred := pred t; succ := succ t; hn := hn t; ft := v; finger_off := finger_off t |}.

Definition set_finger_off (v : nat) (t : Trail) : Trail :=
  {| pred_id := pred_id t; succ_id := succ_id t; expiration_time := expiration_time t;
     prev_succ := prev_succ t; next_succ := next_succ t;
     prev_pred := prev_pred t; next_pred := next_pred t;
     pred := pred t; succ := succ t; hn := hn t; ft := ft t; finger_off := v |}.

(** *** The functions of the file *)

Definition when (b : bool) (m : M unit) : M unit := if b then m else ret tt.

(** [delete_trail] *)
Definition delete_trail (trail : option nat) (inform_pred inform_succ : bool) : M unit :=
  do t <- load_trail trail;
  match trail with
  | None => crash NullDeref
  | Some q =>
      match pred t with
      | None => ret tt
      | Some _ =>
          when inform_pred
            (send_to (pred t) (MsgTrailDestroy {| td_trail_id := pred_id t |}));;
          MDLL_remove PRED PRED (pred t) q
      end;;
      do t <- load_trail trail;
      match succ t with
      | None => ret tt
      | Some _ =>
          when inform_succ
            (send_to (succ t) (MsgTrailDestroy {| td_trail_id := pred_id t |}));;
          MDLL_remove SUCC PRED (succ t) q
      end;;
      do t <- load_trail trail;
      do r <- heap_remove_node (hn t);
      GNUNET_break (bool_decide (r = trail));;
      do finger <- load_finger (ft t) (finger_off t);
      match finger with
      | None => ret tt
      | Some _ =>
          store_finger (ft t) (finger_off t) None;;
          store_ft (ft t) (fun x =>
            set_number_valid_fingers (uint (number_valid_fingers x - 1)) x);;
          log (EvFreeFinger (default 0%nat (ft t)) (finger_off t))
      end;;
      free_trail q
  end.

(** [GNUNET_CONTAINER_multipeermap_get_random] with [pick_random_helper],
    as [pick_random_friend] uses it: [NULL] if the map is empty. *)
Definition pick_random_friend (e : env) : M (option nat) :=
  do s <- get;
  let l := map_to_list (friends_peermap s) in
  match l with
  | [] => ret None
  | _ => ret (snd <$> l !! (random_friend e mod length l)%nat)
  end.

(** [trail_timeout_callback]: the loop, with [left] as computed last. The
    fuel bounds the number of rounds; each round takes a node off the
    heap. *)
Fixpoint trail_timeout_loop (fuel : nat) (e : env) : M (option nat * Z) :=
  do trail <- heap_peek;
  match trail with
  | None => ret (None, 0)
  | Some _ =>
      do t <- load_trail trail;
      let left := Time.absolute_get_remaining (now e) (expiration_time t) in
      if negb (left =? 0) then ret (trail, left)
      else match fuel with
           | O => crash OutOfFuel
           | S fuel' =>
               delete_trail trail true true;;
               trail_timeout_loop fuel' e
           end
  end.

(** [trail_timeout_callback] *)
Definition trail_timeout_callback (e : env) : M unit :=
  modify (set_trail_timeout_task None);;
  do s <- get;
  do r <- trail_timeout_loop (length (trail_heap s)) e;
  match r.1 with
  | None => ret tt
  | Some _ => modify (set_trail_timeout_task (Some r.2))
  end.

(** [get_desired_finger_array_size] *)
Definition get_desired_finger_array_size : nat := 64.

(** [GNUNET_array_grow (ft->fingers, ft->finger_array_size, nsize)] *)
Definition array_grow (nsize : nat) (t : FingerTable) : FingerTable :=
  set_finger_array_size nsize
    (set_ft_fingers (take nsize (ft_fingers t)
                     ++ replicate (nsize - finger_array_size t) None) t).

(** [do_random_walk] *)
Definition do_random_walk (e : env) : M unit :=
  modify (set_random_walk_task None);;
  do friend <- pick_random_friend e;
  do trail <- alloc_trail;
  store_trail (Some trail) (set_succ friend);;
  store_trail (Some trail) (set_succ_id (random_hash e));;
  do rc <- multihashmap_put_unique (random_hash e) trail;
  if negb (rc =? GNUNET_OK)
  then GNUNET_break false;; free_trail trail
  else
    MDLL_insert SUCC SUCC friend trail;;
    store_trail (Some trail)
      (set_expiration_time (Time.relative_to_absolute (now e) TRAIL_TIMEOUT));;
    do t <- load_trail (Some trail);
    do node <- heap_insert trail (expiration_time t);
    store_trail (Some trail) (set_hn node);;
    do s <- get;
    when (bool_decide (trail_timeout_task s = None))
      (modify (set_trail_timeout_task (Some TRAIL_TIMEOUT)));;
    send_to friend (MsgRandomWalk {| rw_hops_taken := 0; rw_layer := 0;
                                     rw_trail_id := random_hash e |});;
    do s <- get;
    let layer := Some (walk_layer s) in
    do table <- load_ft layer;
    match ft_fingers table with
    | [] => ret tt
    | _ =>
        do finger <- load_finger layer (walk_offset table);
        match finger with
        | None => ret tt
        | Some f => delete_trail (Wdht.trail f) false true
        end
    end;;
    do table <- load_ft layer;
    when (bool_decide (finger_array_size table < get_desired_finger_array_size)%nat)
      (store_ft layer (array_grow get_desired_finger_array_size));;
    do table <- load_ft layer;
    do slot <- load_finger layer (walk_offset table);
    GNUNET_assert (bool_decide (slot = None));;
    store_trail (Some trail) (set_ft layer);;
    store_trail (Some trail) (set_finger_off (walk_offset table));;
    store_finger layer (walk_offset table)
      (Some {| trail := Some trail; finger_ft := layer; destination := 0; valid := 0 |});;
    store_ft layer (set_is_sorted GNUNET_NO);;
    store_ft layer (fun x => set_number_valid_fingers (uint (number_valid_fingers x + 1)) x);;
    store_ft layer (fun x =>
      set_walk_offset ((walk_offset x + 1) mod finger_array_size x)%nat x);;
    modify (fun s => set_walk_layer ((walk_layer s + 1) mod Z.to_nat NUMBER_LAYERED_ID)%nat s);;
    modify (set_random_walk_task (Some RANDOM_WALK_DELAY))
  .

(** [handle_core_disconnect]: one of its two loops
    [while (NULL != (t = remove_friend->HEAD)) delete_trail (t, ...)].  The
    fuel bounds the number of rounds; each round takes a node off the
    heap. *)
Fixpoint disconnect_loop (fuel : nat) (hd : mdll) (friend : option nat)
    (inform_pred inform_succ : bool) : M unit :=
  do f <- load_friend friend;
  match head_ hd f with
  | None => ret tt
  | Some t =>
      match fuel with
      | O => crash OutOfFuel
      | S fuel' =>
          delete_trail (Some t) inform_pred inform_succ;;
          disconnect_loop fuel' hd friend inform_pred inform_succ
      end
  end.

(** Modelled from the spec: [GNUNET_SCHEDULER_cancel] (scheduler.c, not
    among the sources) applied to [random_walk_task]; the scheduler reads
    the task it is handed. *)
Definition cancel_random_walk_task : M unit :=
  do s <- get;
  match random_walk_task s with
  | None => crash NullDeref
  | Some _ => ret tt
  end.

(** [handle_core_disconnect] *)
Definition handle_core_disconnect (peer : Z) : M unit :=
  do s <- get;
  if bool_decide (my_identity s = peer) then ret tt
  else
    match friends_peermap s !! peer with
    | None => GNUNET_break false
    | Some rf =>
        let remove_friend := Some rf in
        modify (fun s => set_friends_peermap (delete peer (friends_peermap s)) s);;
        do s <- get;
        disconnect_loop (S (length (trail_heap s))) SUCC remove_friend true false;;
        do s <- get;
        disconnect_loop (S (length (trail_heap s))) PRED remove_friend false true;;
        free_friend rf;;
        do s <- get;
        when (bool_decide (size (friends_peermap s) = 0%nat))
          (cancel_random_walk_task;;
           modify (set_random_walk_task None))
    end.

(** [handle_core_connect] *)
Definition handle_core_connect (peer_identity : Z) : M unit :=
  do s <- get;
  if bool_decide (my_identity s = peer_identity) then ret tt
  else
    match friends_peermap s !! peer_identity with
    | Some _ => GNUNET_break false
    | None =>
        do friend <- alloc_friend {| id := peer_identity; pred_head := None;
                                     pred_tail := None; succ_head := None;
                                     succ_tail := None; mq := peer_identity |};
        modify (fun s => set_friends_peermap
                           (<[peer_identity := friend]> (friends_peermap s)) s);;
        do s <- get;
        when (bool_decide (random_walk_task s = None))
          (modify (set_random_walk_task (Some 0)))
    end.

(** [ntohl (m->hops_taken)] of [handle_dht_p2p_random_walk]: the 16-bit
    field, holding [hops] in network byte order, widened to 32 bit and
    then byte-swapped as a 32-bit number on a little-endian host. *)
Definition ntohl_of_hops_taken (e : env) (hops : Z) : Z :=
  if little_endian e then hops * 65536 else hops.

(** The search [for (i=0; (NULL == (f = ft->fingers[i])) || (off > 0); i++)
    if (NULL != f) off--;] of [handle_dht_p2p_random_walk]. *)
Fixpoint nth_valid_finger (l : list (option Finger)) (off : Z) : M Finger :=
  match l with
  | [] => crash OutOfBounds
  | None :: l' => nth_valid_finger l' off
  | Some f :: l' =>
      if (off >? 0) then nth_valid_finger l' (uint (off - 1)) else ret f
  end.

(** [handle_dht_p2p_random_walk] *)
Definition handle_dht_p2p_random_walk (e : env) (peer : Z) (m : RandomWalkMessage) : M Z :=
  let layer := rw_layer m in
  if (layer >? NUMBER_LAYERED_ID)
  then GNUNET_break_op false;; ret GNUNET_SYSERR
  else
    do s <- get;
    let pred0 := friends_peermap s !! peer in
    do t <- alloc_trail;
    store_trail (Some t) (set_pred_id (rw_trail_id m));;
    store_trail (Some t) (set_pred pred0);;
    do rc <- multihashmap_put_unique (rw_trail_id m) t;
    if negb (rc =? GNUNET_OK)
    then GNUNET_break_op false;; free_trail t;; ret GNUNET_SYSERR
    else
      MDLL_insert PRED PRED pred0 t;;
      store_trail (Some t)
        (set_expiration_time (Time.relative_to_absolute (now e) TRAIL_TIMEOUT));;
      do tr <- load_trail (Some t);
      do node <- heap_insert t (expiration_time tr);
      store_trail (Some t) (set_hn node);;
      do s <- get;
      when (bool_decide (trail_timeout_task s = None))
        (modify (set_trail_timeout_task (Some TRAIL_TIMEOUT)));;
      if (ntohl_of_hops_taken e (rw_hops_taken m) >? nse e)
      then
        do location <-
          (if (layer =? 0)
           then ret (default 0 (datacache_random_key e))
           else
             do table <- load_ft (Some (Z.to_nat (layer - 1)));
             if (number_valid_fingers table =? 0)
             then ret (random_hash e)
             else
               do f <- nth_valid_finger (ft_fingers table)
                         (random_u32 e mod number_valid_fingers table);
               ret (destination f));
        send_to pred0 (MsgRandomWalkResponse
                         {| rwr_trail_id := rw_trail_id m; rwr_location := location |});;
        ret GNUNET_OK
      else
        do succ0 <- pick_random_friend e;
        store_trail (Some t) (set_succ_id (random_hash e));;
        store_trail (Some t) (set_succ succ0);;
        do rc <- multihashmap_put_unique (random_hash e) t;
        if negb (rc =? GNUNET_OK)
        then
          GNUNET_break false;;
          MDLL_remove PRED PRED pred0 t;;
          free_trail t;;
          ret GNUNET_OK
        else
          MDLL_insert SUCC SUCC succ0 t;;
          send_to succ0 (MsgRandomWalk
            {| rw_hops_taken := (1 + rw_hops_taken m) mod 65536;
               rw_layer := rw_layer m;
               rw_trail_id := random_hash e |});;
          ret GNUNET_OK.

(** [handle_dht_p2p_random_walk_response] *)
Definition handle_dht_p2p_random_walk_response (peer : Z)
    (rwrm : RandomWalkResponseMessage) : M Z :=
  do trail <- multihashmap_get (rwr_trail_id rwrm);
  match trail with
  | None => ret GNUNET_OK
  | Some _ =>
      do t <- load_trail trail;
      match pred t with
      | Some _ =>
          send_to (pred t) (MsgRandomWalkResponse
            {| rwr_trail_id := pred_id t; rwr_location := rwr_location rwrm |});;
          ret GNUNET_OK
      | None =>
          match ft t with
          | None =>
              GNUNET_break false;;
              delete_trail trail false true;;
              ret GNUNET_OK
          | Some _ =>
              do finger <- load_finger (ft t) (finger_off t);
              match finger with
              | None =>
                  GNUNET_break false;;
                  delete_trail trail false true;;
                  ret GNUNET_OK
              | Some _ => ret GNUNET_OK
              end
          end
      end
  end.

(** [handle_dht_p2p_trail_destroy] *)
Definition handle_dht_p2p_trail_destroy (peer : Z) (tdm : TrailDestroyMessage) : M Z :=
  do trail <- multihashmap_get (td_trail_id tdm);
  do t <- load_trail trail;
  do from_succ <-
    match succ t with
    | None => ret false
    | Some _ => do f <- load_friend (succ t); ret (bool_decide (peer = id f))
    end;
  do from_pred <-
    match pred t with
    | None => ret false
    | Some _ => do f <- load_friend (pred t); ret (bool_decide (peer = id f))
    end;
  delete_trail trail from_succ from_pred;;
  ret GNUNET_OK.

(** *** Trail routing: messages as received, byte by byte *)

Definition byte_val (b : Byte.byte) : Z := Z.of_N (Byte.to_N b).

(** One byte of the buffer; a read outside of it is a fault. *)
Definition read_u8 (buf : list Byte.byte) (off : Z) : M Z :=
  if (off <? 0) then crash OutOfBounds
  else match buf !! Z.to_nat off with
       | Some b => ret (byte_val b)
       | None => crash OutOfBounds
       end.

(** [ntohs] of the 16-bit field at [off]. *)
Definition read_u16 (buf : list Byte.byte) (off : Z) : M Z :=
  do hi <- read_u8 buf off;
  do lo <- read_u8 buf (off + 1);
  ret (hi * 256 + lo).

(** [len] bytes from [off] on. *)
Definition read_bytes (buf : list Byte.byte) (off len : Z) : M (list Byte.byte) :=
  if (off <? 0) || (len <? 0) || (Z.of_nat (length buf) <? off + len)
  then crash OutOfBounds
  else ret (take (Z.to_nat len) (drop (Z.to_nat off) buf)).

(** The number a sequence of bytes stands for (a hash code or a peer
    identity, compared with [memcmp]). *)
Definition be_value (l : list Byte.byte) : Z :=
  fold_left (fun acc b => acc * 256 + byte_val b) l 0.

Definition read_be (buf : list Byte.byte) (off len : Z) : M Z :=
  do l <- read_bytes buf off len;
  ret (be_value l).

Definition size_t (z : Z) : Z := z mod 2 ^ 64.

(** [forward_message_on_trail]; [path] and [payload] are offsets into the
    received message [buf]. *)
Definition forward_message_on_trail (next_target : option nat) (trail_id : Z)
    (have_path : Z) (predecessor : Z) (buf : list Byte.byte) (path : Z)
    (path_length : Z) (payload : Z) : M unit :=
  do payload_len <- read_u16 buf payload;
  do '(have_path, path_length, plen) <-
    (if negb (have_path =? 0)
     then
       let plen := uint (path_length + 1) in
       if (plen >=? size_t (GNUNET_SERVER_MAX_MESSAGE_SIZE - payload_len
                            - sizeof_TrailRouteMessage)
                    / sizeof_PeerIdentity)
       then GNUNET_break_op false;; ret (0, path_length, 0)
       else ret (have_path, path_length, plen)
     else
       GNUNET_break_op (path_length =? 0);;
       ret (have_path, 0, 0));
  do copied <-
    (if negb (have_path =? 0)
     then read_bytes buf path (path_length * sizeof_PeerIdentity)
     else ret []);
  do body <- read_bytes buf payload payload_len;
  send_to next_target
    (MsgTrailRoute {| tr_record_path := have_path mod 65536;
                      tr_path_length := plen mod 65536;
                      tr_trail_id := trail_id;
                      tr_path := copied;
                      tr_appended := if negb (have_path =? 0)
                                     then Some predecessor else None;
                      tr_payload := body |}).

(** The callbacks of the handler table. *)
Inductive TrailHandlerCallback :=
| cb_successor_find
| cb_peer_get
| cb_peer_get_result
| cb_peer_put.

(** [struct TrailHandler] *)
Record TrailHandler := {
  callback : TrailHandlerCallback;
  message_type : Z;
  message_size : Z
}.

(** [handle_dht_p2p_successor_find] *)
Definition handle_dht_p2p_successor_find (trail_id : Z) (trail_path_length : Z)
    (buf : list Byte.byte) (message : Z) : M Z :=
  GNUNET_break_op (trail_path_length =? 0);;
  do key <- read_be buf (message + sizeof_MessageHeader + 4) sizeof_HashCode;
  log (EvGetSuccessors trail_id key);;
  ret GNUNET_OK.

(** [handle_dht_p2p_peer_get], [handle_dht_p2p_peer_get_result] and
    [handle_dht_p2p_peer_put]: their bodies only cast the message. *)
Definition handle_dht_p2p_peer_get : M Z := ret GNUNET_OK.
Definition handle_dht_p2p_peer_get_result : M Z := ret GNUNET_OK.
Definition handle_dht_p2p_peer_put : M Z := ret GNUNET_OK.

Definition run_callback (c : TrailHandlerCallback) (trail_id : Z)
    (trail_path_length : Z) (buf : list Byte.byte) (message : Z) : M Z :=
  match c with
  | cb_successor_find =>
      handle_dht_p2p_successor_find trail_id trail_path_length buf message
  | cb_peer_get => handle_dht_p2p_peer_get
  | cb_peer_get_result => handle_dht_p2p_peer_get_result
  | cb_peer_put => handle_dht_p2p_peer_put
  end.

(** The table [handlers] of [handle_dht_p2p_trail_route]. *)
Definition handlers : list TrailHandler :=
  [ {| callback := cb_successor_find;
       message_type := GNUNET_MESSAGE_TYPE_WDHT_SUCCESSOR_FIND;
       message_size := sizeof_FindSuccessorMessage |};
    {| callback := cb_peer_get;
       message_type := GNUNET_MESSAGE_TYPE_WDHT_GET; message_size := 0 |};
    {| callback := cb_peer_get_result;
       message_type := GNUNET_MESSAGE_TYPE_WDHT_GET_RESULT; message_size := 0 |};
    {| callback := cb_peer_put;
       message_type := GNUNET_MESSAGE_TYPE_WDHT_PUT; message_size := 0 |} ].

(** The loop over the table; [th] is the entry looked at last. *)
Fixpoint dispatch (hs : list TrailHandler) (th : option TrailHandler)
    (trail_id path_length : Z) (buf : list Byte.byte) (payload : Z) : M unit :=
  match hs with
  | [] => GNUNET_break_op (bool_decide (is_Some th))
  | h :: hs' =>
      do type <- read_u16 buf (payload + 2);
      if (type =? message_type h)
      then
        do size <- read_u16 buf payload;
        (if (message_size h =? 0) || (size =? message_size h)
         then run_callback (callback h) trail_id path_length buf payload;; ret tt
         else GNUNET_break_op false);;
        GNUNET_break_op true
      else dispatch hs' (Some h) trail_id path_length buf payload
  end.

(** [handle_dht_p2p_trail_route], from "Is this message for us?" on: the
    message passed the size checks, its path starts behind the fixed part
    and its payload behind the [path_length] entries of the path. *)
Definition route_or_dispatch (peer : Z) (message : list Byte.byte)
    (path_length : Z) : M Z :=
  let path := sizeof_TrailRouteMessage in
  let payload := path + path_length * sizeof_PeerIdentity in
  do trail_id <- read_be message (sizeof_MessageHeader + 4) sizeof_HashCode;
  do record_path <- read_u16 message sizeof_MessageHeader;
  do trail <- multihashmap_get trail_id;
  do t <- load_trail trail;
  do from_pred <-
    match pred t with
    | None => ret false
    | Some _ => do f <- load_friend (pred t); ret (bool_decide (peer = id f))
    end;
  do forwarded <-
    (if from_pred
     then
       match succ t with
       | Some _ =>
           forward_message_on_trail (succ t) (succ_id t) record_path peer
             message path path_length payload;;
           ret true
       | None => ret false
       end
     else
       do from_succ <-
         match succ t with
         | None => ret false
         | Some _ => do f <- load_friend (succ t); ret (bool_decide (peer = id f))
         end;
       GNUNET_break_op from_succ;;
       match pred t with
       | Some _ =>
           forward_message_on_trail (pred t) (pred_id t) record_path peer
             message path path_length payload;;
           ret true
       | None => ret false
       end);
  if forwarded : bool then ret GNUNET_OK
  else
    dispatch handlers None trail_id path_length message payload;;
    ret GNUNET_OK.

(** [handle_dht_p2p_trail_route]: the size checks, then the above. *)
Definition handle_dht_p2p_trail_route (peer : Z) (message : list Byte.byte) : M Z :=
  do msize <- read_u16 message 0;
  if (msize <? sizeof_TrailRouteMessage)
  then GNUNET_break_op false;; ret GNUNET_YES
  else
    do path_length <- read_u16 message (sizeof_MessageHeader + 2);
    if (msize <? sizeof_TrailRouteMessage + path_length * sizeof_PeerIdentity
                 + sizeof_MessageHeader)
    then GNUNET_break_op false;; ret GNUNET_YES
    else
      let payload := sizeof_TrailRouteMessage + path_length * sizeof_PeerIdentity in
      do payload_size <- read_u16 message payload;
      if negb (msize =? payload_size + sizeof_TrailRouteMessage
                        + path_length * sizeof_PeerIdentity)
      then GNUNET_break_op false;; ret GNUNET_YES
      else route_or_dispatch peer message path_length.

(** *** What a received buffer says about itself *)

(** The byte at [off], if the buffer has one there. *)
Definition get_u8 (buf : list Byte.byte) (off : Z) : option Z :=
  if (off <? 0) then None else byte_val <$> buf !! Z.to_nat off.

(** The 16-bit number (network byte order) at [off], if the buffer holds
    both of its bytes. *)
Definition get_u16 (buf : list Byte.byte) (off : Z) : option Z :=
  match get_u8 buf off, get_u8 buf (off + 1) with
  | Some hi, Some lo => Some (hi * 256 + lo)
  | _, _ => None
  end.

(** What core guarantees of a message it delivers: the size field of the
    header is the number of bytes received. *)
Definition well_framed (buf : list Byte.byte) : Prop :=
  get_u16 buf 0 = Some (Z.of_nat (length buf)).

(** The declared path length is consistent with the size of the message:
    header, [path_length] peer identities and the embedded payload (its
    own size field) add up to the bytes received. *)
Definition path_length_consistent (buf : list Byte.byte) : bool :=
  match get_u16 buf (sizeof_MessageHeader + 2) with
  | None => false
  | Some path_length =>
      let payload := sizeof_TrailRouteMessage + path_length * sizeof_PeerIdentity in
      match get_u16 buf payload with
      | None => false
      | Some payload_size => payload + payload_size =? Z.of_nat (length buf)
      end
  end.

(** Writing messages, for the worked examples: a 16-bit field, a run of
    zero bytes, and a [struct TrailRouteMessage] with an empty path around
    a payload that is a bare message header. *)
Definition byte_of (z : Z) : Byte.byte :=
  default Byte.x00 (Byte.of_N (Z.to_N (z mod 256))).

Definition put_u16 (z : Z) : list Byte.byte :=
  [byte_of (z / 256); byte_of z].

Definition put_be (len : nat) (z : Z) : list Byte.byte :=
  rev (map (fun i => byte_of (z / 256 ^ Z.of_nat i)) (seq 0 len)).

Definition example_trail_route (record_path trail_id payload_type : Z) : list Byte.byte :=
  put_u16 (sizeof_TrailRouteMessage + sizeof_MessageHeader) ++ put_u16 913
  ++ put_u16 record_path ++ put_u16 0
  ++ put_be (Z.to_nat sizeof_HashCode) trail_id
  ++ put_u16 sizeof_MessageHeader ++ put_u16 payload_type.

(** An environment for the worked examples: the clock at [t], the random
    hash [h], the first friend, a network size estimate of 1. *)
Definition example_env (h t : Z) : env :=
  {| now := t; random_friend := 0; random_hash := h; random_u32 := 0; nse := 1;
     datacache_random_key := Some 777; little_endian := true |}.

(** *** The callbacks as the scheduler and core run them *)

Inductive input :=
| CoreConnect (peer : Z)
| CoreDisconnect (peer : Z)
| RandomWalkTimer
| TrailTimeoutTimer
| P2PRandomWalk (peer : Z) (m : RandomWalkMessage)
| P2PRandomWalkResponse (peer : Z) (m : RandomWalkResponseMessage)
| P2PTrailDestroy (peer : Z) (m : TrailDestroyMessage)
| P2PTrailRoute (peer : Z) (m : list Byte.byte).

(** One callback.  A timer callback runs only if its task is scheduled. *)
Definition step (e : env) (i : input) : M Z :=
  match i with
  | CoreConnect peer => handle_core_connect peer;; ret GNUNET_OK
  | CoreDisconnect peer => handle_core_disconnect peer;; ret GNUNET_OK
  | RandomWalkTimer =>
      do s <- get;
      match random_walk_task s with
      | None => ret GNUNET_OK
      | Some _ => do_random_walk e;; ret GNUNET_OK
      end
  | TrailTimeoutTimer =>
      do s <- get;
      match trail_timeout_task s with
      | None => ret GNUNET_OK
      | Some _ => trail_timeout_callback e;; ret GNUNET_OK
      end
  | P2PRandomWalk peer m => handle_dht_p2p_random_walk e peer m
  | P2PRandomWalkResponse peer m => handle_dht_p2p_random_walk_response peer m
  | P2PTrailDestroy peer m => handle_dht_p2p_trail_destroy peer m
  | P2PTrailRoute peer m => handle_dht_p2p_trail_route peer m
  end.

(** A sequence of callbacks, each with what the environment decides during
    it; a fault ends the run. *)
Fixpoint run (l : list (env * input)) : M unit :=
  match l with
  | [] => ret tt
  | (e, i) :: l' => step e i;; run l'
  end.

(** The result of a computation as a pair, and the state it ends in. *)
Definition final_state {A} (r : res A) : state :=
  match r with Ok _ s => s | Fault _ s => s end.

(** One friend (peer 2) and three random walks started towards it, at
    times 10, 20 and 30, with trail identifiers 100, 101 and 102: the trails
    are the cells 2, 3 and 4, one finger in each of the layers 0, 1, 2. *)
Definition three_walks : state :=
  final_state (run [(example_env 0 0, CoreConnect 2);
                    (example_env 100 10, RandomWalkTimer);
                    (example_env 101 20, RandomWalkTimer);
                    (example_env 102 30, RandomWalkTimer)] (init_state 1)).

(** One friend (peer 2) from which three random walks arrived that end
    here (their hop count is above the estimate), at times 10, 20 and 30,
    with trail identifiers 50, 51 and 52. *)
Definition three_received_walks : state :=
  final_state (run [(example_env 0 0, CoreConnect 2);
                    (example_env 0 10, P2PRandomWalk 2
                       {| rw_hops_taken := 1; rw_layer := 0; rw_trail_id := 50 |});
                    (example_env 0 20, P2PRandomWalk 2
                       {| rw_hops_taken := 1; rw_layer := 0; rw_trail_id := 51 |});
                    (example_env 0 30, P2PRandomWalk 2
                       {| rw_hops_taken := 1; rw_layer := 0; rw_trail_id := 52 |})]
                 (init_state 1)).

(** *** Results sent back, shutdown *)

(** The two bytes of a 16-bit field written in host byte order (a plain
    assignment to the field). *)
Definition host_u16 (e : env) (z : Z) : list Byte.byte :=
  if little_endian e then [byte_of z; byte_of (z / 256)]
  else [byte_of (z / 256); byte_of z].

(** [GDS_NEIGHBOURS_send_get_result].  [record_route] is the bit
    [GNUNET_DHT_RO_RECORD_ROUTE] of the options.  The payload is
    [GNUNET_malloc]'ed (zeroed), its size field is assigned [data_size] and
    its type field the type, both in host byte order; no path is handed to
    [forward_message_on_trail].  The reply to a local client
    ([GDS_CLIENTS_handle_reply]) leaves the state of this file as it
    is. *)
Definition GDS_NEIGHBOURS_send_get_result (e : env) (trail_id : Z)
    (record_route : bool) (data_size : Z) : M unit :=
  do trail <- multihashmap_get trail_id;
  match trail with
  | None => ret tt
  | Some _ =>
      do t <- load_trail trail;
      match pred t with
      | None => ret tt
      | Some _ =>
          let payload :=
            host_u16 e (data_size mod 65536)
            ++ host_u16 e GNUNET_MESSAGE_TYPE_WDHT_GET_RESULT
            ++ replicate (Z.to_nat data_size) Byte.x00 in
          do s <- get;
          forward_message_on_trail (pred t) trail_id (if record_route then 1 else 0)
            (my_identity s) payload 0 0 0
      end
  end.


(** *** More states for the worked examples *)

(** One friend (peer 2) and three random walks started towards it, the
    second of them with the clock behind (times 10, 5 and 30): the trail in
    the middle of the friend's list, cell 3, is the first to expire. *)
Definition walks_with_clock_skew : state :=
  final_state (run [(example_env 0 0, CoreConnect 2);
                    (example_env 100 10, RandomWalkTimer);
                    (example_env 101 5, RandomWalkTimer);
                    (example_env 102 30, RandomWalkTimer)] (init_state 1)).

(** Two friends (peers 2 and 3) and a random walk received from peer 3
    that was sent on: one trail, cell 3, with the identifier 50 towards its
    predecessor and 60 towards its successor. *)
Definition one_relayed_walk : state :=
  final_state (run [(example_env 0 0, CoreConnect 2);
                    (example_env 0 0, CoreConnect 3);
                    ({| now := 5; random_friend := 1; random_hash := 60;
                        random_u32 := 0; nse := 1; datacache_random_key := None;
                        little_endian := true |},
                     P2PRandomWalk 3
                       {| rw_hops_taken := 0; rw_layer := 0; rw_trail_id := 50 |})]
                 (init_state 1)).

(** *** Notions the facts below are stated with *)

(** The three size checks of [handle_dht_p2p_trail_route], as facts about
    the buffer. *)
Record parsed (buf : list Byte.byte) (path_length payload_size : Z) : Prop := {
  parsed_path_length : get_u16 buf (sizeof_MessageHeader + 2) = Some path_length;
  parsed_payload_size :
    get_u16 buf (sizeof_TrailRouteMessage + path_length * sizeof_PeerIdentity)
    = Some payload_size;
  parsed_total :
    Z.of_nat (length buf)
    = payload_size + sizeof_TrailRouteMessage + path_length * sizeof_PeerIdentity;
  parsed_payload_min : sizeof_MessageHeader <= payload_size;
  parsed_path_length_min : 0 <= path_length
}.

(** No read of the computation leaves the buffer. *)
Definition oob_free {A} (m : M A) : Prop :=
  forall s f s', m s = Fault f s' -> f <> OutOfBounds.

(** A computation that returns leaves the part [π] of the state as it
    was. *)
Definition preserves {T A} (π : state -> T) (m : M A) : Prop :=
  forall s a s', m s = Ok a s' -> π s' = π s.

(** Parts of the state that do not depend on the heap cells and the log,
    on the expiration heap and its task, on the map of trails, on the
    random walk task and layer. *)
Class MemBlind {T} (π : state -> T) : Prop := {
  blind_trail_mem v s : π (set_trail_mem v s) = π s;
  blind_friend_mem v s : π (set_friend_mem v s) = π s;
  blind_fingers v s : π (set_fingers v s) = π s;
  blind_events v s : π (set_events v s) = π s;
  blind_next_ptr v s : π (set_next_ptr v s) = π s
}.

Class HeapBlind {T} (π : state -> T) : Prop := {
  blind_trail_heap v s : π (set_trail_heap v s) = π s;
  blind_trail_timeout_task v s : π (set_trail_timeout_task v s) = π s
}.

Class MapBlind {T} (π : state -> T) : Prop := {
  blind_trail_map v s : π (set_trail_map v s) = π s
}.

Class WalkBlind {T} (π : state -> T) : Prop := {
  blind_walk_layer v s : π (set_walk_layer v s) = π s;
  blind_random_walk_task v s : π (set_random_walk_task v s) = π s
}.

Definition statics (s : state) : option Z * gmap Z nat * gmap Z nat :=
  (random_walk_task s, friends_peermap s, trail_map s).

Definition friends_and_task (s : state) : option Z * gmap Z nat :=
  (random_walk_task s, friends_peermap s).

(** The computation does not stop for lack of fuel. *)
Definition fuel_free {A} (m : M A) : Prop :=
  forall s f s', m s = Fault f s' -> f <> OutOfFuel.

(** The random walk task is pending only while there is a friend. *)
Definition task_needs_friend (s : state) : Prop :=
  friends_peermap s = ∅ -> random_walk_task s = None.


(** A computation that returns relates the state it ends in to the state
    it started in. *)
Definition respects {A} (R : state -> state -> Prop) (m : M A) : Prop :=
  forall s a s', m s = Ok a s' -> R s s'.

(** The part [π] of the state is the same. *)
Definition same {T} (π : state -> T) (s s' : state) : Prop := π s' = π s.

(** Every trail identifier of the map still leads where it led. *)
Definition map_grows (s s' : state) : Prop := trail_map s ⊆ trail_map s'.

(** What was logged in between satisfies [P]. *)
Definition emits (P : event -> Prop) (s s' : state) : Prop :=
  exists l, events s' = l ++ events s /\ Forall P l.

(** The fields of a trail that say where else it is stored. *)
Definition anchor (t : Trail) : option nat * option nat * nat :=
  (hn t, ft t, finger_off t).

Definition anchors (s : state) : gmap nat (option nat * option nat * nat) :=
  anchor <$> trail_mem s.

(** The fields of a trail that say whom to notify and how, and the queues
    of the friends. *)
Definition side (t : Trail) : option nat * option nat * Z :=
  (pred t, succ t, pred_id t).

Definition sides (s : state) : gmap nat (option nat * option nat * Z) :=
  side <$> trail_mem s.

Definition queues (s : state) : gmap nat Z := mq <$> friend_mem s.

(** [friend->mq] *)
Definition queue_of (s : state) (friend : option nat) : option Z :=
  friend ≫= fun f => mq <$> friend_mem s !! f.

(** The messages among the events, each with the queue it went to. *)
Definition sent (l : list event) : list (Z * message) :=
  omap (fun ev => match ev with
                  | EvSend queue m => Some (queue, m)
                  | _ => None
                  end) l.

(** The TRAIL_DESTROY for the queue of [friend], if there is a friend and
    it is to be informed. *)
Definition notification (s : state) (inform : bool) (friend : option nat)
    (trail_id : Z) : list (Z * message) :=
  if inform
  then match queue_of s friend with
       | Some queue => [(queue, MsgTrailDestroy {| td_trail_id := trail_id |})]
       | None => []
       end
  else [].

(** What [delete_trail] may log: a TRAIL_DESTROY, a [GNUNET_break], and the
    release of the finger and of the trail. *)
Definition delete_trail_event (e : event) : Prop :=
  match e with
  | EvSend _ (MsgTrailDestroy _) | EvBreak | EvFreeTrail _ | EvFreeFinger _ _ => True
  | _ => False
  end.

(** What [handle_dht_p2p_trail_route] may log: a message on its way, a
    look-up of successors, a protocol violation. *)
Definition trail_route_event (e : event) : Prop :=
  match e with
  | EvSend _ (MsgTrailRoute _) | EvGetSuccessors _ _ | EvBreakOp => True
  | _ => False
  end.

(** The state without its log. *)
Definition without_events (s : state) : state := set_events [] s.

(** Whatever the computation returns satisfies [Q]. *)
Definition always {A} (Q : A -> Prop) (m : M A) : Prop :=
  forall s a s', m s = Ok a s' -> Q a.

(** The identity of the peer is what it was, and if the peer was not among
    its friends it still is not. *)
Definition not_own_friend (s s' : state) : Prop :=
  my_identity s' = my_identity s /\
  (friends_peermap s !! my_identity s = None ->
   friends_peermap s' !! my_identity s' = None).

(** Every cell of a trail that is there was there, with the expiration
    time it has. *)
Definition keeps_expiry (s s' : state) : Prop :=
  forall q t', trail_mem s' !! q = Some t' ->
    exists t, trail_mem s !! q = Some t /\ expiration_time t = expiration_time t'.

(** A release of a trail is that of the trail [q]. *)
Definition frees_only (q : nat) (ev : event) : Prop :=
  match ev with
  | EvFreeTrail q' => q' = q
  | _ => True
  end.

(** A release of a trail is that of a trail of [s] whose time is up. *)
Definition frees_expired (e : env) (s : state) (ev : event) : Prop :=
  match ev with
  | EvFreeTrail q =>
      exists t, trail_mem s !! q = Some t /\
                Time.absolute_get_remaining (now e) (expiration_time t) = 0
  | _ => True
  end.

(** The statics that [do_random_walk] steers the walks with. *)
Definition walk_statics (s : state) : nat * gmap Z nat * option Z :=
  (walk_layer s, trail_map s, random_walk_task s).

(** Not a message. *)
Definition no_send (ev : event) : Prop :=
  match ev with
  | EvSend _ _ => False
  | _ => True
  end.

End Wdht.

(** * Facts about the address/session lifecycle *)

Section AtsFacts.
Import Ats.
Local Open Scope Z_scope.

Lemma update_ai_compose p f g l :
  keeps_ptr f ->
  update_ai p g (update_ai p f l) = update_ai p (fun a => g (f a)) l.
Proof.
  intros Hf. unfold update_ai. rewrite map_map. apply map_ext. intros a.
  destruct (Nat.eqb (ai_ptr a) p) eqn:E.
  - rewrite Hf, E. reflexivity.
  - rewrite E. reflexivity.
Qed.

Lemma Forall_update_ai (P : AddressInfo -> Prop) p f l :
  (forall a, P a -> P (f a)) -> Forall P l -> Forall P (update_ai p f l).
Proof.
  intros Hf Hl. unfold update_ai. induction Hl; simpl; constructor; auto.
  destruct (Nat.eqb (ai_ptr x) p); auto.
Qed.

Lemma Forall_remove_ai (P : AddressInfo -> Prop) p l :
  Forall P l -> Forall P (remove_ai p l).
Proof.
  intros Hl. unfold remove_ai. induction Hl; simpl.
  - constructor.
  - rewrite filter_cons. destruct (decide (ai_ptr x ≠ p)); auto.
Qed.

Lemma lookup_update_ai q p f l :
  keeps_ptr f ->
  lookup_ai q (update_ai p f l)
  = (fun a => if Nat.eqb q p then f a else a) <$> lookup_ai q l.
Proof.
  intros Hf. unfold lookup_ai, update_ai. induction l as [|a l IH]; simpl; [reflexivity|].
  destruct (Nat.eqb_spec (ai_ptr a) p); rewrite ?Hf;
    destruct (Nat.eqb_spec (ai_ptr a) q); simpl; auto;
    destruct (Nat.eqb_spec q p); simpl; congruence.
Qed.

Lemma lookup_remove_ai q p l :
  lookup_ai q (remove_ai p l) = if Nat.eqb q p then None else lookup_ai q l.
Proof.
  unfold lookup_ai, remove_ai. induction l as [|a l IH]; simpl.
  - destruct (Nat.eqb q p); reflexivity.
  - rewrite filter_cons. destruct (decide (ai_ptr a ≠ p)) as [Hne|He]; simpl.
    + destruct (Nat.eqb_spec (ai_ptr a) q); [|apply IH].
      destruct (Nat.eqb_spec q p); congruence.
    + rewrite IH. destruct (Nat.eqb_spec q p); [reflexivity|].
      destruct (Nat.eqb_spec (ai_ptr a) q); [|reflexivity].
      exfalso. apply He. congruence.
Qed.

Lemma lookup_ai_fresh q n l :
  Forall (fun a => (ai_ptr a < n)%nat) l -> (n <= q)%nat -> lookup_ai q l = None.
Proof.
  intros Hl Hq. unfold lookup_ai. induction Hl; simpl; [reflexivity|].
  destruct (Nat.eqb (ai_ptr x) q) eqn:E; [|assumption].
  apply Nat.eqb_eq in E. lia.
Qed.

Lemma lookup_ai_ptr q l a : lookup_ai q l = Some a -> ai_ptr a = q.
Proof.
  unfold lookup_ai. intros H. apply find_some in H as [_ H].
  apply Nat.eqb_eq in H. exact H.
Qed.

Lemma lookup_ai_In q l a : lookup_ai q l = Some a -> In a l.
Proof. unfold lookup_ai. intros H. apply find_some in H as [H _]. exact H. Qed.

Lemma find_ai_iter_In a0 s0 l a : find_ai_iter a0 s0 l = Found a -> In a l.
Proof.
  induction l as [|x l IH]; simpl; [discriminate|].
  destruct (negb _); [intros; right; auto|].
  destruct (_ && _); [intros [= ->]; left; reflexivity|].
  destruct (_ || _); [intros; right; auto|discriminate].
Qed.

Lemma find_ai_iter_session a0 s0 l a : find_ai_iter a0 s0 l = Found a -> session a = s0.
Proof.
  induction l as [|x l IH]; simpl; [discriminate|].
  destruct (negb _); [auto|].
  destruct (address_cmp_eq a0 (ai_address x) && bool_decide (s0 = session x)) eqn:E.
  - intros [= ->]. apply andb_prop in E as [_ E]. apply bool_decide_eq_true in E. auto.
  - destruct (_ || _); [auto|discriminate].
Qed.

Lemma find_ai_no_session_iter_In a0 l a :
  find_ai_no_session_iter a0 l = Some a -> In a l.
Proof.
  induction l as [|x l IH]; simpl; [discriminate|].
  destruct (_ && _); [intros [= ->]; left; reflexivity|intros; right; auto].
Qed.


Lemma lookup_ai_cons q a l :
  lookup_ai q (a :: l) = if Nat.eqb (ai_ptr a) q then Some a else lookup_ai q l.
Proof. reflexivity. Qed.

Lemma update_ai_cons p f x l :
  update_ai p f (x :: l) = (if Nat.eqb (ai_ptr x) p then f x else x) :: update_ai p f l.
Proof. reflexivity. Qed.

Lemma remove_ai_cons p x l :
  remove_ai p (x :: l) = if Nat.eqb (ai_ptr x) p then remove_ai p l else x :: remove_ai p l.
Proof.
  unfold remove_ai. rewrite filter_cons.
  destruct (Nat.eqb_spec (ai_ptr x) p); destruct (decide (ai_ptr x ≠ p));
    try reflexivity; exfalso; auto.
Qed.

Lemma update_ai_fresh p f l : ~ In p (map ai_ptr l) -> update_ai p f l = l.
Proof.
  induction l as [|x l IH]; [reflexivity|]. rewrite update_ai_cons. cbn [map In].
  intros H. destruct (Nat.eqb_spec (ai_ptr x) p); [exfalso; auto|].
  f_equal. apply IH. tauto.
Qed.

Lemma remove_ai_fresh p l : ~ In p (map ai_ptr l) -> remove_ai p l = l.
Proof.
  induction l as [|x l IH]; [reflexivity|]. rewrite remove_ai_cons. cbn [map In].
  intros H. destruct (Nat.eqb_spec (ai_ptr x) p); [exfalso; auto|].
  f_equal. apply IH. tauto.
Qed.

Lemma address_cmp_eq_refl a : address_cmp_eq a a = true.
Proof. unfold address_cmp_eq. rewrite !bool_decide_eq_true_2; reflexivity. Qed.

Lemma STD_BACKOFF_bounds r :
  0 <= r <= Time.STD_EXPONENTIAL_BACKOFF_THRESHOLD ->
  r <= Time.STD_BACKOFF r <= Time.STD_EXPONENTIAL_BACKOFF_THRESHOLD.
Proof.
  unfold Time.STD_BACKOFF.
  change Time.STD_EXPONENTIAL_BACKOFF_THRESHOLD with 900000000.
  change Time.UNIT_MILLISECONDS with 1000.
  intros [H0 H1]. unfold Time.relative_multiply. change Time.FOREVER with 18446744073709551615.
  change (2 =? 0) with false. cbv iota.
  destruct (Z.eqb_spec (Z.max 1000 r) 18446744073709551615); [lia|].
  destruct (Z.gtb_spec (Z.max 1000 r * 2) 18446744073709551615); lia.
Qed.

Ltac keeps_ptr_tac := let a := fresh in intros a; destruct a; reflexivity.

(** Taking apart a call that returned. *)
Ltac split_done H :=
  unfold ats_address_add in H; cbv beta iota zeta in H;
  repeat match type of H with
  | match ?x with _ => _ end = _ =>
      let E := fresh "E" in destruct x eqn:E; try discriminate H
  | (let '(_, _) := ?x in _) = _ =>
      let E := fresh "E" in destruct x eqn:E
  | Done _ = Done _ => injection H as H
  | Abort _ = Abort _ => injection H as H
  | context [match ?x with _ => _ end] =>
      let E := fresh "E" in destruct x eqn:E; try discriminate H
  end.

Ltac simp_state :=
  cbn [p2a num_blocked next_ai next_ar events stat_given stat_blocked
       Ats.modify set_p2a set_num_blocked Ats.log publish_p2a_stat_update
       ats_address_add fst snd state_of] in *.

Ltac fuse := rewrite ?update_ai_compose by keeps_ptr_tac.



Ltac crunch :=
  repeat (simp_state;
          cbn [find_ai_iter find_ai_no_session_iter ai_address ai_ptr session ar
               unblock_task expired set_session set_ar set_expired set_unblock_task
               set_back_off set_blocked negb andb orb peer];
          rewrite ?update_ai_cons, ?remove_ai_cons, ?lookup_ai_cons, ?Nat.eqb_refl,
                  ?Z.eqb_refl, ?address_cmp_eq_refl;
          rewrite ?bool_decide_eq_true_2 by reflexivity).

Ltac count_frees Hfresh :=
  unfold times_freed in *; simp_state;
  cbn [List.filter is_free_of length]; rewrite ?Nat.eqb_refl;
  cbn [List.filter is_free_of length]; rewrite ?Hfresh; reflexivity.

Section AtsInvariants.
Variable now_empty : nat -> nat -> bool.

(** Every list-wide property that each setter composite respects survives
    [GST_ats_expire_address]. *)
Lemma expire_address_Forall (P : AddressInfo -> Prop) address0 st st' :
  (forall a, P a -> P (set_unblock_task None a)) ->
  (forall a, P a -> P (set_expired true a)) ->
  (forall a, P a -> P (set_ar None a)) ->
  Forall P (p2a st) ->
  GST_ats_expire_address address0 st = Done st' ->
  Forall P (p2a st').
Proof.
  intros H1 H2 H3 HP H. unfold GST_ats_expire_address in H.
  split_done H; subst st'; simp_state;
    repeat first [ apply Forall_update_ai; [auto|] | apply Forall_remove_ai ]; auto.
Qed.

Lemma never_both_step c st st' :
  Forall never_both (p2a st) ->
  step now_empty c st = Done st' ->
  Forall never_both (p2a st').
Proof.
  intros HP H.
  assert (Hs : forall f, (forall a, never_both a -> never_both (f a)) ->
               forall p l, Forall never_both l -> Forall never_both (update_ai p f l))
    by (intros; apply Forall_update_ai; auto).
  destruct c; cbn [step] in H.
  - unfold GST_ats_add_address in H. split_done H; subst st'; simp_state; auto.
    constructor; auto. unfold never_both; simpl. intuition congruence.
  - unfold GST_ats_add_inbound_address in H. split_done H; subst st'; simp_state; auto;
      (constructor; auto; unfold never_both; simpl; intuition congruence).
  - unfold GST_ats_new_session in H. split_done H; subst st'; simp_state; auto;
      apply Hs; auto; intros []; unfold never_both; simpl; auto.
  - unfold GST_ats_del_session in H. split_done H; try subst st'; simp_state; auto;
      try (apply Hs; auto; intros []; unfold never_both; simpl; auto; fail);
      (eapply expire_address_Forall; [| | | |exact H]; simp_state; fuse;
       try (apply Hs; auto);
       intros []; unfold never_both; simpl; intuition congruence).
  - unfold GST_ats_block_address in H.
    split_done H; subst st'; simp_state; auto; fuse;
      apply Hs; auto; intros []; unfold never_both; simpl; intuition congruence.
  - unfold GST_ats_block_reset in H. split_done H; subst st'; simp_state; auto;
      apply Hs; auto; intros []; unfold never_both; simpl; auto.
  - eapply expire_address_Forall; [| | | |exact H]; auto;
      intros []; unfold never_both; simpl; intuition congruence.
  - unfold unblock_address in H. split_done H; subst st'; simp_state; auto.
    fuse.
    apply Hs; auto; intros []; unfold never_both; simpl; intuition congruence.
Qed.

Lemma wf_ai_mono n m a : (n <= m)%nat -> wf_ai n a -> wf_ai m a.
Proof. unfold wf_ai. intros ? [? ?]. split; [lia|assumption]. Qed.

Lemma wf_event_mono n m e : (n <= m)%nat -> wf_event n e -> wf_event m e.
Proof. destruct e; simpl; auto. lia. Qed.

Lemma wf_init : wf init_state.
Proof. split; constructor. Qed.

Lemma expire_address_wf address0 st st' :
  wf st -> GST_ats_expire_address address0 st = Done st' ->
  wf st' /\ next_ai st' = next_ai st.
Proof.
  intros [Ha He] H. unfold GST_ats_expire_address in H.
  split_done H; subst st'; simp_state; (split; [split|reflexivity]); simp_state;
    repeat first [ apply Forall_update_ai; [intros [] [? ?]; split; assumption|]
                 | apply Forall_remove_ai
                 | apply Forall_cons; split; [simpl; auto|] ];
    auto;
    apply find_ai_no_session_iter_In, list_elem_of_In in E;
    (rewrite Forall_forall in Ha; apply Ha in E; apply E).
Qed.

Lemma wf_step c st st' :
  wf st -> step now_empty c st = Done st' ->
  wf st' /\ (next_ai st <= next_ai st')%nat.
Proof.
  intros Hwf H.
  assert (Hu : forall n f, (forall a, wf_ai n a -> wf_ai n (f a)) ->
               forall p l, Forall (wf_ai n) l -> Forall (wf_ai n) (update_ai p f l))
    by (intros; apply Forall_update_ai; auto).
  destruct c; cbn [step] in H.
  - unfold GST_ats_add_address in H. destruct Hwf as [Ha He].
    split_done H; subst st'; simp_state; (split; [split|]); simp_state; auto;
      try (constructor; [split; simpl; [lia|cbv; split; congruence]|]);
      try (eapply Forall_impl; [eassumption|intros; eapply wf_ai_mono; [|eassumption]; lia]);
      try (constructor; [exact I|]);
      try (eapply Forall_impl; [eassumption|intros; eapply wf_event_mono; [|eassumption]; lia]).
  - unfold GST_ats_add_inbound_address in H. destruct Hwf as [Ha He].
    split_done H; subst st'; simp_state; (split; [split|]); simp_state; auto;
      try (constructor; [split; simpl; [lia|cbv; split; congruence]|]);
      try (eapply Forall_impl; [eassumption|intros; eapply wf_ai_mono; [|eassumption]; lia]);
      repeat (constructor; [exact I|]);
      try (eapply Forall_impl; [eassumption|intros; eapply wf_event_mono; [|eassumption]; lia]).
  - unfold GST_ats_new_session in H. destruct Hwf as [Ha He].
    split_done H; subst st'; simp_state; (split; [split|]); simp_state; auto;
      try (apply Hu; auto; intros [] [? ?]; split; assumption);
      repeat (constructor; [exact I|]); auto.
  - unfold GST_ats_del_session in H.
    split_done H; try subst st'; simp_state; auto;
      try (destruct Hwf as [Ha He]; (split; [split|]); simp_state; auto;
           try (apply Hu; auto; intros [] [? ?]; split; assumption);
           repeat (constructor; [exact I|]); auto; fail);
      (apply expire_address_wf in H;
       [destruct H as [H Hn]; split; [exact H|rewrite Hn; simp_state; lia]|]);
      destruct Hwf as [Ha He]; split; simp_state; fuse;
      try (apply Hu; auto; intros [] [? ?]; split; assumption);
      repeat (constructor; [exact I|]); auto.
  - unfold GST_ats_block_address in H. destruct Hwf as [Ha He].
    split_done H; subst st'; simp_state; (split; [split|]); simp_state; auto; fuse;
      try (apply Hu; auto; intros [] [? ?]; split; [assumption|]; simpl in *;
           pose proof (STD_BACKOFF_bounds back_off0); lia);
      repeat (constructor; [exact I|]); auto.
  - unfold GST_ats_block_reset in H. destruct Hwf as [Ha He].
    split_done H; subst st'; simp_state; (split; [split|]); simp_state; auto;
      try (apply Hu; auto; intros [] [? ?]; split; [assumption|]; simpl; cbv; split; congruence);
      repeat (constructor; [exact I|]); auto.
  - apply expire_address_wf in H; [|assumption]. destruct H as [H Hn]. split; [exact H|lia].
  - unfold unblock_address in H. destruct Hwf as [Ha He].
    split_done H; subst st'; simp_state; (split; [split|]); simp_state; auto; fuse;
      try (apply Hu; auto; intros [] [? ?]; split; assumption);
      repeat (constructor; [exact I|]); auto.
Qed.

Lemma wf_run cs : forall st st',
  wf st -> run now_empty cs st = Done st' -> wf st' /\ (next_ai st <= next_ai st')%nat.
Proof.
  induction cs as [|c cs IH]; simpl; intros st st' Hwf H.
  - injection H as <-. split; [assumption|lia].
  - destruct (step now_empty c st) as [st1|st1] eqn:E; [|discriminate].
    apply wf_step in E as [Hwf1 Hn1]; [|assumption].
    apply IH in H as [? ?]; [|assumption]. split; [assumption|lia].
Qed.

(** Taking a lookup in the new map back to the old one. *)
Ltac back_lookup Hl :=
  repeat first
    [ rewrite lookup_update_ai in Hl by keeps_ptr_tac
    | rewrite lookup_remove_ai in Hl
    | rewrite lookup_ai_cons in Hl
    | match type of Hl with
      | (_ <$> _) = Some _ =>
          let a := fresh "a" in let E := fresh "E" in
          apply fmap_Some in Hl as (a & Hl & E)
      | (if ?b then _ else _) = Some _ =>
          let E := fresh "E" in destruct b eqn:E; [try discriminate Hl|]
      end ].

Lemma expire_address_back_off address0 st st' q a' :
  GST_ats_expire_address address0 st = Done st' ->
  lookup_ai q (p2a st') = Some a' ->
  exists a, lookup_ai q (p2a st) = Some a /\ back_off a = back_off a'.
Proof.
  intros H Hl. unfold GST_ats_expire_address in H.
  split_done H; subst st'; simp_state; fuse; back_lookup Hl;
    eexists; (split; [eassumption|]); subst;
    repeat match goal with |- context [if ?b then _ else _] => destruct b end;
    reflexivity.
Qed.


Lemma run_app cs1 : forall cs2 st st1,
  run now_empty cs1 st = Done st1 ->
  run now_empty (cs1 ++ cs2) st = run now_empty cs2 st1.
Proof.
  induction cs1 as [|c cs1 IH]; simpl; intros cs2 st st1 H.
  - injection H as <-. reflexivity.
  - destruct (step now_empty c st); [|discriminate]. apply IH. assumption.
Qed.



Lemma In_lookup_ai a l : In a l -> exists a0, lookup_ai (ai_ptr a) l = Some a0.
Proof.
  induction l as [|x l IH]; cbn [In]; [contradiction|]. intros [->|H].
  - rewrite lookup_ai_cons, Nat.eqb_refl. eauto.
  - rewrite lookup_ai_cons. destruct (Nat.eqb _ _); eauto.
Qed.

Lemma times_freed_log p e st :
  times_freed p (Ats.log e st) = ((if is_free_of p e then 1 else 0) + times_freed p st)%nat.
Proof. unfold times_freed. simpl. destruct (is_free_of p e); reflexivity. Qed.

Lemma times_freed_fresh st : wf st -> times_freed (next_ai st) st = 0%nat.
Proof.
  intros [_ He]. unfold times_freed. induction He as [|e l He Hl IH]; simpl; [reflexivity|].
  destruct e; simpl; try assumption.
  simpl in He. destruct (Nat.eqb_spec ai (next_ai st)); [lia|assumption].
Qed.

(** [GST_ats_expire_address] frees nothing but the record it finds. *)
Lemma expire_address_times_freed address0 st p :
  lookup_ai p (p2a st) = None ->
  times_freed p (state_of (GST_ats_expire_address address0 st)) = times_freed p st.
Proof.
  intros Hp. unfold GST_ats_expire_address.
  destruct (find_ai_no_session address0 st) as [a|] eqn:E; [|reflexivity].
  apply find_ai_no_session_iter_In, In_lookup_ai in E as [a0 E].
  assert (Hne : Nat.eqb (ai_ptr a) p = false).
  { destruct (Nat.eqb_spec (ai_ptr a) p); [|reflexivity]. congruence. }
  destruct (unblock_task a), (session a), (ar a); simp_state;
    rewrite ?times_freed_log; cbn [is_free_of]; rewrite ?Hne; reflexivity.
Qed.

Lemma expire_address_lookup_none address0 st p :
  lookup_ai p (p2a st) = None ->
  lookup_ai p (p2a (state_of (GST_ats_expire_address address0 st))) = None.
Proof.
  intros Hp. destruct (GST_ats_expire_address address0 st) as [st'|st'] eqn:E.
  - destruct (lookup_ai p (p2a (state_of (Done st')))) as [a'|] eqn:El; [|reflexivity].
    destruct (expire_address_back_off _ _ _ _ _ E El) as (a & Ha & _). congruence.
  - unfold GST_ats_expire_address in E. split_done E. subst. assumption.
Qed.

(** C4, as the code has it.  From a record made by
    [GST_ats_add_inbound_address] in any state the calls reach, with [p] the
    address of the record.  Expiring the address first only marks the record
    expired (it stays in the map, nothing is freed) and the session's
    departure then frees it.  With the session leaving first, what happens
    depends on the answer of the scoring subsystem: if it does not report
    the record empty, [GST_ats_del_session] only detaches the session and
    [GST_ats_expire_address] then frees the record; if it does,
    [GST_ats_del_session] itself frees the record, and a later
    [GST_ats_expire_address] completes nothing: with no other record of the
    address in the map it stops at its assertion.  In every case the record
    is handed to [GNUNET_free] exactly once. *)
Theorem expire_and_del_session_free_once
    (pre : list call) (st0 : state) (pr : Z) (name : string) (bytes : list Z)
    (s : nat) (prop : ATS_Properties) :
  let a := {| peer := pr; transport_name := Some name; address := bytes;
              inbound := true |} in
  let p := next_ai st0 in
  run now_empty pre init_state = Done st0 ->
  find_ai a (Some s) st0 = Missing ->
  exists st1,
    GST_ats_add_inbound_address a (Some s) prop st0 = Done st1 /\
    (exists st2 st3 r,
        GST_ats_expire_address a st1 = Done st2 /\
        lookup_ai p (p2a st2) = Some r /\ expired r = true /\ session r = Some s /\
        times_freed p st2 = 0%nat /\
        GST_ats_del_session now_empty a (Some s) st2 = Done st3 /\
        lookup_ai p (p2a st3) = None /\ times_freed p st3 = 1%nat) /\
    (exists st2,
        GST_ats_del_session now_empty a (Some s) st1 = Done st2 /\
        if now_empty (next_ar st0) s
        then lookup_ai p (p2a st2) = None /\ times_freed p st2 = 1%nat /\
             (find_ai_no_session a st0 = None ->
              GST_ats_expire_address a st2 = Abort st2) /\
             times_freed p (state_of (GST_ats_expire_address a st2)) = 1%nat
        else exists r st3,
             lookup_ai p (p2a st2) = Some r /\ session r = None /\
             times_freed p st2 = 0%nat /\
             GST_ats_expire_address a st2 = Done st3 /\
             lookup_ai p (p2a st3) = None /\ times_freed p st3 = 1%nat).
Proof.
  intros a p Hpre Hmiss.
  destruct (wf_run _ _ _ wf_init Hpre) as [Hwf _].
  pose proof (times_freed_fresh _ Hwf) as Hfresh. fold p in Hfresh.
  assert (Hnew : ~ In p (map ai_ptr (p2a st0))).
  { destruct Hwf as [Ha _]. intros Hin. apply in_map_iff in Hin as (x & Hx & Hin).
    apply list_elem_of_In in Hin. rewrite Forall_forall in Ha. apply Ha in Hin.
    destruct Hin as [Hlt _]. unfold p in Hx. lia. }
  assert (Hgone : forall f, lookup_ai p (remove_ai p (update_ai p f (p2a st0))) = None).
  { intros f. rewrite lookup_remove_ai, Nat.eqb_refl. reflexivity. }
  unfold GST_ats_add_inbound_address. cbn [transport_name check_option_inbound inbound negb a].
  fold a. rewrite Hmiss. unfold ats_address_add. cbv beta iota zeta.
  set (st0' := if scope prop =? GNUNET_ATS_NET_UNSPECIFIED
               then Ats.log EvBreak st0 else st0).
  assert (H0 : p2a st0' = p2a st0 /\ next_ai st0' = p /\ next_ar st0' = next_ar st0 /\
               num_blocked st0' = num_blocked st0 /\
               List.filter (is_free_of p) (events st0') = []).
  { unfold times_freed in Hfresh. apply length_zero_iff_nil in Hfresh.
    subst st0'. destruct (scope prop =? GNUNET_ATS_NET_UNSPECIFIED); simp_state;
      cbn [List.filter is_free_of]; auto. }
  destruct H0 as (Hp2a & Hai & Har & Hnb & Hfree).
  clearbody st0'. simp_state. rewrite Hp2a, Hai, Har.
  assert (Hfresh' : length (List.filter (is_free_of p) (events st0')) = 0%nat)
    by (rewrite Hfree; reflexivity).
  clear Hfresh.
  eexists. split; [reflexivity|]. split.
  - unfold GST_ats_expire_address at 1, find_ai_no_session. crunch.
    eexists _, _, _. split; [reflexivity|]. crunch.
    split; [reflexivity|]. split; [reflexivity|]. split; [reflexivity|].
    split; [count_frees Hfresh'|].
    unfold GST_ats_del_session, find_ai. crunch.
    unfold GST_ats_expire_address, find_ai_no_session. crunch.
    split; [reflexivity|]. crunch. split.
    + rewrite lookup_remove_ai, Nat.eqb_refl. reflexivity.
    + count_frees Hfresh'.
  - unfold GST_ats_del_session, find_ai. crunch.
    destruct (now_empty (next_ar st0) s) eqn:Hne.
    + unfold GST_ats_expire_address at 1, find_ai_no_session. crunch.
      eexists. split; [reflexivity|]. crunch.
      assert (Hl : lookup_ai p (remove_ai p
                     (update_ai p (set_ar None) (update_ai p (set_session None) (p2a st0))))
                   = None).
      { rewrite update_ai_compose by keeps_ptr_tac. apply Hgone. }
      split; [rewrite lookup_remove_ai, Nat.eqb_refl; reflexivity|].
      split; [count_frees Hfresh'|]. split.
      * intros Hnone. unfold GST_ats_expire_address, find_ai_no_session. crunch.
        rewrite (update_ai_fresh p (set_session None) _ Hnew),
                (update_ai_fresh p (set_ar None) _ Hnew), (remove_ai_fresh p _ Hnew).
        unfold find_ai_no_session in Hnone. rewrite Hnone. reflexivity.
      * rewrite expire_address_times_freed.
        -- count_frees Hfresh'.
        -- crunch. rewrite lookup_remove_ai, Nat.eqb_refl. reflexivity.
    + eexists. split; [reflexivity|]. eexists _, _. crunch.
      split; [reflexivity|]. split; [reflexivity|].
      split; [count_frees Hfresh'|].
      unfold GST_ats_expire_address, find_ai_no_session. crunch.
      split; [reflexivity|]. crunch. split.
      * rewrite lookup_remove_ai, Nat.eqb_refl. reflexivity.
      * count_frees Hfresh'.
Qed.


(** *** Every record is in the map or freed once *)

Lemma live_cons q a l :
  live q (a :: l) = if Nat.eqb (ai_ptr a) q then 1%nat else live q l.
Proof. unfold live. rewrite lookup_ai_cons. destruct (Nat.eqb _ _); reflexivity. Qed.

Lemma live_update_ai q p f l : keeps_ptr f -> live q (update_ai p f l) = live q l.
Proof.
  intros Hf. unfold live. rewrite lookup_update_ai by exact Hf.
  destruct (lookup_ai q l); reflexivity.
Qed.

Lemma live_remove_ai q p l :
  live q (remove_ai p l) = if Nat.eqb q p then 0%nat else live q l.
Proof. unfold live. rewrite lookup_remove_ai. destruct (Nat.eqb q p); reflexivity. Qed.

Lemma live_In a l : In a l -> live (ai_ptr a) l = 1%nat.
Proof. intros H. apply In_lookup_ai in H as [a0 H]. unfold live. rewrite H. reflexivity. Qed.

Lemma accounted_init : accounted init_state.
Proof. split; [reflexivity|]. intros q. cbn. case_bool_decide; [lia|reflexivity]. Qed.

Ltac acct :=
  unfold times_freed in *; simp_state; fuse;
  cbn [List.filter is_free_of length];
  rewrite ?live_update_ai by keeps_ptr_tac.

(** A state that differs in fields of records, in the counters and in
    events other than [EvFree]. *)
Ltac acct_same Hacc :=
  let H1 := fresh in let Hq := fresh in
  destruct Hacc as [H1 Hq]; split; [simp_state; exact H1|];
  let q := fresh "q" in intros q; specialize (Hq q); acct; exact Hq.

Ltac acct_new Hacc :=
  let H1 := fresh in let Hq := fresh in
  destruct Hacc as [H1 Hq]; split; [simp_state; lia|];
  let q := fresh "q" in intros q; specialize (Hq q); acct;
  rewrite live_cons; cbn [ai_ptr];
  match goal with |- context [Nat.eqb ?n q] => destruct (Nat.eqb_spec n q) end;
  repeat case_bool_decide; lia.

Lemma expire_address_accounted address0 st st' :
  accounted st -> GST_ats_expire_address address0 st = Done st' -> accounted st'.
Proof.
  intros Hacc H. unfold GST_ats_expire_address in H.
  destruct (find_ai_no_session address0 st) as [a|] eqn:E; [|discriminate].
  apply find_ai_no_session_iter_In, live_In in E.
  destruct (unblock_task a), (session a), (ar a); injection H as <-;
    try (acct_same Hacc);
    (destruct Hacc as [H1 Hq]; split; [simp_state; exact H1|];
     intros q; specialize (Hq q); acct; rewrite live_remove_ai, (Nat.eqb_sym q);
     rewrite ?live_update_ai by keeps_ptr_tac;
     destruct (Nat.eqb_spec (ai_ptr a) q) as [<-|Hne]; cbn [length];
     [rewrite E in Hq; repeat case_bool_decide; lia|exact Hq]).
Qed.

Lemma accounted_step c st st' :
  accounted st -> step now_empty c st = Done st' -> accounted st'.
Proof.
  intros Hacc H. destruct c; cbn [step] in H.
  - unfold GST_ats_add_address in H. split_done H; subst st';
      first [acct_same Hacc | acct_new Hacc].
  - unfold GST_ats_add_inbound_address in H. split_done H; subst st';
      first [acct_same Hacc | acct_new Hacc].
  - unfold GST_ats_new_session in H. split_done H; subst st'; acct_same Hacc.
  - unfold GST_ats_del_session in H. split_done H; try subst st';
      try (acct_same Hacc);
      (eapply expire_address_accounted; [|exact H]; acct_same Hacc).
  - unfold GST_ats_block_address in H. split_done H; subst st'; acct_same Hacc.
  - unfold GST_ats_block_reset in H. split_done H; subst st'; acct_same Hacc.
  - eapply expire_address_accounted; eassumption.
  - unfold unblock_address in H. split_done H; subst st'; acct_same Hacc.
Qed.

Lemma accounted_run cs : forall st st',
  accounted st -> run now_empty cs st = Done st' -> accounted st'.
Proof.
  induction cs as [|c cs IH]; simpl; intros st st' Hacc H.
  - injection H as <-. exact Hacc.
  - destruct (step now_empty c st) as [st1|] eqn:E; [|discriminate].
    eapply IH; [|exact H]. eapply accounted_step; eassumption.
Qed.

(** X1. In every state the calls reach, each address the allocator has
    handed out so far is that of a record in the map and was never freed,
    or is not in the map and was freed exactly once; no other address is in
    the map or was freed. *)
Theorem record_in_map_or_freed_once (cs : list call) (st : state) (q : nat) :
  run now_empty cs init_state = Done st ->
  (times_freed q st + live q (p2a st))%nat
  = if bool_decide (1 <= q < next_ai st)%nat then 1%nat else 0%nat.
Proof. intros H. eapply accounted_run in H; [apply H|apply accounted_init]. Qed.

(** *** The counter of blocked addresses *)

Lemma NoDup_cons_In {A} (x : A) (l : list A) :
  NoDup (x :: l) <-> ~ In x l /\ NoDup l.
Proof. rewrite NoDup_cons, list_elem_of_In. reflexivity. Qed.

Lemma map_ptr_update_ai p f l :
  keeps_ptr f -> map ai_ptr (update_ai p f l) = map ai_ptr l.
Proof.
  intros Hf. unfold update_ai. rewrite map_map. apply map_ext. intros a.
  destruct (Nat.eqb _ _); [apply Hf|reflexivity].
Qed.

Lemma In_remove_ai a p l : In a (remove_ai p l) -> In a l.
Proof.
  unfold remove_ai. intros H. apply list_elem_of_In, list_elem_of_filter in H as [_ H].
  apply list_elem_of_In. exact H.
Qed.

Lemma remove_ai_In a p l : In a l -> ai_ptr a <> p -> In a (remove_ai p l).
Proof.
  intros H Hne. unfold remove_ai. apply list_elem_of_In, list_elem_of_filter.
  split; [exact Hne|apply list_elem_of_In; exact H].
Qed.

Lemma remove_ai_ptr a p l : In a (remove_ai p l) -> ai_ptr a <> p.
Proof.
  unfold remove_ai. intros H. apply list_elem_of_In, list_elem_of_filter in H as [H _].
  exact H.
Qed.

Lemma NoDup_remove_ai p l :
  NoDup (map ai_ptr l) -> NoDup (map ai_ptr (remove_ai p l)).
Proof.
  induction l as [|x l IH]; [intros; constructor|].
  rewrite remove_ai_cons. cbn [map]. intros H.
  apply NoDup_cons_In in H as [Hn Hd].
  destruct (Nat.eqb _ _); [auto|]. cbn [map]. apply NoDup_cons_In.
  split; [|auto]. intros Hin. apply Hn.
  apply in_map_iff in Hin as (y & Hy & Hin). apply in_map_iff.
  exists y. split; [exact Hy|]. eapply In_remove_ai. exact Hin.
Qed.

Lemma lookup_ai_NoDup a l :
  NoDup (map ai_ptr l) -> In a l -> lookup_ai (ai_ptr a) l = Some a.
Proof.
  induction l as [|x l IH]; cbn [In map]; [contradiction|].
  intros Hnd Hin. rewrite lookup_ai_cons.
  apply NoDup_cons_In in Hnd as [Hn Hd]. destruct Hin as [->|Hin].
  - rewrite Nat.eqb_refl. reflexivity.
  - destruct (Nat.eqb_spec (ai_ptr x) (ai_ptr a)) as [e|]; [|auto].
    exfalso. apply Hn. rewrite e. apply in_map. exact Hin.
Qed.

Lemma lookup_ai_Some_In_ptr p a l : lookup_ai p l = Some a -> In p (map ai_ptr l).
Proof.
  intros H. pose proof (lookup_ai_ptr _ _ _ H) as <-.
  apply in_map. eapply lookup_ai_In. exact H.
Qed.

Lemma count_blocked_cons x l :
  count_blocked (x :: l) = (Nat.b2n (is_blocked x) + count_blocked l)%nat.
Proof. unfold count_blocked. cbn [List.filter]. destruct (is_blocked x); reflexivity. Qed.

Lemma count_blocked_update_ai p f a l :
  keeps_ptr f -> NoDup (map ai_ptr l) -> lookup_ai p l = Some a ->
  (count_blocked (update_ai p f l) + Nat.b2n (is_blocked a)
   = count_blocked l + Nat.b2n (is_blocked (f a)))%nat.
Proof.
  intros Hf. induction l as [|x l IH]; [discriminate|]. cbn [map]. intros Hnd.
  apply NoDup_cons_In in Hnd as [Hn Hd]. rewrite lookup_ai_cons, update_ai_cons.
  destruct (Nat.eqb_spec (ai_ptr x) p) as [e|ne].
  - intros [= ->]. rewrite update_ai_fresh by (rewrite <- e; exact Hn).
    rewrite !count_blocked_cons. lia.
  - intros Hl. rewrite !count_blocked_cons. specialize (IH Hd Hl). lia.
Qed.

Lemma count_blocked_remove_ai p a l :
  NoDup (map ai_ptr l) -> lookup_ai p l = Some a ->
  (count_blocked (remove_ai p l) + Nat.b2n (is_blocked a) = count_blocked l)%nat.
Proof.
  induction l as [|x l IH]; [discriminate|]. cbn [map]. intros Hnd.
  apply NoDup_cons_In in Hnd as [Hn Hd]. rewrite lookup_ai_cons, remove_ai_cons.
  destruct (Nat.eqb_spec (ai_ptr x) p) as [e|ne].
  - intros [= ->]. rewrite remove_ai_fresh by (rewrite <- e; exact Hn).
    rewrite !count_blocked_cons. lia.
  - intros Hl. rewrite !count_blocked_cons. specialize (IH Hd Hl). lia.
Qed.

Lemma uint_succ n m : n = uint (Z.of_nat m) -> uint (n + 1) = uint (Z.of_nat (S m)).
Proof. intros ->. unfold uint. rewrite Zplus_mod_idemp_l. f_equal. lia. Qed.

Lemma uint_pred n m : n = uint (Z.of_nat (S m)) -> uint (n - 1) = uint (Z.of_nat m).
Proof. intros ->. unfold uint. rewrite Zminus_mod_idemp_l. f_equal. lia. Qed.

(** [counted] on the map and the counter. *)
Lemma counted_same st p f :
  keeps_ptr f -> (forall a, is_blocked (f a) = is_blocked a) ->
  counted st -> counted (Ats.modify p f st).
Proof.
  intros Hf Hb [Hnd Hc]. unfold counted. simp_state. rewrite map_ptr_update_ai by exact Hf.
  split; [exact Hnd|]. rewrite Hc. do 2 f_equal.
  clear Hnd Hc. unfold update_ai. induction (p2a st) as [|x l IH]; [reflexivity|].
  cbn [map]. rewrite !count_blocked_cons, IH.
  destruct (Nat.eqb _ _); rewrite ?Hb; reflexivity.
Qed.

Lemma counted_block st p f a :
  keeps_ptr f -> lookup_ai p (p2a st) = Some a ->
  is_blocked a = false -> is_blocked (f a) = true ->
  counted st ->
  counted (set_num_blocked (uint (num_blocked st + 1)) (Ats.modify p f st)).
Proof.
  intros Hf Hl Ha Hfa [Hnd Hc]. unfold counted. simp_state.
  rewrite map_ptr_update_ai by exact Hf. split; [exact Hnd|].
  pose proof (count_blocked_update_ai p f a _ Hf Hnd Hl) as Hn.
  rewrite Ha, Hfa in Hn. cbn [Nat.b2n] in Hn.
  rewrite (uint_succ _ _ Hc). do 2 f_equal. lia.
Qed.

Lemma counted_unblock st p f a :
  keeps_ptr f -> lookup_ai p (p2a st) = Some a ->
  is_blocked a = true -> is_blocked (f a) = false ->
  counted st ->
  counted (set_num_blocked (uint (num_blocked st - 1)) (Ats.modify p f st)).
Proof.
  intros Hf Hl Ha Hfa [Hnd Hc]. unfold counted. simp_state.
  rewrite map_ptr_update_ai by exact Hf. split; [exact Hnd|].
  pose proof (count_blocked_update_ai p f a _ Hf Hnd Hl) as Hn.
  rewrite Ha, Hfa in Hn. cbn [Nat.b2n] in Hn.
  assert (Hs : count_blocked (p2a st) = S (count_blocked (update_ai p f (p2a st)))) by lia.
  rewrite Hs in Hc. exact (uint_pred _ _ Hc).
Qed.

Lemma counted_remove st p a :
  lookup_ai p (p2a st) = Some a -> is_blocked a = false ->
  counted st -> counted (set_p2a (remove_ai p (p2a st)) st).
Proof.
  intros Hl Ha [Hnd Hc]. unfold counted. simp_state.
  split; [apply NoDup_remove_ai; exact Hnd|].
  pose proof (count_blocked_remove_ai p a _ Hnd Hl) as Hn.
  rewrite Ha in Hn. cbn [Nat.b2n] in Hn. rewrite Hc. do 2 f_equal. lia.
Qed.

Lemma counted_frame st st' :
  p2a st' = p2a st -> num_blocked st' = num_blocked st -> counted st -> counted st'.
Proof. unfold counted. intros -> ->. auto. Qed.

Lemma counted_new st a st' :
  wf st -> p2a st' = a :: p2a st -> num_blocked st' = num_blocked st ->
  ai_ptr a = next_ai st -> is_blocked a = false ->
  counted st -> counted st'.
Proof.
  intros [Hwf _] Hl Hn Hp Ha [Hnd Hc]. unfold counted. rewrite Hl, Hn. cbn [map].
  split.
  - apply NoDup_cons_In. split; [|exact Hnd]. rewrite Hp. intros Hin.
    apply in_map_iff in Hin as (y & Hy & Hin). apply list_elem_of_In in Hin.
    rewrite Forall_forall in Hwf. apply Hwf in Hin. destruct Hin. lia.
  - rewrite count_blocked_cons, Ha. exact Hc.
Qed.

Lemma expire_address_counted address0 st st' :
  counted st -> GST_ats_expire_address address0 st = Done st' -> counted st'.
Proof.
  intros Hc H. unfold GST_ats_expire_address in H.
  destruct (find_ai_no_session address0 st) as [a|] eqn:E; [|discriminate].
  apply find_ai_no_session_iter_In in E.
  apply (lookup_ai_NoDup _ _ (proj1 Hc)) in E.
  set (st1 := match unblock_task a with
              | None => st
              | Some _ => set_num_blocked
                            (uint (num_blocked (Ats.modify (ai_ptr a) (set_unblock_task None) st) - 1))
                            (Ats.modify (ai_ptr a) (set_unblock_task None) st)
              end) in *.
  assert (H1 : counted st1 /\ exists a1, lookup_ai (ai_ptr a) (p2a st1) = Some a1
                                         /\ is_blocked a1 = false).
  { subst st1. destruct (unblock_task a) as [t|] eqn:Et.
    - split.
      + eapply (counted_unblock st); [keeps_ptr_tac|exact E| |reflexivity|exact Hc].
        unfold is_blocked. rewrite Et. reflexivity.
      + simp_state. rewrite lookup_update_ai by keeps_ptr_tac. rewrite E.
        cbn [fmap option_fmap option_map]. rewrite Nat.eqb_refl. eauto.
    - split; [exact Hc|]. exists a. split; [exact E|].
      unfold is_blocked. rewrite Et. reflexivity. }
  clearbody st1. destruct H1 as [Hc1 (a1 & Hl1 & Hb1)].
  destruct (session a).
  - destruct (ar a); injection H as <-.
    + apply counted_same; [keeps_ptr_tac|intros []; reflexivity|].
      eapply counted_frame; [| |apply (counted_same st1 (ai_ptr a) (set_expired true));
        [keeps_ptr_tac|intros []; reflexivity|exact Hc1]]; reflexivity.
    + apply counted_same; [keeps_ptr_tac|intros []; reflexivity|exact Hc1].
  - injection H as <-.
    eapply counted_frame; [| |apply (counted_remove st1 (ai_ptr a) a1 Hl1 Hb1 Hc1)];
      destruct (ar a); reflexivity.
Qed.

Lemma raw_same l n p f :
  keeps_ptr f -> (forall a, is_blocked (f a) = is_blocked a) ->
  NoDup (map ai_ptr l) /\ n = uint (Z.of_nat (count_blocked l)) ->
  NoDup (map ai_ptr (update_ai p f l))
  /\ n = uint (Z.of_nat (count_blocked (update_ai p f l))).
Proof.
  intros Hf Hb Hc.
  exact (counted_same {| p2a := l; num_blocked := n; stat_given := 0; stat_blocked := 0;
                         next_ai := 0; next_ar := 0; events := [] |} p f Hf Hb Hc).
Qed.

Lemma raw_block l n p f a :
  keeps_ptr f -> lookup_ai p l = Some a ->
  is_blocked a = false -> is_blocked (f a) = true ->
  NoDup (map ai_ptr l) /\ n = uint (Z.of_nat (count_blocked l)) ->
  NoDup (map ai_ptr (update_ai p f l))
  /\ uint (n + 1) = uint (Z.of_nat (count_blocked (update_ai p f l))).
Proof.
  intros Hf Hl Ha Hfa Hc.
  exact (counted_block {| p2a := l; num_blocked := n; stat_given := 0; stat_blocked := 0;
                          next_ai := 0; next_ar := 0; events := [] |} p f a Hf Hl Ha Hfa Hc).
Qed.

Lemma raw_unblock l n p f a :
  keeps_ptr f -> lookup_ai p l = Some a ->
  is_blocked a = true -> is_blocked (f a) = false ->
  NoDup (map ai_ptr l) /\ n = uint (Z.of_nat (count_blocked l)) ->
  NoDup (map ai_ptr (update_ai p f l))
  /\ uint (n - 1) = uint (Z.of_nat (count_blocked (update_ai p f l))).
Proof.
  intros Hf Hl Ha Hfa Hc.
  exact (counted_unblock {| p2a := l; num_blocked := n; stat_given := 0; stat_blocked := 0;
                            next_ai := 0; next_ar := 0; events := [] |} p f a Hf Hl Ha Hfa Hc).
Qed.

Lemma counted_step c st st' :
  wf st -> Forall never_both (p2a st) -> counted st ->
  step now_empty c st = Done st' -> counted st'.
Proof.
  intros Hwf Hnb Hc H.
  assert (Hfound : forall a0 s0 a, find_ai a0 s0 st = Found a ->
            lookup_ai (ai_ptr a) (p2a st) = Some a).
  { intros a0 s0 a E. apply lookup_ai_NoDup; [apply Hc|].
    eapply find_ai_iter_In. exact E. }
  assert (Hnever : forall a0 s0 a r, find_ai a0 s0 st = Found a -> ar a = Some r ->
            is_blocked a = false).
  { intros a0 s0 a r E Er. apply find_ai_iter_In, list_elem_of_In in E.
    rewrite Forall_forall in Hnb. apply Hnb in E. unfold never_both in E.
    unfold is_blocked. destruct (unblock_task a); [|reflexivity].
    exfalso. apply E. rewrite Er. split; discriminate. }
  destruct c; cbn [step] in H.
  - unfold GST_ats_add_address in H. split_done H; subst st';
      first [exact Hc|eapply counted_new; [exact Hwf| | | | |exact Hc]; reflexivity].
  - unfold GST_ats_add_inbound_address in H. split_done H; subst st';
      first [exact Hc|eapply counted_new; [exact Hwf| | | | |exact Hc]; reflexivity].
  - unfold GST_ats_new_session in H. split_done H; subst st'; try exact Hc;
      unfold counted in *; simp_state;
      (apply raw_same; [keeps_ptr_tac|intros []; reflexivity|exact Hc]).
  - unfold GST_ats_del_session in H. split_done H; try subst st'; try exact Hc;
      try (eapply expire_address_counted; [|exact H]);
      unfold counted in *; simp_state; fuse;
      (apply raw_same; [keeps_ptr_tac|intros []; reflexivity|exact Hc]).
  - unfold GST_ats_block_address in H. split_done H; subst st'; try exact Hc;
      unfold counted in *; simp_state; fuse;
      (eapply raw_block; [keeps_ptr_tac|eapply Hfound; eassumption
                         |eapply Hnever; eassumption| |exact Hc]);
      unfold is_blocked; simpl; reflexivity.
  - unfold GST_ats_block_reset in H. split_done H; subst st'; try exact Hc;
      unfold counted in *; simp_state;
      (apply raw_same; [keeps_ptr_tac|intros []; reflexivity|exact Hc]).
  - eapply expire_address_counted; eassumption.
  - unfold unblock_address in H. split_done H; subst st'; try exact Hc.
    unfold counted in *; simp_state; fuse.
    eapply raw_unblock; [keeps_ptr_tac|eassumption| | |exact Hc].
    + unfold is_blocked. match goal with E : unblock_task _ = Some _ |- _ => rewrite E end.
      reflexivity.
    + unfold is_blocked; simpl; reflexivity.
Qed.

Lemma counted_init : counted init_state.
Proof. split; [constructor|reflexivity]. Qed.

Lemma counted_run cs : forall st st',
  wf st -> Forall never_both (p2a st) -> counted st ->
  run now_empty cs st = Done st' -> counted st'.
Proof.
  induction cs as [|c cs IH]; simpl; intros st st' Hwf Hnb Hc H.
  - injection H as <-. exact Hc.
  - destruct (step now_empty c st) as [st1|] eqn:E; [|discriminate].
    eapply IH; [| | |exact H].
    + eapply wf_step; eassumption.
    + eapply never_both_step; eassumption.
    + eapply counted_step; eassumption.
Qed.

(** X2. In every state the calls reach no record is in the map twice, and
    [num_blocked] is the number of records that wait for their unblock
    task (as an unsigned int). *)
Theorem num_blocked_counts_blocked_records (cs : list call) (st : state) :
  run now_empty cs init_state = Done st ->
  NoDup (map ai_ptr (p2a st)) /\
  num_blocked st = Z.of_nat (count_blocked (p2a st)) mod 2 ^ 32.
Proof.
  intros H. eapply counted_run in H; [exact H|apply wf_init|constructor|apply counted_init].
Qed.

(** *** One handle at a time *)




















(** *** Shutdown *)

Lemma destroy_ai_inv p a st :
  counted st -> accounted st -> lookup_ai p (p2a st) = Some a ->
  exists st', destroy_ai p st = Done st' /\ counted st' /\ accounted st' /\
              p2a st' = remove_ai p (p2a st) /\ next_ai st' = next_ai st.
Proof.
  intros [Hnd Hc] [H1 Hq] Hl. unfold destroy_ai. rewrite Hl.
  eexists. split; [reflexivity|].
  pose proof (count_blocked_remove_ai p a _ Hnd Hl) as Hn.
  assert (Hlive : live p (p2a st) = 1%nat) by (unfold live; rewrite Hl; reflexivity).
  split; [|split; [|split]].
  - unfold counted, is_blocked in *.
    destruct (unblock_task a), (ar a); simp_state;
      (split; [apply NoDup_remove_ai; exact Hnd|]); cbn [Nat.b2n] in Hn.
    + apply uint_pred. rewrite Hc. do 2 f_equal. lia.
    + apply uint_pred. rewrite Hc. do 2 f_equal. lia.
    + rewrite Hc. do 2 f_equal. lia.
    + rewrite Hc. do 2 f_equal. lia.
  - split; [destruct (unblock_task a), (ar a); simp_state; exact H1|].
    intros q. specialize (Hq q).
    destruct (unblock_task a), (ar a); acct; rewrite live_remove_ai, (Nat.eqb_sym q);
      (destruct (Nat.eqb_spec p q) as [<-|Hne]; cbn [length];
       [rewrite Hlive in Hq; repeat case_bool_decide; lia|exact Hq]).
  - destruct (unblock_task a), (ar a); reflexivity.
  - destruct (unblock_task a), (ar a); reflexivity.
Qed.

Lemma In_ptr_lookup p l : In p (map ai_ptr l) -> exists a, lookup_ai p l = Some a.
Proof.
  intros H. apply in_map_iff in H as (a & e & H). subst p. apply In_lookup_ai. exact H.
Qed.

Lemma iterate_destroy_ai_inv ps : forall st,
  NoDup ps -> (forall p, In p ps -> In p (map ai_ptr (p2a st))) ->
  counted st -> accounted st ->
  exists st', iterate_destroy_ai ps st = Done st' /\ counted st' /\ accounted st' /\
              next_ai st' = next_ai st /\
              forall a, In a (p2a st') -> In a (p2a st) /\ ~ In (ai_ptr a) ps.
Proof.
  induction ps as [|p ps IH]; intros st Hnd Hin Hc Hacc; cbn [iterate_destroy_ai].
  - exists st. split; [reflexivity|]. split; [exact Hc|]. split; [exact Hacc|].
    split; [reflexivity|]. intros a Ha. split; [exact Ha|]. intros [].
  - apply NoDup_cons_In in Hnd as [Hp Hnd].
    destruct (In_ptr_lookup p (p2a st)) as [a Hl]; [apply Hin; left; reflexivity|].
    destruct (destroy_ai_inv p a st Hc Hacc Hl) as (st1 & -> & Hc1 & Hacc1 & Hp2a & Hn1).
    destruct (IH st1 Hnd) as (st' & Hrun & Hc' & Hacc' & Hn' & Hrest); [|exact Hc1|exact Hacc1|].
    + intros q Hq. rewrite Hp2a.
      assert (Hq' : In q (map ai_ptr (p2a st))) by (apply Hin; right; exact Hq).
      apply in_map_iff in Hq' as (x & Hxq & Hx). subst q. apply in_map.
      apply remove_ai_In; [exact Hx|]. intros e. rewrite e in Hq. contradiction.
    + exists st'. split; [exact Hrun|]. split; [exact Hc'|]. split; [exact Hacc'|].
      split; [congruence|]. intros x Hx. apply Hrest in Hx as [Hx Hnot].
      rewrite Hp2a in Hx. split; [eapply In_remove_ai; exact Hx|].
      cbn [In]. intros [e|e]; [|contradiction].
      apply remove_ai_ptr in Hx. congruence.
Qed.

(** X3. [GST_ats_done], called in any state the calls reach, returns: the
    iteration with [destroy_ai] empties the map, after it the counter of
    blocked addresses and both statistics are zero, and every record the
    module ever allocated has been handed to [GNUNET_free] exactly once, be
    it before or during the shutdown. *)
Theorem shutdown_frees_every_record (cs : list call) (st : state) :
  run now_empty cs init_state = Done st ->
  exists st1 st',
    iterate_destroy_ai (map ai_ptr (p2a st)) st = Done st1 /\ p2a st1 = [] /\
    GST_ats_done st = Done st' /\
    num_blocked st' = 0 /\ stat_given st' = 0 /\ stat_blocked st' = 0 /\
    forall q, times_freed q st'
              = if bool_decide (1 <= q < next_ai st)%nat then 1%nat else 0%nat.
Proof.
  intros H.
  assert (Hc : counted st).
  { eapply counted_run in H; [exact H|apply wf_init|constructor|apply counted_init]. }
  assert (Hacc : accounted st).
  { eapply accounted_run in H; [exact H|apply accounted_init]. }
  destruct (iterate_destroy_ai_inv (map ai_ptr (p2a st)) st (proj1 Hc) (fun _ Hp => Hp) Hc Hacc)
    as (st1 & Hrun & Hc1 & Hacc1 & Hn1 & Hrest).
  assert (Hnil : p2a st1 = []).
  { destruct (p2a st1) as [|x l] eqn:E; [reflexivity|]. exfalso.
    destruct (Hrest x (or_introl eq_refl)) as [Hx Hnot]. apply Hnot.
    apply in_map. exact Hx. }
  exists st1. eexists. split; [exact Hrun|]. split; [exact Hnil|].
  unfold GST_ats_done. rewrite Hrun. split; [reflexivity|].
  destruct Hc1 as [_ Hnum]. rewrite Hnil in Hnum. simp_state.
  rewrite Hnil, Hnum. repeat split.
  intros q. destruct Hacc1 as [_ Hq]. specialize (Hq q). rewrite Hnil, Hn1 in Hq.
  unfold live in Hq. cbn in Hq. unfold times_freed in *. simp_state. lia.
Qed.

(** *** Adding an address twice *)

(** X4. A second [GST_ats_add_address] for an address stops at the
    assertion of the function, whatever the properties; a second
    [GST_ats_add_inbound_address] for an address and session is logged with
    [GNUNET_break] and changes nothing else. *)
Theorem second_add_of_an_address (a : HelloAddress) (s : option nat)
    (prop prop' : ATS_Properties) (st st1 : state) :
  transport_name a <> None ->
  (GST_ats_add_address a prop st = Done st1 ->
   GST_ats_add_address a prop' st1 = Abort st1) /\
  (GST_ats_add_inbound_address a s prop st = Done st1 ->
   GST_ats_add_inbound_address a s prop' st1 = Done (Ats.log EvBreak st1)).
Proof.
  intros Hname. split; intros H.
  - unfold GST_ats_add_address in *.
    destruct (transport_name a) as [name|]; [|contradiction].
    destruct (check_option_inbound a); [discriminate|].
    destruct (find_ai_no_session a st) eqn:E; [discriminate|].
    injection H as <-. unfold find_ai_no_session. crunch. reflexivity.
  - unfold GST_ats_add_inbound_address in *.
    destruct (transport_name a) as [name|]; [|contradiction].
    destruct (negb (check_option_inbound a)); [discriminate|].
    destruct s as [s|]; [|discriminate].
    destruct (find_ai a (Some s) st) eqn:E; try discriminate; injection H as <-.
    + unfold find_ai in *. simp_state. rewrite E. reflexivity.
    + unfold find_ai. crunch. reflexivity.
Qed.

(** *** Blocking and the unblock task *)

(** X5. Blocking an active record of a reachable state and letting its
    unblock task run: [GST_ats_block_address] takes the record handle away
    (the scoring subsystem is told to drop the session, if there is one, and
    to destroy the record unless it reports it empty), doubles the backoff
    (standard backoff) and schedules the task with it; [unblock_address]
    then registers the address of the record again, with the session and
    the properties the record has, under a fresh record handle, and the
    counter of blocked addresses is what it was. *)
Theorem block_then_unblock (cs : list call) (st : state) (now : Z)
    (address0 : HelloAddress) (session0 : option nat) (r : AddressInfo) (h : nat) :
  run now_empty cs init_state = Done st ->
  find_ai address0 session0 st = Found r ->
  ar r = Some h ->
  let p := ai_ptr r in
  let b := Time.STD_BACKOFF (back_off r) in
  exists st1 st2 r1 r2,
    GST_ats_block_address now_empty now address0 session0 st = Done st1 /\
    lookup_ai p (p2a st1) = Some r1 /\
    ar r1 = None /\ unblock_task r1 = Some b /\ back_off r1 = b /\
    blocked r1 = Time.relative_to_absolute now b /\
    num_blocked st1 = (num_blocked st + 1) mod 2 ^ 32 /\
    unblock_address p st1 = Done st2 /\
    lookup_ai p (p2a st2) = Some r2 /\
    ar r2 = Some (next_ar st) /\ unblock_task r2 = None /\ back_off r2 = b /\
    session r2 = session r /\ ai_address r2 = ai_address r /\
    num_blocked st2 = num_blocked st /\
    events st1
    = match session0 with
      | None => [EvAtsDestroy h]
      | Some s => if now_empty h s then [EvAtsDelSession h s]
                  else [EvAtsDestroy h; EvAtsDelSession h s]
      end ++ events st /\
    events st2
    = EvAtsAdd (next_ar st) (ai_address r) (session r) (properties r) :: events st1.
Proof.
  intros Hrun Hfind Har p b.
  assert (Hc : counted st).
  { eapply counted_run in Hrun; [exact Hrun|apply wf_init|constructor|apply counted_init]. }
  assert (Hl : lookup_ai p (p2a st) = Some r).
  { apply lookup_ai_NoDup; [apply Hc|]. eapply find_ai_iter_In. exact Hfind. }
  assert (Hnum : uint (uint (num_blocked st + 1) - 1) = num_blocked st).
  { destruct Hc as [_ ->]. unfold uint. rewrite Zminus_mod_idemp_l.
    replace (Z.of_nat (count_blocked (p2a st)) mod 2 ^ 32 + 1 - 1)
      with (Z.of_nat (count_blocked (p2a st)) mod 2 ^ 32) by lia.
    apply Z.mod_mod. lia. }
  assert (Hl1 : forall st0, p2a st0 = p2a st ->
            lookup_ai p (update_ai p (fun x => set_unblock_task (Some (back_off x))
                                       (set_blocked (Time.relative_to_absolute now (back_off x)) x))
                         (update_ai p (set_ar None)
                           (update_ai p (fun x => set_back_off (Time.STD_BACKOFF (back_off x)) x)
                              (p2a st0))))
            = Some (set_unblock_task (Some b)
                      (set_blocked (Time.relative_to_absolute now b)
                         (set_ar None (set_back_off b r))))).
  { intros st0 ->. rewrite !lookup_update_ai by keeps_ptr_tac. rewrite Hl.
    cbn [fmap option_fmap option_map]. rewrite Nat.eqb_refl. destruct r; reflexivity. }
  unfold GST_ats_block_address. rewrite Hfind, Har. fold p.
  destruct session0 as [s|]; [destruct (now_empty h s)|];
    (eexists _, _, _, _; split; [reflexivity|];
     split; [simp_state; apply Hl1; reflexivity|];
     split; [reflexivity|]; split; [reflexivity|]; split; [reflexivity|];
     split; [reflexivity|]; split; [reflexivity|];
     unfold unblock_address; simp_state;
     rewrite (Hl1 st eq_refl); cbn [unblock_task set_unblock_task];
     split; [reflexivity|]; simp_state; rewrite Hnum;
     rewrite !lookup_update_ai by keeps_ptr_tac; rewrite Hl;
     cbn [fmap option_fmap option_map]; rewrite Nat.eqb_refl;
     split; [reflexivity|]; destruct r; repeat split).
Qed.

End AtsInvariants.

(** C4 as stated fails for the session leaving first: when the scoring
    subsystem reports the record empty, [GST_ats_del_session] has already
    taken the record out of the map and freed it, and the
    [GST_ats_expire_address] that follows completes nothing: it finds no
    record and stops at [GNUNET_assert (0)]. *)
Lemma del_session_then_expire_aborts :
  let o1 := GST_ats_add_inbound_address example_inbound (Some 1%nat) example_prop
              init_state in
  let o2 := GST_ats_del_session (fun _ _ => true) example_inbound (Some 1%nat)
              (state_of o1) in
  o1 = Done (state_of o1) /\ lookup_ai 1 (p2a (state_of o1)) <> None /\
  o2 = Done (state_of o2) /\ lookup_ai 1 (p2a (state_of o2)) = None /\
  times_freed 1 (state_of o2) = 1%nat /\
  GST_ats_expire_address example_inbound (state_of o2) = Abort (state_of o2).
Proof.
  cbv zeta. split; [vm_compute; reflexivity|]. split; [vm_compute; discriminate|].
  split; [vm_compute; reflexivity|]. split; [vm_compute; reflexivity|].
  split; vm_compute; reflexivity.
Qed.




Lemma expire_and_del_session_free_once_witness :
  let a := {| peer := 7; transport_name := Some "tcp"%string;
              address := [10; 0; 0; 1]; inbound := true |} in
  run (fun _ _ => true) [] init_state = Done init_state /\
  find_ai a (Some 3%nat) init_state = Missing /\
  exists st1,
    GST_ats_add_inbound_address a (Some 3%nat) example_prop init_state = Done st1 /\
    (exists st2 st3 r,
        GST_ats_expire_address a st1 = Done st2 /\
        lookup_ai 1 (p2a st2) = Some r /\ expired r = true /\
        session r = Some 3%nat /\ times_freed 1 st2 = 0%nat /\
        GST_ats_del_session (fun _ _ => true) a (Some 3%nat) st2 = Done st3 /\
        lookup_ai 1 (p2a st3) = None /\ times_freed 1 st3 = 1%nat) /\
    (exists st2,
        GST_ats_del_session (fun _ _ => true) a (Some 3%nat) st1 = Done st2 /\
        lookup_ai 1 (p2a st2) = None /\ times_freed 1 st2 = 1%nat /\
        GST_ats_expire_address a st2 = Abort st2 /\
        times_freed 1 (state_of (GST_ats_expire_address a st2)) = 1%nat).
Proof.
  cbv zeta. split; [reflexivity|]. split; [vm_compute; reflexivity|].
  destruct (expire_and_del_session_free_once (fun _ _ => true) [] init_state
              7 "tcp"%string [10; 0; 0; 1] 3%nat example_prop eq_refl
              ltac:(vm_compute; reflexivity))
    as (st1 & Hadd & Hfirst & st2 & Hdel & Hgone & Hfreed & Habort & Hcount).
  exists st1. split; [exact Hadd|]. split; [exact Hfirst|].
  exists st2. split; [exact Hdel|]. split; [exact Hgone|]. split; [exact Hfreed|].
  split; [apply Habort; vm_compute; reflexivity|exact Hcount].
Defined.

Lemma record_in_map_or_freed_once_witness :
  let cs := [AddInboundAddress example_inbound (Some 1%nat) example_prop;
             ExpireAddress example_inbound;
             DelSession example_inbound (Some 1%nat);
             AddAddress example_outbound example_prop] in
  let o := run (fun _ _ => true) cs init_state in
  o = Done (state_of o) /\
  times_freed 1 (state_of o) = 1%nat /\ live 1 (p2a (state_of o)) = 0%nat /\
  times_freed 2 (state_of o) = 0%nat /\ live 2 (p2a (state_of o)) = 1%nat /\
  (times_freed 1 (state_of o) + live 1 (p2a (state_of o)))%nat
  = if bool_decide (1 <= 1 < next_ai (state_of o))%nat then 1%nat else 0%nat.
Proof.
  cbv zeta. split; [vm_compute; reflexivity|]. split; [vm_compute; reflexivity|].
  split; [vm_compute; reflexivity|]. split; [vm_compute; reflexivity|].
  split; [vm_compute; reflexivity|].
  apply (record_in_map_or_freed_once (fun _ _ => true)
           [AddInboundAddress example_inbound (Some 1%nat) example_prop;
            ExpireAddress example_inbound;
            DelSession example_inbound (Some 1%nat);
            AddAddress example_outbound example_prop]).
  vm_compute; reflexivity.
Defined.

Lemma num_blocked_counts_blocked_records_witness :
  let cs := [AddAddress example_outbound example_prop;
             AddInboundAddress example_inbound (Some 1%nat) example_prop;
             BlockAddress 5 example_outbound None] in
  let o := run (fun _ _ => false) cs init_state in
  o = Done (state_of o) /\
  num_blocked (state_of o) = 1 /\ count_blocked (p2a (state_of o)) = 1%nat /\
  NoDup (map ai_ptr (p2a (state_of o))) /\
  num_blocked (state_of o) = Z.of_nat (count_blocked (p2a (state_of o))) mod 2 ^ 32.
Proof.
  cbv zeta. split; [vm_compute; reflexivity|]. split; [vm_compute; reflexivity|].
  split; [vm_compute; reflexivity|].
  apply (num_blocked_counts_blocked_records (fun _ _ => false)
           [AddAddress example_outbound example_prop;
            AddInboundAddress example_inbound (Some 1%nat) example_prop;
            BlockAddress 5 example_outbound None]).
  vm_compute; reflexivity.
Defined.

Lemma shutdown_frees_every_record_witness :
  let cs := [AddAddress example_outbound example_prop;
             AddInboundAddress example_inbound (Some 1%nat) example_prop;
             BlockAddress 5 example_outbound None] in
  let o := run (fun _ _ => false) cs init_state in
  o = Done (state_of o) /\ length (p2a (state_of o)) = 2%nat /\
  exists st1 st',
    iterate_destroy_ai (map ai_ptr (p2a (state_of o))) (state_of o) = Done st1 /\
    p2a st1 = [] /\
    GST_ats_done (state_of o) = Done st' /\
    num_blocked st' = 0 /\ stat_given st' = 0 /\ stat_blocked st' = 0 /\
    forall q, times_freed q st'
              = if bool_decide (1 <= q < next_ai (state_of o))%nat then 1%nat else 0%nat.
Proof.
  cbv zeta. split; [vm_compute; reflexivity|]. split; [vm_compute; reflexivity|].
  apply (shutdown_frees_every_record (fun _ _ => false)
           [AddAddress example_outbound example_prop;
            AddInboundAddress example_inbound (Some 1%nat) example_prop;
            BlockAddress 5 example_outbound None]).
  vm_compute; reflexivity.
Defined.

Lemma second_add_of_an_address_witness :
  let unspecified := {| delay := 0; utilization_out := 0; utilization_in := 0;
                        distance := 0; scope := GNUNET_ATS_NET_UNSPECIFIED |} in
  let st1 := state_of (GST_ats_add_address example_outbound example_prop init_state) in
  let st2 := state_of (GST_ats_add_inbound_address example_inbound (Some 1%nat)
                         example_prop init_state) in
  transport_name example_outbound <> None /\
  GST_ats_add_address example_outbound example_prop init_state = Done st1 /\
  GST_ats_add_address example_outbound unspecified st1 = Abort st1 /\
  transport_name example_inbound <> None /\
  GST_ats_add_inbound_address example_inbound (Some 1%nat) example_prop init_state
  = Done st2 /\
  GST_ats_add_inbound_address example_inbound (Some 1%nat) unspecified st2
  = Done (Ats.log EvBreak st2).
Proof.
  cbv zeta. split; [discriminate|]. split; [vm_compute; reflexivity|]. split.
  - apply (proj1 (second_add_of_an_address example_outbound None example_prop _
                    init_state _ ltac:(discriminate))).
    vm_compute; reflexivity.
  - split; [discriminate|]. split; [vm_compute; reflexivity|].
    apply (proj2 (second_add_of_an_address example_inbound (Some 1%nat) example_prop _
                    init_state _ ltac:(discriminate))).
    vm_compute; reflexivity.
Defined.

Lemma block_then_unblock_witness :
  let cs := [AddAddress example_outbound example_prop] in
  let o := run (fun _ _ => false) cs init_state in
  let r := {| ai_ptr := 1; ai_address := example_outbound; session := None;
              ar := Some 1%nat; properties := example_prop; blocked := 0; back_off := 0;
              unblock_task := None; expired := false |} in
  o = Done (state_of o) /\
  find_ai example_outbound None (state_of o) = Found r /\
  exists st1 st2 r1 r2,
    GST_ats_block_address (fun _ _ => false) 5 example_outbound None (state_of o)
    = Done st1 /\
    lookup_ai 1 (p2a st1) = Some r1 /\
    ar r1 = None /\ unblock_task r1 = Some (Time.STD_BACKOFF 0) /\
    back_off r1 = Time.STD_BACKOFF 0 /\
    blocked r1 = Time.relative_to_absolute 5 (Time.STD_BACKOFF 0) /\
    num_blocked st1 = (num_blocked (state_of o) + 1) mod 2 ^ 32 /\
    unblock_address 1 st1 = Done st2 /\
    lookup_ai 1 (p2a st2) = Some r2 /\
    ar r2 = Some (next_ar (state_of o)) /\ unblock_task r2 = None /\
    back_off r2 = Time.STD_BACKOFF 0 /\
    session r2 = None /\ ai_address r2 = example_outbound /\
    num_blocked st2 = num_blocked (state_of o) /\
    events st1 = [EvAtsDestroy 1] ++ events (state_of o) /\
    events st2
    = EvAtsAdd (next_ar (state_of o)) example_outbound None example_prop :: events st1.
Proof.
  cbv zeta. split; [vm_compute; reflexivity|]. split; [vm_compute; reflexivity|].
  apply (block_then_unblock (fun _ _ => false) [AddAddress example_outbound example_prop] _ 5
           example_outbound None
           {| ai_ptr := 1; ai_address := example_outbound; session := None;
              ar := Some 1%nat; properties := example_prop; blocked := 0; back_off := 0;
              unblock_task := None; expired := false |} 1%nat);
    vm_compute; reflexivity.
Defined.

End AtsFacts.

(** * Facts about the trail routing core *)

Section WdhtFacts.
Import Wdht.
Local Open Scope Z_scope.
Local Open Scope c_scope.


Lemma bind_Ok {A B} (m : M A) (k : A -> M B) s a s1 :
  m s = Ok a s1 -> bind m k s = k a s1.
Proof. unfold bind. intros ->. reflexivity. Qed.

Lemma bind_Fault {A B} (m : M A) (k : A -> M B) s f s1 :
  m s = Fault f s1 -> bind m k s = Fault f s1.
Proof. unfold bind. intros ->. reflexivity. Qed.

Lemma read_u8_spec buf off s :
  read_u8 buf off s = match get_u8 buf off with
                      | Some v => Ok v s
                      | None => Fault OutOfBounds s
                      end.
Proof.
  unfold read_u8, get_u8. destruct (off <? 0); [reflexivity|].
  destruct (buf !! Z.to_nat off); reflexivity.
Qed.

Lemma read_u16_spec buf off s :
  read_u16 buf off s = match get_u16 buf off with
                       | Some v => Ok v s
                       | None => Fault OutOfBounds s
                       end.
Proof.
  unfold read_u16, get_u16, bind. rewrite !read_u8_spec.
  destruct (get_u8 buf off); [|reflexivity].
  rewrite read_u8_spec. destruct (get_u8 buf (off + 1)); reflexivity.
Qed.

Lemma get_u8_is_Some buf off :
  0 <= off < Z.of_nat (length buf) -> is_Some (get_u8 buf off).
Proof.
  intros H. unfold get_u8. destruct (Z.ltb_spec off 0); [lia|].
  destruct (lookup_lt_is_Some_2 buf (Z.to_nat off)) as [b Hb]; [lia|].
  rewrite Hb. eauto.
Qed.

Lemma get_u8_Some_lt buf off v :
  get_u8 buf off = Some v -> 0 <= off < Z.of_nat (length buf).
Proof.
  unfold get_u8. destruct (Z.ltb_spec off 0); [discriminate|].
  destruct (buf !! Z.to_nat off) eqn:E; [|discriminate].
  apply lookup_lt_Some in E. lia.
Qed.

Lemma get_u16_is_Some buf off :
  0 <= off -> off + 2 <= Z.of_nat (length buf) -> is_Some (get_u16 buf off).
Proof.
  intros H0 H1. unfold get_u16.
  destruct (get_u8_is_Some buf off) as [a ->]; [lia|].
  destruct (get_u8_is_Some buf (off + 1)) as [b ->]; [lia|]. eauto.
Qed.

Lemma get_u16_Some_le buf off v :
  get_u16 buf off = Some v -> 0 <= off /\ off + 2 <= Z.of_nat (length buf).
Proof.
  unfold get_u16. destruct (get_u8 buf off) eqn:E1; [|discriminate].
  destruct (get_u8 buf (off + 1)) eqn:E2; [|discriminate].
  apply get_u8_Some_lt in E1, E2. lia.
Qed.

Lemma read_bytes_ok buf off len s :
  0 <= off -> 0 <= len -> off + len <= Z.of_nat (length buf) ->
  read_bytes buf off len s = Ok (take (Z.to_nat len) (drop (Z.to_nat off) buf)) s.
Proof.
  intros. unfold read_bytes.
  destruct (Z.ltb_spec off 0); [lia|]. destruct (Z.ltb_spec len 0); [lia|].
  destruct (Z.ltb_spec (Z.of_nat (length buf)) (off + len)); [lia|]. reflexivity.
Qed.

Lemma get_u8_nonneg buf off v : get_u8 buf off = Some v -> 0 <= v < 256.
Proof.
  unfold get_u8. destruct (off <? 0); [discriminate|].
  destruct (buf !! Z.to_nat off) as [b|]; [|discriminate]. intros [= <-].
  unfold byte_val. pose proof (Byte.to_N_bounded b). lia.
Qed.

Lemma get_u16_range buf off v : get_u16 buf off = Some v -> 0 <= v < 65536.
Proof.
  unfold get_u16. destruct (get_u8 buf off) eqn:E1; [|discriminate].
  destruct (get_u8 buf (off + 1)) eqn:E2; [|discriminate]. intros [= <-].
  apply get_u8_nonneg in E1, E2. lia.
Qed.

(** The checks either reject the message, logging a protocol violation and
    touching nothing else, or establish [parsed] and hand over. *)
Lemma trail_route_checks peer buf s :
  well_framed buf ->
  handle_dht_p2p_trail_route peer buf s
    = Ok GNUNET_YES (set_events (EvBreakOp :: events s) s)
  \/ exists path_length payload_size,
       parsed buf path_length payload_size /\
       handle_dht_p2p_trail_route peer buf s = route_or_dispatch peer buf path_length s.
Proof.
  intros Hwf. unfold well_framed in Hwf.
  unfold handle_dht_p2p_trail_route.
  rewrite (bind_Ok _ _ _ _ _ (eq_trans (read_u16_spec buf 0 s) ltac:(rewrite Hwf; reflexivity))).
  change sizeof_TrailRouteMessage with 72. change sizeof_MessageHeader with 4.
  change sizeof_PeerIdentity with 32. change (4 + 2) with 6.
  destruct (Z.ltb_spec (Z.of_nat (length buf)) 72) as [H1|H1]; [left; reflexivity|].
  destruct (get_u16_is_Some buf 6) as [pl Hpl]; [lia|lia|].
  rewrite (bind_Ok _ _ _ _ _ (eq_trans (read_u16_spec buf 6 s) ltac:(rewrite Hpl; reflexivity))).
  pose proof (get_u16_range _ _ _ Hpl) as Hplr.
  destruct (Z.ltb_spec (Z.of_nat (length buf)) (72 + pl * 32 + 4)) as [H2|H2]; [left; reflexivity|].
  destruct (get_u16_is_Some buf (72 + pl * 32)) as [ps Hps]; [lia|lia|].
  rewrite (bind_Ok _ _ _ _ _ (eq_trans (read_u16_spec buf (72 + pl * 32) s) ltac:(rewrite Hps; reflexivity))).
  destruct (Z.eqb_spec (Z.of_nat (length buf)) (ps + 72 + pl * 32)) as [H3|H3];
    [|left; reflexivity].
  right. exists pl, ps. split; [|reflexivity].
  split; [exact Hpl|exact Hps|..];
    change sizeof_TrailRouteMessage with 72; change sizeof_MessageHeader with 4;
    change sizeof_PeerIdentity with 32; lia.
Qed.

Lemma parsed_consistent buf pl ps : parsed buf pl ps -> path_length_consistent buf = true.
Proof.
  intros [H1 H2 H3 _ _]. unfold path_length_consistent. rewrite H1, H2.
  apply Z.eqb_eq. lia.
Qed.

(** *** No read leaves the buffer *)

Lemma oob_free_bind {A B} (m : M A) (k : A -> M B) :
  oob_free m -> (forall a, oob_free (k a)) -> oob_free (bind m k).
Proof.
  intros Hm Hk s f s'. unfold bind. destruct (m s) as [a s1|f1 s1] eqn:E.
  - apply Hk.
  - intros [= <- <-]. eapply Hm. exact E.
Qed.

Lemma oob_free_ret {A} (a : A) : oob_free (ret a).
Proof. intros s f s'. discriminate. Qed.

Lemma oob_free_get : oob_free get.
Proof. intros s f s'. discriminate. Qed.

Lemma oob_free_modify g : oob_free (Wdht.modify g).
Proof. intros s f s'. discriminate. Qed.

Lemma oob_free_log e : oob_free (Wdht.log e).
Proof. apply oob_free_modify. Qed.

Lemma oob_free_break_op b : oob_free (GNUNET_break_op b).
Proof. destruct b; [apply oob_free_ret|apply oob_free_log]. Qed.

Lemma oob_free_load_trail p : oob_free (load_trail p).
Proof.
  intros s f s'. unfold load_trail. destruct p as [q|]; [destruct (trail_mem s !! q)|];
    intros [= <- <-]; discriminate.
Qed.

Lemma oob_free_load_friend p : oob_free (load_friend p).
Proof.
  intros s f s'. unfold load_friend. destruct p as [q|]; [destruct (friend_mem s !! q)|];
    intros [= <- <-]; discriminate.
Qed.

Lemma oob_free_send_to p m : oob_free (send_to p m).
Proof.
  apply oob_free_bind; [apply oob_free_load_friend|intros; apply oob_free_log].
Qed.

Lemma oob_free_read_u16 {B} buf off (k : Z -> M B) :
  0 <= off -> off + 2 <= Z.of_nat (length buf) ->
  (forall v, get_u16 buf off = Some v -> oob_free (k v)) ->
  oob_free (bind (read_u16 buf off) k).
Proof.
  intros H0 H1 Hk s f s'. destruct (get_u16_is_Some buf off H0 H1) as [v Hv].
  rewrite (bind_Ok _ _ _ v s); [apply Hk; exact Hv|].
  rewrite read_u16_spec, Hv. reflexivity.
Qed.

Lemma oob_free_read_bytes {B} buf off len (k : list Byte.byte -> M B) :
  0 <= off -> 0 <= len -> off + len <= Z.of_nat (length buf) ->
  (forall l, oob_free (k l)) ->
  oob_free (bind (read_bytes buf off len) k).
Proof.
  intros H0 H1 H2 Hk s f s'.
  rewrite (bind_Ok _ _ _ _ s (read_bytes_ok buf off len s H0 H1 H2)). apply Hk.
Qed.

Lemma oob_free_read_be {B} buf off len (k : Z -> M B) :
  0 <= off -> 0 <= len -> off + len <= Z.of_nat (length buf) ->
  (forall v, oob_free (k v)) ->
  oob_free (bind (read_be buf off len) k).
Proof.
  intros H0 H1 H2 Hk s f s'. unfold read_be.
  unfold bind at 1.
  rewrite (bind_Ok _ _ _ _ s (read_bytes_ok buf off len s H0 H1 H2)).
  unfold ret. apply Hk.
Qed.

Lemma oob_free_bind_post {A B} (Q : A -> Prop) (m : M A) (k : A -> M B) :
  (forall s a s', m s = Ok a s' -> Q a) ->
  oob_free m -> (forall a, Q a -> oob_free (k a)) -> oob_free (bind m k).
Proof.
  intros HQ Hm Hk s f s'. unfold bind. destruct (m s) as [a s1|f1 s1] eqn:E.
  - apply Hk. eapply HQ. exact E.
  - intros [= <- <-]. eapply Hm. exact E.
Qed.

Lemma oob_free_forward buf pl ps next_target trail_id have_path predecessor :
  parsed buf pl ps ->
  oob_free (forward_message_on_trail next_target trail_id have_path predecessor buf
              sizeof_TrailRouteMessage pl
              (sizeof_TrailRouteMessage + pl * sizeof_PeerIdentity)).
Proof.
  intros [H1 H2 H3 H4 H5]. pose proof (get_u16_range _ _ _ H2) as Hr.
  revert H1 H2 H3 H4.
  change sizeof_TrailRouteMessage with 72. change sizeof_MessageHeader with 4.
  change sizeof_PeerIdentity with 32. intros H1 H2 H3 H4.
  unfold forward_message_on_trail. change sizeof_PeerIdentity with 32.
  apply oob_free_read_u16; [lia|lia|]. intros v Hv.
  assert (v = ps) by congruence. subst v.
  apply (oob_free_bind_post (fun a => a.1.2 = pl \/ a.1.1 = 0)).
  - intros s a s'. destruct (Z.eqb_spec have_path 0) as [->|Hne]; cbn [negb].
    + unfold bind. destruct (GNUNET_break_op _ s); [|discriminate].
      intros [= <- _]. right. reflexivity.
    + destruct (_ >=? _).
      * unfold bind. destruct (GNUNET_break_op _ s); [|discriminate].
        intros [= <- _]. right. reflexivity.
      * intros [= <- _]. left. reflexivity.
  - destruct (negb (have_path =? 0)).
    + destruct (_ >=? _); [apply oob_free_bind; [apply oob_free_break_op|intros; apply oob_free_ret]|apply oob_free_ret].
    + apply oob_free_bind; [apply oob_free_break_op|intros; apply oob_free_ret].
  - intros [[hp plen'] plen] HQ. cbn [fst snd] in HQ.
    apply oob_free_bind.
    + destruct (Z.eqb_spec hp 0) as [->|Hne]; cbn [negb]; [apply oob_free_ret|].
      destruct HQ as [->|]; [|contradiction].
      intros s f s'. rewrite read_bytes_ok by lia. discriminate.
    + intros copied. apply oob_free_read_bytes; [lia|lia|lia|].
      intros. apply oob_free_send_to.
Qed.

Lemma oob_free_dispatch buf pl ps trail_id hs : forall th,
  parsed buf pl ps ->
  (forall h, In h hs -> callback h = cb_successor_find ->
             message_size h = sizeof_FindSuccessorMessage) ->
  oob_free (dispatch hs th trail_id pl buf
              (sizeof_TrailRouteMessage + pl * sizeof_PeerIdentity)).
Proof.
  intros th [H1 H2 H3 H4 H5]. pose proof (get_u16_range _ _ _ H2) as Hr.
  revert th H1 H2 H3 H4.
  change sizeof_TrailRouteMessage with 72. change sizeof_MessageHeader with 4.
  change sizeof_PeerIdentity with 32. change sizeof_FindSuccessorMessage with 72.
  intros th H1 H2 H3 H4. revert th.
  induction hs as [|h hs IH]; intros th Hhs; cbn [dispatch].
  - apply oob_free_break_op.
  - apply oob_free_read_u16; [lia|lia|]. intros ty Hty.
    destruct (ty =? message_type h).
    + apply oob_free_read_u16; [lia|lia|]. intros v Hv.
      assert (v = ps) by congruence. subst v.
      apply oob_free_bind; [|intros; apply oob_free_break_op].
      destruct (Z.eqb_spec (message_size h) 0) as [Hz|Hz]; cbn [orb].
      * apply oob_free_bind; [|intros; apply oob_free_ret].
        destruct (callback h) eqn:Ecb; cbn [run_callback]; try apply oob_free_ret.
        rewrite (Hhs h (or_introl eq_refl) Ecb) in Hz. discriminate.
      * destruct (Z.eqb_spec ps (message_size h)) as [Hs|Hs]; [|apply oob_free_break_op].
        apply oob_free_bind; [|intros; apply oob_free_ret].
        destruct (callback h) eqn:Ecb; cbn [run_callback]; try apply oob_free_ret.
        rewrite (Hhs h (or_introl eq_refl) Ecb) in Hs.
        unfold handle_dht_p2p_successor_find.
        change sizeof_MessageHeader with 4. change sizeof_HashCode with 64.
        apply oob_free_bind; [apply oob_free_break_op|intros _].
        apply oob_free_read_be; [lia|lia|lia|]. intros key.
        apply oob_free_bind; [apply oob_free_log|intros; apply oob_free_ret].
    + apply IH. intros h' Hin. apply Hhs. right. exact Hin.
Qed.

Lemma oob_free_route_or_dispatch peer buf pl ps :
  parsed buf pl ps -> oob_free (route_or_dispatch peer buf pl).
Proof.
  intros Hp. pose proof Hp as [H1 H2 H3 H4 H5].
  pose proof (get_u16_range _ _ _ H2) as Hr.
  pose proof (get_u16_range _ _ _ H1) as Hr1.
  unfold route_or_dispatch. cbv zeta.
  revert H1 H2 H3 H4.
  change sizeof_MessageHeader with 4. change sizeof_HashCode with 64.
  change sizeof_TrailRouteMessage with 72. change sizeof_PeerIdentity with 32.
  intros H1 H2 H3 H4.
  apply oob_free_read_be; [lia|lia|lia|]. intros trail_id.
  apply oob_free_read_u16; [lia|lia|]. intros record_path _.
  apply oob_free_bind; [apply oob_free_bind; [apply oob_free_get|intros; apply oob_free_ret]|].
  intros trail0. apply oob_free_bind; [apply oob_free_load_trail|]. intros t.
  apply oob_free_bind.
  { destruct (pred t); [|apply oob_free_ret].
    apply oob_free_bind; [apply oob_free_load_friend|intros; apply oob_free_ret]. }
  intros from_pred. apply oob_free_bind.
  { destruct from_pred.
    - destruct (succ t); [|apply oob_free_ret].
      apply oob_free_bind; [eapply oob_free_forward; exact Hp|intros; apply oob_free_ret].
    - apply oob_free_bind.
      { destruct (succ t); [|apply oob_free_ret].
        apply oob_free_bind; [apply oob_free_load_friend|intros; apply oob_free_ret]. }
      intros from_succ. apply oob_free_bind; [apply oob_free_break_op|intros _].
      destruct (pred t); [|apply oob_free_ret].
      apply oob_free_bind; [eapply oob_free_forward; exact Hp|intros; apply oob_free_ret]. }
  intros [|]; [apply oob_free_ret|].
  apply oob_free_bind; [|intros; apply oob_free_ret].
  eapply oob_free_dispatch; [exact Hp|].
  intros h Hin Hcb. cbn in Hin.
  destruct Hin as [<-|[<-|[<-|[<-|[]]]]]; try discriminate Hcb. reflexivity.
Qed.

(** C5. A received TrailRoute message whose declared path length does not
    fit the bytes received is rejected with a protocol violation logged and
    nothing else done; and whatever the message, no read of the handler
    leaves the buffer. *)
Theorem trail_route_size_checked (peer : Z) (buf : list Byte.byte) (s : state) :
  well_framed buf ->
  (path_length_consistent buf = false ->
   handle_dht_p2p_trail_route peer buf s
   = Ok GNUNET_YES (set_events (EvBreakOp :: events s) s)) /\
  (forall f s', handle_dht_p2p_trail_route peer buf s = Fault f s' ->
                f <> OutOfBounds).
Proof.
  intros Hwf. destruct (trail_route_checks peer buf s Hwf) as [Hrej|(pl & ps & Hp & Hrest)].
  - split; [intros _; exact Hrej|]. intros f s'. rewrite Hrej. discriminate.
  - split.
    + intros Hbad. rewrite (parsed_consistent _ _ _ Hp) in Hbad. discriminate.
    + intros f s'. rewrite Hrest. apply (oob_free_route_or_dispatch peer buf pl ps Hp).
Qed.

(** C10, code at variance with the claim: both handlers dereference the
    result of the trail lookup without a look at it.  On an unknown trail
    identifier the destroy handler dereferences [NULL]; the route handler
    does so for every message that passes its size checks. *)
Theorem unknown_trail_is_dereferenced (peer : Z) (s : state) :
  (forall tdm : TrailDestroyMessage,
      trail_map s !! td_trail_id tdm = None ->
      handle_dht_p2p_trail_destroy peer tdm s = Fault NullDeref s) /\
  (forall buf : list Byte.byte,
      well_framed buf ->
      trail_map s !! be_value (take (Z.to_nat sizeof_HashCode)
                                 (drop (Z.to_nat (sizeof_MessageHeader + 4)) buf)) = None ->
      handle_dht_p2p_trail_route peer buf s
        = Ok GNUNET_YES (set_events (EvBreakOp :: events s) s)
      \/ handle_dht_p2p_trail_route peer buf s = Fault NullDeref s).
Proof.
  split.
  - intros tdm Hnone. unfold handle_dht_p2p_trail_destroy, multihashmap_get, bind, get, ret.
    rewrite Hnone. reflexivity.
  - intros buf Hwf Hnone.
    destruct (trail_route_checks peer buf s Hwf) as [Hrej|(pl & ps & Hp & Hrest)];
      [left; exact Hrej|right].
    rewrite Hrest. destruct Hp as [H1 H2 H3 H4 H5].
    pose proof (get_u16_range _ _ _ H2) as Hr.
    revert H1 H2 H3 H4 Hnone.
    unfold route_or_dispatch. cbv zeta.
    change sizeof_TrailRouteMessage with 72. change sizeof_MessageHeader with 4.
    change sizeof_PeerIdentity with 32. change sizeof_HashCode with 64.
    change (4 + 4) with 8. intros H1 H2 H3 H4 Hnone.
    unfold read_be at 1. unfold bind at 1. unfold bind at 1.
    rewrite read_bytes_ok by lia. unfold ret at 1.
    destruct (get_u16_is_Some buf 4) as [v Hv]; [lia|lia|].
    rewrite (bind_Ok _ _ _ _ _ (eq_trans (read_u16_spec buf 4 s) ltac:(rewrite Hv; reflexivity))).
    unfold multihashmap_get, bind, get, ret. rewrite Hnone. reflexivity.
Qed.


(** *** What the functions leave alone *)

#[local] Instance statics_mem : MemBlind statics.
Proof. split; reflexivity. Qed.
#[local] Instance statics_heap : HeapBlind statics.
Proof. split; reflexivity. Qed.
#[local] Instance friends_and_task_mem : MemBlind friends_and_task.
Proof. split; reflexivity. Qed.
#[local] Instance friends_and_task_heap : HeapBlind friends_and_task.
Proof. split; reflexivity. Qed.
#[local] Instance friends_and_task_map : MapBlind friends_and_task.
Proof. split; reflexivity. Qed.
#[local] Instance friends_mem : MemBlind friends_peermap.
Proof. split; reflexivity. Qed.
#[local] Instance friends_heap : HeapBlind friends_peermap.
Proof. split; reflexivity. Qed.
#[local] Instance friends_map : MapBlind friends_peermap.
Proof. split; reflexivity. Qed.
#[local] Instance friends_walk : WalkBlind friends_peermap.
Proof. split; reflexivity. Qed.
#[local] Instance trail_heap_mem : MemBlind trail_heap.
Proof. split; reflexivity. Qed.
#[local] Instance trail_mem_heap : HeapBlind trail_mem.
Proof. split; reflexivity. Qed.

Lemma preserves_bind {T A B} (π : state -> T) (m : M A) (k : A -> M B) :
  preserves π m -> (forall a, preserves π (k a)) -> preserves π (bind m k).
Proof.
  intros Hm Hk s b s'. unfold bind. destruct (m s) as [a s1|] eqn:E; [|discriminate].
  intros H. rewrite (Hk _ _ _ _ H). eapply Hm. exact E.
Qed.

Lemma preserves_ret {T A} (π : state -> T) (a : A) : preserves π (ret a).
Proof. intros s b s' [= _ ->]. reflexivity. Qed.

Lemma preserves_get {T} (π : state -> T) : preserves π get.
Proof. intros s b s' [= _ ->]. reflexivity. Qed.

Lemma preserves_crash {T A} (π : state -> T) f : preserves π (@crash A f).
Proof. intros s b s'. discriminate. Qed.

Lemma preserves_modify {T} (π : state -> T) g :
  (forall s, π (g s) = π s) -> preserves π (Wdht.modify g).
Proof. intros Hg s b s' [= _ <-]. apply Hg. Qed.

Create HintDb wdht_frames.

(** Breaking a computation into its steps. *)
Ltac frame_step :=
  first
    [ solve [eauto with wdht_frames typeclass_instances]
    | progress cbv zeta
    | apply preserves_ret | apply preserves_get | apply preserves_crash
    | apply preserves_bind; [|intros ?]
    | apply preserves_modify; intros ?;
      first [ apply blind_trail_mem | apply blind_friend_mem | apply blind_fingers
            | apply blind_events | apply blind_next_ptr | apply blind_trail_heap
            | apply blind_trail_timeout_task | apply blind_trail_map
            | apply blind_walk_layer | apply blind_random_walk_task ]
    | match goal with
      | |- preserves _ (match ?x with _ => _ end) => destruct x
      | |- preserves _ (if ?b then _ else _) => destruct b
      | |- preserves _ (when ?b _) => destruct b; cbn [when]
      | |- preserves _ (let '(_, _) := ?x in _) => destruct x
      end ].

Ltac frame := repeat frame_step.

Section Memory.
Context {T : Type} (π : state -> T) `{!MemBlind π}.

Lemma preserves_load_trail p : preserves π (load_trail p).
Proof.
  intros s a s'. unfold load_trail. destruct p as [q|]; [|discriminate].
  destruct (trail_mem s !! q); [|discriminate]. intros [= _ ->]. reflexivity.
Qed.

Lemma preserves_load_friend p : preserves π (load_friend p).
Proof.
  intros s a s'. unfold load_friend. destruct p as [q|]; [|discriminate].
  destruct (friend_mem s !! q); [|discriminate]. intros [= _ ->]. reflexivity.
Qed.

Lemma preserves_load_ft p : preserves π (load_ft p).
Proof.
  intros s a s'. unfold load_ft. destruct p as [q|]; [|discriminate].
  destruct (fingers s !! q); [|discriminate]. intros [= _ ->]. reflexivity.
Qed.

Lemma preserves_alloc_trail : preserves π alloc_trail.
Proof.
  intros s a s' [= _ <-]. rewrite blind_next_ptr, blind_trail_mem. reflexivity.
Qed.

Lemma preserves_alloc_friend f : preserves π (alloc_friend f).
Proof.
  intros s a s' [= _ <-]. rewrite blind_next_ptr, blind_friend_mem. reflexivity.
Qed.

Lemma preserves_log e : preserves π (Wdht.log e).
Proof. unfold Wdht.log. frame. Qed.

Hint Resolve preserves_load_trail preserves_load_friend preserves_load_ft
  preserves_alloc_trail preserves_alloc_friend preserves_log : wdht_frames.

Lemma preserves_assert b : preserves π (GNUNET_assert b).
Proof. unfold GNUNET_assert. frame. Qed.

Lemma preserves_break b : preserves π (GNUNET_break b).
Proof. unfold GNUNET_break. frame. Qed.

Lemma preserves_break_op b : preserves π (GNUNET_break_op b).
Proof. unfold GNUNET_break_op. frame. Qed.

Lemma preserves_store_trail p f : preserves π (store_trail p f).
Proof. unfold store_trail. frame. Qed.

Lemma preserves_store_friend p f : preserves π (store_friend p f).
Proof. unfold store_friend. frame. Qed.

Lemma preserves_store_ft p f : preserves π (store_ft p f).
Proof. unfold store_ft. frame. Qed.

Hint Resolve preserves_assert preserves_break preserves_break_op
  preserves_store_trail preserves_store_friend preserves_store_ft : wdht_frames.

Lemma preserves_free_trail p : preserves π (free_trail p).
Proof. unfold free_trail. frame. Qed.

Lemma preserves_free_friend p : preserves π (free_friend p).
Proof. unfold free_friend. frame. Qed.

Lemma preserves_send_to p m : preserves π (send_to p m).
Proof. unfold send_to. frame. Qed.

Lemma preserves_load_finger i off : preserves π (load_finger i off).
Proof. unfold load_finger. frame. Qed.

Hint Resolve preserves_free_trail preserves_free_friend preserves_send_to
  preserves_load_finger : wdht_frames.

Lemma preserves_store_finger i off v : preserves π (store_finger i off v).
Proof. unfold store_finger. frame. Qed.

Lemma preserves_MDLL_insert m hd f e : preserves π (MDLL_insert m hd f e).
Proof. unfold MDLL_insert. frame. Qed.

Lemma preserves_MDLL_remove m hd f e : preserves π (MDLL_remove m hd f e).
Proof. unfold MDLL_remove. frame. Qed.

Lemma preserves_pick_random_friend e : preserves π (pick_random_friend e).
Proof. unfold pick_random_friend. frame. Qed.

Lemma preserves_nth_valid_finger l : forall off, preserves π (nth_valid_finger l off).
Proof. induction l as [|[f|] l IH]; intros off; cbn [nth_valid_finger]; frame. Qed.

Lemma preserves_multihashmap_get k : preserves π (multihashmap_get k).
Proof. unfold multihashmap_get. frame. Qed.

Lemma preserves_read_u8 buf off : preserves π (read_u8 buf off).
Proof. unfold read_u8. frame. Qed.

Hint Resolve preserves_read_u8 : wdht_frames.

Lemma preserves_read_u16 buf off : preserves π (read_u16 buf off).
Proof. unfold read_u16. frame. Qed.

Lemma preserves_read_bytes buf off len : preserves π (read_bytes buf off len).
Proof. unfold read_bytes. frame. Qed.

Hint Resolve preserves_read_u16 preserves_read_bytes : wdht_frames.

Lemma preserves_read_be buf off len : preserves π (read_be buf off len).
Proof. unfold read_be. frame. Qed.

Hint Resolve preserves_store_finger preserves_MDLL_insert preserves_MDLL_remove
  preserves_pick_random_friend preserves_nth_valid_finger preserves_multihashmap_get
  preserves_read_be : wdht_frames.

Lemma preserves_forward nt id hp pr buf path pl payload :
  preserves π (forward_message_on_trail nt id hp pr buf path pl payload).
Proof. unfold forward_message_on_trail. frame. Qed.

Lemma preserves_run_callback c id pl buf msg : preserves π (run_callback c id pl buf msg).
Proof.
  destruct c; cbn [run_callback];
    unfold handle_dht_p2p_successor_find, handle_dht_p2p_peer_get,
      handle_dht_p2p_peer_get_result, handle_dht_p2p_peer_put; frame.
Qed.

Hint Resolve preserves_forward preserves_run_callback : wdht_frames.

Lemma preserves_dispatch hs : forall th id pl buf payload,
  preserves π (dispatch hs th id pl buf payload).
Proof. induction hs as [|h hs IH]; intros; cbn [dispatch]; frame. Qed.

Hint Resolve preserves_dispatch : wdht_frames.

Lemma preserves_route_or_dispatch peer buf pl : preserves π (route_or_dispatch peer buf pl).
Proof. unfold route_or_dispatch. cbv zeta. frame. Qed.

Hint Resolve preserves_route_or_dispatch : wdht_frames.

Lemma preserves_trail_route peer buf : preserves π (handle_dht_p2p_trail_route peer buf).
Proof. unfold handle_dht_p2p_trail_route. cbv zeta. frame. Qed.

Section Heap.
Context `{!HeapBlind π}.

Lemma preserves_heap_insert e c : preserves π (heap_insert e c).
Proof. unfold heap_insert. frame. Qed.

Lemma preserves_heap_peek : preserves π heap_peek.
Proof. unfold heap_peek. frame. Qed.

Lemma preserves_heap_remove_node n : preserves π (heap_remove_node n).
Proof. unfold heap_remove_node. frame. Qed.

Hint Resolve preserves_heap_insert preserves_heap_peek preserves_heap_remove_node
  : wdht_frames.

Lemma preserves_delete_trail t ip isu : preserves π (delete_trail t ip isu).
Proof. unfold delete_trail. frame. Qed.

Hint Resolve preserves_delete_trail : wdht_frames.

Lemma preserves_trail_timeout_loop e fuel : preserves π (trail_timeout_loop fuel e).
Proof. induction fuel; cbn [trail_timeout_loop]; frame. Qed.

Hint Resolve preserves_trail_timeout_loop : wdht_frames.

Lemma preserves_trail_timeout_callback e : preserves π (trail_timeout_callback e).
Proof. unfold trail_timeout_callback. frame. Qed.

Lemma preserves_disconnect_loop fuel hd f ip isu :
  preserves π (disconnect_loop fuel hd f ip isu).
Proof. induction fuel; cbn [disconnect_loop]; frame. Qed.

Lemma preserves_trail_destroy peer tdm :
  preserves π (handle_dht_p2p_trail_destroy peer tdm).
Proof. unfold handle_dht_p2p_trail_destroy. frame. Qed.

Lemma preserves_random_walk_response peer m :
  preserves π (handle_dht_p2p_random_walk_response peer m).
Proof. unfold handle_dht_p2p_random_walk_response. frame. Qed.

Section Map.
Context `{!MapBlind π}.

Lemma preserves_multihashmap_put_unique k v : preserves π (multihashmap_put_unique k v).
Proof. unfold multihashmap_put_unique. frame. Qed.

Hint Resolve preserves_multihashmap_put_unique : wdht_frames.

Lemma preserves_random_walk e peer m :
  preserves π (handle_dht_p2p_random_walk e peer m).
Proof. unfold handle_dht_p2p_random_walk. cbv zeta. frame. Qed.

Lemma preserves_do_random_walk `{!WalkBlind π} e : preserves π (do_random_walk e).
Proof. unfold do_random_walk. cbv zeta. frame. Qed.

End Map.
End Heap.
End Memory.

Hint Resolve preserves_load_trail preserves_load_friend preserves_load_ft
  preserves_alloc_trail preserves_alloc_friend preserves_log
  preserves_assert preserves_break preserves_break_op
  preserves_store_trail preserves_store_friend preserves_store_ft
  preserves_free_trail preserves_free_friend preserves_send_to
  preserves_load_finger preserves_store_finger preserves_MDLL_insert
  preserves_MDLL_remove preserves_pick_random_friend preserves_nth_valid_finger
  preserves_multihashmap_get preserves_read_u8 preserves_read_u16
  preserves_read_bytes preserves_read_be preserves_forward preserves_run_callback
  preserves_dispatch preserves_route_or_dispatch preserves_trail_route
  preserves_heap_insert preserves_heap_peek preserves_heap_remove_node
  preserves_delete_trail preserves_trail_timeout_loop
  preserves_trail_timeout_callback preserves_disconnect_loop
  preserves_trail_destroy preserves_random_walk_response
  preserves_multihashmap_put_unique preserves_random_walk
  preserves_do_random_walk : wdht_frames.


Lemma bind_inv {A B} (m : M A) (k : A -> M B) s b s' :
  bind m k s = Ok b s' -> exists a s1, m s = Ok a s1 /\ k a s1 = Ok b s'.
Proof. unfold bind. destruct (m s) as [a s1|]; [eauto|discriminate]. Qed.

(** *** The fuel of the two loops suffices *)

Lemma fuel_free_bind {A B} (m : M A) (k : A -> M B) :
  fuel_free m -> (forall a, fuel_free (k a)) -> fuel_free (bind m k).
Proof.
  intros Hm Hk s f s'. unfold bind. destruct (m s) as [a s1|f1 s1] eqn:E.
  - apply Hk.
  - intros [= <- <-]. eapply Hm. exact E.
Qed.

Lemma fuel_free_ret {A} (a : A) : fuel_free (ret a).
Proof. intros s f s'. discriminate. Qed.

Lemma fuel_free_get : fuel_free get.
Proof. intros s f s'. discriminate. Qed.

Lemma fuel_free_modify g : fuel_free (Wdht.modify g).
Proof. intros s f s'. discriminate. Qed.

Lemma fuel_free_crash {A} f : f <> OutOfFuel -> fuel_free (@crash A f).
Proof. intros Hf s f' s' [= <- _]. exact Hf. Qed.

Lemma fuel_free_load_trail p : fuel_free (load_trail p).
Proof.
  intros s f s'. unfold load_trail. destruct p as [q|]; [destruct (trail_mem s !! q)|];
    intros [= <- <-]; discriminate.
Qed.

Lemma fuel_free_load_friend p : fuel_free (load_friend p).
Proof.
  intros s f s'. unfold load_friend. destruct p as [q|]; [destruct (friend_mem s !! q)|];
    intros [= <- <-]; discriminate.
Qed.

Lemma fuel_free_load_ft p : fuel_free (load_ft p).
Proof.
  intros s f s'. unfold load_ft. destruct p as [q|]; [destruct (fingers s !! q)|];
    intros [= <- <-]; discriminate.
Qed.

Create HintDb wdht_fuel.
Hint Resolve fuel_free_load_trail fuel_free_load_friend fuel_free_load_ft : wdht_fuel.

Ltac fuel_step :=
  first
    [ solve [eauto with wdht_fuel]
    | progress cbv zeta
    | apply fuel_free_ret | apply fuel_free_get | apply fuel_free_modify
    | apply fuel_free_crash; discriminate
    | apply fuel_free_bind; [|intros ?]
    | match goal with
      | |- fuel_free (match ?x with _ => _ end) => destruct x
      | |- fuel_free (if ?b then _ else _) => destruct b
      | |- fuel_free (when ?b _) => destruct b; cbn [when]
      end ].

Ltac fuel := repeat fuel_step.

Lemma fuel_free_log e : fuel_free (Wdht.log e).
Proof. unfold Wdht.log. fuel. Qed.
Hint Resolve fuel_free_log : wdht_fuel.

Lemma fuel_free_assert b : fuel_free (GNUNET_assert b).
Proof. unfold GNUNET_assert. fuel. Qed.
Lemma fuel_free_break b : fuel_free (GNUNET_break b).
Proof. unfold GNUNET_break. fuel. Qed.
Lemma fuel_free_store_trail p f : fuel_free (store_trail p f).
Proof. unfold store_trail. fuel. Qed.
Lemma fuel_free_store_friend p f : fuel_free (store_friend p f).
Proof. unfold store_friend. fuel. Qed.
Lemma fuel_free_store_ft p f : fuel_free (store_ft p f).
Proof. unfold store_ft. fuel. Qed.
Hint Resolve fuel_free_assert fuel_free_break fuel_free_store_trail
  fuel_free_store_friend fuel_free_store_ft : wdht_fuel.

Lemma fuel_free_send_to p m : fuel_free (send_to p m).
Proof. unfold send_to. fuel. Qed.
Lemma fuel_free_free_trail p : fuel_free (free_trail p).
Proof. unfold free_trail. fuel. Qed.
Lemma fuel_free_free_friend p : fuel_free (free_friend p).
Proof. unfold free_friend. fuel. Qed.
Lemma fuel_free_load_finger i off : fuel_free (load_finger i off).
Proof. unfold load_finger. fuel. Qed.
Hint Resolve fuel_free_send_to fuel_free_free_trail fuel_free_free_friend
  fuel_free_load_finger : wdht_fuel.

Lemma fuel_free_store_finger i off v : fuel_free (store_finger i off v).
Proof. unfold store_finger. fuel. Qed.
Lemma fuel_free_MDLL_remove m hd f e : fuel_free (MDLL_remove m hd f e).
Proof. unfold MDLL_remove. fuel. Qed.
Lemma fuel_free_heap_remove_node n : fuel_free (heap_remove_node n).
Proof. unfold heap_remove_node. fuel. Qed.
Hint Resolve fuel_free_store_finger fuel_free_MDLL_remove fuel_free_heap_remove_node
  : wdht_fuel.

Lemma fuel_free_delete_trail t ip isu : fuel_free (delete_trail t ip isu).
Proof. unfold delete_trail. fuel. Qed.

Lemma filter_node_shorter (n : nat) (h : list (nat * Z)) :
  n ∈ h.*1 ->
  (length (filter (fun x : nat * Z => x.1 ≠ n) h) < length h)%nat.
Proof.
  induction h as [|x h IH]; [intros H; inversion H|].
  rewrite fmap_cons, filter_cons.
  pose proof (length_filter (fun x : nat * Z => x.1 ≠ n) h) as Hle.
  destruct (decide (x.1 ≠ n)) as [Hne|He]; cbn [length].
  - intros H. apply elem_of_cons in H as [H|H]; [congruence|]. apply IH in H. lia.
  - intros _. lia.
Qed.

Lemma heap_remove_node_shrinks n s a s' :
  heap_remove_node n s = Ok a s' ->
  (length (trail_heap s') < length (trail_heap s))%nat.
Proof.
  unfold heap_remove_node. destruct n as [n|]; [|discriminate].
  unfold bind, get, Wdht.modify, ret.
  destruct (bool_decide (n ∈ (trail_heap s).*1)) eqn:E; [|discriminate].
  intros [= _ <-]. cbn [trail_heap set_trail_heap]. apply bool_decide_eq_true in E.
  apply filter_node_shorter. exact E.
Qed.

(** A trail torn down leaves the heap shorter. *)
Lemma delete_trail_shrinks_heap t ip isu s a s' :
  delete_trail t ip isu s = Ok a s' ->
  (length (trail_heap s') < length (trail_heap s))%nat.
Proof.
  intros H. unfold delete_trail in H.
  apply bind_inv in H as (t0 & s0 & H0 & H).
  destruct t as [q|]; [|discriminate].
  apply bind_inv in H as (? & s1 & H1 & H).
  apply bind_inv in H as (t1 & s2 & H2 & H).
  apply bind_inv in H as (? & s3 & H3 & H).
  apply bind_inv in H as (t2 & s4 & H4 & H).
  apply bind_inv in H as (r & s5 & H5 & H).
  apply heap_remove_node_shrinks in H5.
  repeat match goal with
  | Hx : ?m ?s = Ok _ _ |- _ =>
      let P := fresh "P" in
      assert (P : preserves trail_heap m) by frame; apply P in Hx; clear P
  end.
  congruence.
Qed.

Lemma heap_min_None h : heap_min h = None -> h = [].
Proof.
  destruct h as [|n h]; [reflexivity|]. cbn [heap_min].
  destruct (heap_min h); [destruct (_ <=? _)|]; discriminate.
Qed.

Lemma trail_timeout_loop_fuel e fuel : forall s,
  (length (trail_heap s) <= fuel)%nat -> 
  forall f s', trail_timeout_loop fuel e s = Fault f s' -> f <> OutOfFuel.
Proof.
  induction fuel as [|fuel IH]; intros s Hlen f s'; cbn [trail_timeout_loop].
  - unfold heap_peek, bind, get, ret. destruct (trail_heap s); [|cbn [length] in Hlen; lia].
    cbn. discriminate.
  - unfold heap_peek. unfold bind at 1. unfold bind at 1. unfold get, ret.
    destruct (fst <$> heap_min (trail_heap s)) as [q|] eqn:Eq; [|discriminate].
    unfold bind at 1. destruct (load_trail (Some q) s) as [t s1|f1 s1] eqn:El.
    + assert (s1 = s) as ->.
      { unfold load_trail in El. destruct (trail_mem s !! q); [|discriminate].
        injection El as _ <-. reflexivity. }
      destruct (negb _); [discriminate|].
      unfold bind. destruct (delete_trail (Some q) true true s) as [a s2|f2 s2] eqn:Ed.
      * apply delete_trail_shrinks_heap in Ed. apply IH. lia.
      * intros [= <- <-]. eapply fuel_free_delete_trail. exact Ed.
    + intros [= <- <-]. eapply fuel_free_load_trail. exact El.
Qed.

Lemma disconnect_loop_fuel hd friend ip isu fuel : forall s,
  (length (trail_heap s) < fuel)%nat ->
  forall f s', disconnect_loop fuel hd friend ip isu s = Fault f s' -> f <> OutOfFuel.
Proof.
  induction fuel as [|fuel IH]; intros s Hlen f s'; [lia|]. cbn [disconnect_loop].
  unfold bind at 1. destruct (load_friend friend s) as [fr s1|f1 s1] eqn:El.
  - assert (s1 = s) as ->.
    { unfold load_friend in El. destruct friend as [q|]; [|discriminate].
      destruct (friend_mem s !! q); [|discriminate]. injection El as _ <-. reflexivity. }
    destruct (head_ hd fr) as [t|]; [|discriminate].
    unfold bind. destruct (delete_trail (Some t) ip isu s) as [a s2|f2 s2] eqn:Ed.
    + apply delete_trail_shrinks_heap in Ed. apply IH. lia.
    + intros [= <- <-]. eapply fuel_free_delete_trail. exact Ed.
  - intros [= <- <-]. eapply fuel_free_load_friend. exact El.
Qed.


Lemma fuel_free_alloc_trail : fuel_free alloc_trail.
Proof. intros s f s'. discriminate. Qed.
Lemma fuel_free_alloc_friend x : fuel_free (alloc_friend x).
Proof. intros s f s'. discriminate. Qed.
Lemma fuel_free_break_op b : fuel_free (GNUNET_break_op b).
Proof. unfold GNUNET_break_op. fuel. Qed.
Lemma fuel_free_read_u8 buf off : fuel_free (read_u8 buf off).
Proof. unfold read_u8. fuel. Qed.
Hint Resolve fuel_free_alloc_trail fuel_free_alloc_friend fuel_free_break_op
  fuel_free_read_u8 fuel_free_delete_trail : wdht_fuel.
Lemma fuel_free_read_u16 buf off : fuel_free (read_u16 buf off).
Proof. unfold read_u16. fuel. Qed.
Lemma fuel_free_read_bytes buf off len : fuel_free (read_bytes buf off len).
Proof. unfold read_bytes. fuel. Qed.
Hint Resolve fuel_free_read_u16 fuel_free_read_bytes : wdht_fuel.
Lemma fuel_free_read_be buf off len : fuel_free (read_be buf off len).
Proof. unfold read_be. fuel. Qed.
Lemma fuel_free_MDLL_insert m hd f e : fuel_free (MDLL_insert m hd f e).
Proof. unfold MDLL_insert. fuel. Qed.
Lemma fuel_free_heap_insert e c : fuel_free (heap_insert e c).
Proof. unfold heap_insert. fuel. Qed.
Lemma fuel_free_multihashmap_put_unique k v : fuel_free (multihashmap_put_unique k v).
Proof. unfold multihashmap_put_unique. fuel. Qed.
Lemma fuel_free_multihashmap_get k : fuel_free (multihashmap_get k).
Proof. unfold multihashmap_get. fuel. Qed.
Lemma fuel_free_pick_random_friend e : fuel_free (pick_random_friend e).
Proof. unfold pick_random_friend. fuel. Qed.
Lemma fuel_free_nth_valid_finger l : forall off, fuel_free (nth_valid_finger l off).
Proof. induction l as [|[x|] l IH]; intros off; cbn [nth_valid_finger]; fuel. Qed.
Hint Resolve fuel_free_read_be fuel_free_MDLL_insert fuel_free_heap_insert
  fuel_free_multihashmap_put_unique fuel_free_multihashmap_get
  fuel_free_pick_random_friend fuel_free_nth_valid_finger : wdht_fuel.

Lemma fuel_free_forward nt id hp pr buf path pl payload :
  fuel_free (forward_message_on_trail nt id hp pr buf path pl payload).
Proof.
  unfold forward_message_on_trail. fuel.
Qed.

Lemma fuel_free_run_callback c id pl buf msg : fuel_free (run_callback c id pl buf msg).
Proof.
  destruct c; cbn [run_callback];
    unfold handle_dht_p2p_successor_find, handle_dht_p2p_peer_get,
      handle_dht_p2p_peer_get_result, handle_dht_p2p_peer_put; fuel.
Qed.
Hint Resolve fuel_free_forward fuel_free_run_callback : wdht_fuel.

Lemma fuel_free_dispatch hs : forall th id pl buf payload,
  fuel_free (dispatch hs th id pl buf payload).
Proof. induction hs as [|h hs IH]; intros; cbn [dispatch]; fuel. Qed.
Hint Resolve fuel_free_dispatch : wdht_fuel.

Lemma fuel_free_trail_route peer buf : fuel_free (handle_dht_p2p_trail_route peer buf).
Proof. unfold handle_dht_p2p_trail_route, route_or_dispatch. fuel. Qed.

Lemma fuel_free_random_walk e peer m : fuel_free (handle_dht_p2p_random_walk e peer m).
Proof. unfold handle_dht_p2p_random_walk. fuel. Qed.

Lemma fuel_free_random_walk_response peer m :
  fuel_free (handle_dht_p2p_random_walk_response peer m).
Proof. unfold handle_dht_p2p_random_walk_response. fuel. Qed.

Lemma fuel_free_trail_destroy peer m : fuel_free (handle_dht_p2p_trail_destroy peer m).
Proof. unfold handle_dht_p2p_trail_destroy. fuel. Qed.

Lemma fuel_free_do_random_walk e : fuel_free (do_random_walk e).
Proof. unfold do_random_walk. fuel. Qed.

Lemma fuel_free_handle_core_connect peer : fuel_free (handle_core_connect peer).
Proof. unfold handle_core_connect. fuel. Qed.

Lemma fuel_free_trail_timeout_callback e : fuel_free (trail_timeout_callback e).
Proof.
  intros s f s'. unfold trail_timeout_callback.
  unfold bind at 1. unfold Wdht.modify at 1. unfold bind at 1. unfold get at 1.
  unfold bind at 1.
  destruct (trail_timeout_loop _ e _) as [r s1|f1 s1] eqn:E.
  - destruct r.1; discriminate.
  - intros [= <- <-]. eapply trail_timeout_loop_fuel; [|exact E]. reflexivity.
Qed.

Lemma fuel_free_handle_core_disconnect peer : fuel_free (handle_core_disconnect peer).
Proof.
  unfold handle_core_disconnect.
  apply fuel_free_bind; [apply fuel_free_get|intros s0].
  destruct (bool_decide _); [apply fuel_free_ret|].
  destruct (friends_peermap s0 !! peer) as [rf|]; [|apply fuel_free_break].
  apply fuel_free_bind; [apply fuel_free_modify|intros _].
  assert (Hloop : forall hd ip isu (k : M unit), fuel_free k ->
            fuel_free (do s <- get;
                       disconnect_loop (S (length (trail_heap s))) hd (Some rf) ip isu;; k)).
  { intros hd ip isu k Hk s f s'. unfold bind at 1. unfold get at 1.
    unfold bind at 1.
    destruct (disconnect_loop _ hd (Some rf) ip isu s) as [r s1|f1 s1] eqn:E.
    - apply Hk.
    - intros [= <- <-]. eapply disconnect_loop_fuel; [|exact E]. lia. }
  apply Hloop. apply Hloop. unfold cancel_random_walk_task. fuel.
Qed.

(** No callback stops for lack of fuel: the bounds on the two loops of the
    model are never reached. *)
Lemma fuel_suffices e i s f s' : step e i s = Fault f s' -> f <> OutOfFuel.
Proof.
  assert (H : fuel_free (step e i)); [|apply H].
  destruct i; cbn [step].
  - apply fuel_free_bind; [apply fuel_free_handle_core_connect|intros; apply fuel_free_ret].
  - apply fuel_free_bind; [apply fuel_free_handle_core_disconnect|intros; apply fuel_free_ret].
  - apply fuel_free_bind; [apply fuel_free_get|intros s0].
    destruct (random_walk_task s0); [|apply fuel_free_ret].
    apply fuel_free_bind; [apply fuel_free_do_random_walk|intros; apply fuel_free_ret].
  - apply fuel_free_bind; [apply fuel_free_get|intros s0].
    destruct (trail_timeout_task s0); [|apply fuel_free_ret].
    apply fuel_free_bind; [apply fuel_free_trail_timeout_callback|intros; apply fuel_free_ret].
  - apply fuel_free_random_walk.
  - apply fuel_free_random_walk_response.
  - apply fuel_free_trail_destroy.
  - apply fuel_free_trail_route.
Qed.

(** *** The random walk task and the friends *)

Lemma task_needs_friend_frame s s' :
  friends_and_task s' = friends_and_task s -> task_needs_friend s -> task_needs_friend s'.
Proof. unfold task_needs_friend, friends_and_task. intros [= -> ->]. auto. Qed.

Lemma handle_core_connect_task peer s a s' :
  task_needs_friend s -> handle_core_connect peer s = Ok a s' -> task_needs_friend s'.
Proof.
  intros Hinv. unfold handle_core_connect. unfold bind at 1. unfold get at 1.
  destruct (bool_decide _); [intros [= _ <-]; exact Hinv|].
  destruct (friends_peermap s !! peer).
  - intros H. eapply task_needs_friend_frame; [|exact Hinv].
    eapply (preserves_break friends_and_task). exact H.
  - unfold bind, alloc_friend, Wdht.modify, get, when.
    match goal with |- context [bool_decide ?P] => destruct (bool_decide P) end;
      intros [= _ <-]; intros Hempty; cbn in Hempty;
      apply insert_non_empty in Hempty; contradiction.
Qed.

Lemma handle_core_disconnect_task peer s a s' :
  task_needs_friend s -> handle_core_disconnect peer s = Ok a s' -> task_needs_friend s'.
Proof.
  intros Hinv. unfold handle_core_disconnect. unfold bind at 1. unfold get at 1.
  destruct (bool_decide _); [intros [= _ <-]; exact Hinv|].
  destruct (friends_peermap s !! peer) as [rf|].
  - intros H.
    do 6 (apply bind_inv in H as (? & ? & _ & H)).
    revert H. unfold when, cancel_random_walk_task, bind, get, Wdht.modify, ret.
    match goal with |- context [bool_decide ?P] => destruct (bool_decide P) eqn:E end.
    + match goal with |- context [random_walk_task ?x] => destruct (random_walk_task x) end;
        [|discriminate]. intros [= _ <-]. intros _. reflexivity.
    + intros [= _ <-]. intros Hempty. apply bool_decide_eq_false in E.
      exfalso. apply E. rewrite Hempty. apply map_size_empty.
  - intros H. eapply task_needs_friend_frame; [|exact Hinv].
    eapply (preserves_break friends_and_task). exact H.
Qed.

Lemma step_task e i s a s' :
  task_needs_friend s -> step e i s = Ok a s' -> task_needs_friend s'.
Proof.
  intros Hinv. destruct i; cbn [step]; intros H.
  - apply bind_inv in H as (? & ? & H & [= _ <-]).
    eapply handle_core_connect_task; eassumption.
  - apply bind_inv in H as (? & ? & H & [= _ <-]).
    eapply handle_core_disconnect_task; eassumption.
  - revert H. unfold bind at 1. unfold get at 1.
    destruct (random_walk_task s) eqn:Et; [|intros [= _ <-]; exact Hinv].
    intros H. apply bind_inv in H as (? & ? & H & [= _ <-]).
    apply (preserves_do_random_walk friends_peermap) in H.
    intros Hempty. rewrite H in Hempty. apply Hinv in Hempty. congruence.
  - revert H. unfold bind at 1. unfold get at 1.
    destruct (trail_timeout_task s); [|intros [= _ <-]; exact Hinv].
    intros H. apply bind_inv in H as (? & ? & H & [= _ <-]).
    eapply task_needs_friend_frame; [|exact Hinv].
    eapply (preserves_trail_timeout_callback friends_and_task). exact H.
  - eapply task_needs_friend_frame; [|exact Hinv].
    eapply (preserves_random_walk friends_and_task). exact H.
  - eapply task_needs_friend_frame; [|exact Hinv].
    eapply (preserves_random_walk_response friends_and_task). exact H.
  - eapply task_needs_friend_frame; [|exact Hinv].
    eapply (preserves_trail_destroy friends_and_task). exact H.
  - eapply task_needs_friend_frame; [|exact Hinv].
    eapply (preserves_trail_route friends_and_task). exact H.
Qed.

Lemma run_task l : forall s a s',
  task_needs_friend s -> run l s = Ok a s' -> task_needs_friend s'.
Proof.
  induction l as [|[e i] l IH]; cbn [run]; intros s a s' Hinv H.
  - injection H as _ <-. exact Hinv.
  - apply bind_inv in H as (? & s1 & H1 & H). eapply IH; [|exact H].
    eapply step_task; eassumption.
Qed.

Lemma pick_random_friend_Some e s :
  friends_peermap s <> ∅ -> exists f, pick_random_friend e s = Ok (Some f) s.
Proof.
  intros Hne. unfold pick_random_friend, bind, get, ret.
  destruct (map_to_list (friends_peermap s)) as [|x l] eqn:E.
  - apply map_to_list_empty_iff in E. contradiction.
  - destruct (lookup_lt_is_Some_2 (x :: l) (random_friend e mod length (x :: l))%nat)
      as [y Hy].
    + apply Nat.mod_upper_bound. discriminate.
    + rewrite Hy. exists y.2. reflexivity.
Qed.

(** C9, as the code has it: the tick does not guard against an empty map
    of friends; the code keeps the tick from firing then.  In every state
    the callbacks reach, the random walk task is pending only while the map
    of friends is not empty (connecting the first friend schedules the
    task, disconnecting the last one cancels it), and a tick that the
    scheduler can run finds a friend to walk to. *)
Theorem random_walk_task_needs_friend (me : Z) (l : list (env * input)) (s : state) :
  run l (init_state me) = Ok tt s ->
  (friends_peermap s = ∅ -> random_walk_task s = None) /\
  (forall e, random_walk_task s <> None ->
             exists f, pick_random_friend e s = Ok (Some f) s).
Proof.
  intros H.
  assert (Hinv : task_needs_friend s).
  { eapply run_task; [|exact H]. intros _. reflexivity. }
  split; [exact Hinv|].
  intros e Ht. apply pick_random_friend_Some. intros Hempty. apply Ht, Hinv, Hempty.
Qed.

(** C1, code at variance with the claim: [delete_trail] has no call that
    takes the trail out of the map of trails.  Whenever it returns, the map
    is what it was, so every identifier of the trail still leads to the
    cell, which has been freed. *)
Theorem delete_trail_keeps_trail_map (s s' : state) (trail : option nat)
    (inform_pred inform_succ : bool) :
  delete_trail trail inform_pred inform_succ s = Ok tt s' ->
  trail_map s' = trail_map s /\
  exists q, trail = Some q /\ trail_mem s' !! q = None.
Proof.
  intros H. split.
  - apply (preserves_delete_trail statics) in H. unfold statics in H. congruence.
  - unfold delete_trail in H. apply bind_inv in H as (t0 & s0 & H0 & H).
    destruct trail as [q|]; [|discriminate]. exists q. split; [reflexivity|].
    do 8 (apply bind_inv in H as (? & ? & _ & H)).
    unfold free_trail in H. apply bind_inv in H as (? & ? & Hl & H).
    revert H. unfold bind, Wdht.modify, Wdht.log. cbv beta iota. intros [= <-].
    cbn [trail_mem set_events set_trail_mem]. apply lookup_delete_eq.
Qed.

(** C3, code at variance with the claim: the handler ends where the finger
    should be filled in.  For a response on a trail this peer started,
    with its finger table and finger in place, it returns [GNUNET_OK] and
    leaves the whole state, the finger included, as it was. *)
Theorem random_walk_response_changes_nothing (s : state) (peer : Z)
    (rwrm : RandomWalkResponseMessage) (q : nat) (t : Trail) (i : nat)
    (table : FingerTable) (f : Finger) :
  trail_map s !! rwr_trail_id rwrm = Some q ->
  trail_mem s !! q = Some t ->
  pred t = None ->
  ft t = Some i ->
  fingers s !! i = Some table ->
  ft_fingers table !! finger_off t = Some (Some f) ->
  handle_dht_p2p_random_walk_response peer rwrm s = Ok GNUNET_OK s.
Proof.
  intros Hmap Hmem Hpred Hft Htable Hslot.
  unfold handle_dht_p2p_random_walk_response, multihashmap_get, bind, get, ret.
  rewrite Hmap. unfold load_trail. rewrite Hmem, Hpred, Hft.
  unfold load_finger, bind, load_ft, ret, crash. rewrite Htable.
  destruct (ft_fingers table) as [|x l] eqn:E; [discriminate|].
  rewrite Hslot. reflexivity.
Qed.


Lemma delete_trail_keeps_trail_map_witness :
  trail_map three_walks !! 101 = Some 3%nat /\
  exists s', delete_trail (Some 3%nat) false true three_walks = Ok tt s' /\
             trail_map s' !! 101 = Some 3%nat /\ trail_mem s' !! 3%nat = None.
Proof.
  split; [vm_compute; reflexivity|].
  exists (final_state (delete_trail (Some 3%nat) false true three_walks)).
  assert (E : delete_trail (Some 3%nat) false true three_walks
              = Ok tt (final_state (delete_trail (Some 3%nat) false true three_walks)))
    by (vm_compute; reflexivity).
  split; [exact E|].
  destruct (delete_trail_keeps_trail_map _ _ _ _ _ E) as [Hmap (q & [= <-] & Hq)].
  split; [rewrite Hmap; vm_compute; reflexivity|exact Hq].
Defined.

Lemma random_walk_response_changes_nothing_witness :
  handle_dht_p2p_random_walk_response 2
    {| rwr_trail_id := 100; rwr_location := 555 |} three_walks
  = Ok GNUNET_OK three_walks /\
  (fingers three_walks !! 0%nat) ≫= (fun table => ft_fingers table !! 0%nat)
  = Some (Some {| trail := Some 2%nat; finger_ft := Some 0%nat;
                  destination := 0; valid := 0 |}).
Proof.
  split; [|vm_compute; reflexivity].
  eapply (random_walk_response_changes_nothing three_walks 2
            {| rwr_trail_id := 100; rwr_location := 555 |} 2%nat _ 0%nat);
    vm_compute; reflexivity.
Defined.

(** C7, code at variance with the claim: with three expired trails of
    received walks in the heap, the expiry task stops in the teardown of the
    first: [delete_trail] reads the finger table of a trail that has none.
    The two later trails stay in the heap and no task is scheduled. *)
Lemma expiry_stops_at_first_received_trail :
  trail_heap three_received_walks
  = [(2%nat, 10 + TRAIL_TIMEOUT); (3%nat, 20 + TRAIL_TIMEOUT); (4%nat, 30 + TRAIL_TIMEOUT)] /\
  exists s',
    trail_timeout_callback (example_env 0 (30 + TRAIL_TIMEOUT)) three_received_walks
    = Fault NullDeref s' /\
    trail_heap s' = [(3%nat, 20 + TRAIL_TIMEOUT); (4%nat, 30 + TRAIL_TIMEOUT)] /\
    trail_timeout_task s' = None.
Proof.
  split; [vm_compute; reflexivity|].
  eexists. split; [vm_compute; reflexivity|]. split; vm_compute; reflexivity.
Qed.

(** C8, code at variance with the claim: the layer is compared with
    [layer > NUMBER_LAYERED_ID]; a walk for layer 8, one past the last
    layer, is taken: a trail is made for it and the handler returns
    [GNUNET_OK]. *)
Lemma layer_eight_is_accepted :
  let s := final_state (run [(example_env 0 0, CoreConnect 2)] (init_state 1)) in
  exists s',
    handle_dht_p2p_random_walk (example_env 60 5) 2
      {| rw_hops_taken := 0; rw_layer := 8; rw_trail_id := 50 |} s
    = Ok GNUNET_OK s' /\
    trail_map s !! 50 = None /\ trail_map s' !! 50 = Some 2%nat /\
    is_Some (trail_mem s' !! 2%nat).
Proof.
  cbv zeta. eexists. split; [vm_compute; reflexivity|].
  split; [vm_compute; reflexivity|]. split; [vm_compute; reflexivity|].
  vm_compute. eauto.
Qed.

(** C9 as stated fails: run with no friend, [do_random_walk] allocates a
    trail, puts it into the map of trails and then reads the fields of the
    friend it did not get. *)
Lemma tick_without_friends_crashes :
  (exists s',
      do_random_walk (example_env 5 5) (init_state 1) = Fault NullDeref s' /\
      trail_map s' !! 5 = Some 1%nat) /\
  ~ (forall e s, friends_peermap s = ∅ ->
       exists s', do_random_walk e s = Ok tt s' /\
                  trail_map s' = trail_map s /\ trail_mem s' = trail_mem s /\
                  trail_heap s' = trail_heap s /\ fingers s' = fingers s /\
                  events s' = events s).
Proof.
  split.
  - eexists. split; vm_compute; reflexivity.
  - intros H. destruct (H (example_env 5 5) (init_state 1) eq_refl) as (s' & H1 & _).
    revert H1. vm_compute. discriminate.
Qed.

Lemma random_walk_task_needs_friend_witness :
  let l := [(example_env 0 0, CoreConnect 2); (example_env 100 10, RandomWalkTimer);
            (example_env 101 20, RandomWalkTimer); (example_env 102 30, RandomWalkTimer)] in
  run l (init_state 1) = Ok tt three_walks /\
  random_walk_task three_walks = Some RANDOM_WALK_DELAY /\
  (friends_peermap three_walks = ∅ -> random_walk_task three_walks = None) /\
  exists f, pick_random_friend (example_env 103 40) three_walks = Ok (Some f) three_walks.
Proof.
  cbv zeta.
  assert (E : run [(example_env 0 0, CoreConnect 2); (example_env 100 10, RandomWalkTimer);
                   (example_env 101 20, RandomWalkTimer);
                   (example_env 102 30, RandomWalkTimer)] (init_state 1)
              = Ok tt three_walks) by (vm_compute; reflexivity).
  split; [exact E|]. split; [vm_compute; reflexivity|].
  destruct (random_walk_task_needs_friend 1 _ _ E) as [H1 H2].
  split; [exact H1|]. apply H2. vm_compute. discriminate.
Defined.

Lemma trail_route_size_checked_witness :
  let buf := take 75 (example_trail_route 0 999 915) in
  let buf' := put_u16 75 ++ drop 2 buf in
  well_framed buf' /\ path_length_consistent buf' = false /\
  handle_dht_p2p_trail_route 2 buf' three_walks
  = Ok GNUNET_YES (set_events (EvBreakOp :: events three_walks) three_walks).
Proof.
  cbv zeta. split; [vm_compute; reflexivity|]. split; [vm_compute; reflexivity|].
  refine (proj1 (trail_route_size_checked 2 _ three_walks _) _); vm_compute; reflexivity.
Defined.

Lemma unknown_trail_is_dereferenced_witness :
  trail_map three_walks !! 999 = None /\
  handle_dht_p2p_trail_destroy 2 {| td_trail_id := 999 |} three_walks
  = Fault NullDeref three_walks /\
  well_framed (example_trail_route 0 999 915) /\
  handle_dht_p2p_trail_route 2 (example_trail_route 0 999 915) three_walks
  = Fault NullDeref three_walks.
Proof.
  split; [vm_compute; reflexivity|].
  split; [apply (proj1 (unknown_trail_is_dereferenced 2 three_walks)); vm_compute; reflexivity|].
  split; [vm_compute; reflexivity|].
  destruct (proj2 (unknown_trail_is_dereferenced 2 three_walks)
              (example_trail_route 0 999 915)) as [H|H];
    [vm_compute; reflexivity|vm_compute; reflexivity| |exact H].
  exfalso. revert H. vm_compute. discriminate.
Defined.


(** *** What a computation does to the state, as a relation *)

Section Respects.
Context (R : state -> state -> Prop) `{!PreOrder R}.

Lemma respects_bind {A B} (m : M A) (k : A -> M B) :
  respects R m -> (forall a, respects R (k a)) -> respects R (bind m k).
Proof.
  intros Hm Hk s b s'. unfold bind. destruct (m s) as [a s1|] eqn:E; [|discriminate].
  intros H. transitivity s1; [eapply Hm; exact E|eapply Hk; exact H].
Qed.

Lemma respects_ret {A} (a : A) : respects R (ret a).
Proof. intros s b s' [= _ ->]. reflexivity. Qed.

Lemma respects_get : respects R get.
Proof. intros s b s' [= _ ->]. reflexivity. Qed.

Lemma respects_crash {A} f : respects R (@crash A f).
Proof. intros s b s'. discriminate. Qed.

Lemma respects_modify g : (forall s, R s (g s)) -> respects R (Wdht.modify g).
Proof. intros Hg s b s' [= _ <-]. apply Hg. Qed.

Lemma respects_load_trail p : respects R (load_trail p).
Proof.
  intros s a s'. unfold load_trail. destruct p as [q|]; [|discriminate].
  destruct (trail_mem s !! q); [|discriminate]. intros [= _ ->]. reflexivity.
Qed.

Lemma respects_load_friend p : respects R (load_friend p).
Proof.
  intros s a s'. unfold load_friend. destruct p as [q|]; [|discriminate].
  destruct (friend_mem s !! q); [|discriminate]. intros [= _ ->]. reflexivity.
Qed.

Lemma respects_load_ft p : respects R (load_ft p).
Proof.
  intros s a s'. unfold load_ft. destruct p as [q|]; [|discriminate].
  destruct (fingers s !! q); [|discriminate]. intros [= _ ->]. reflexivity.
Qed.

Lemma respects_alloc_trail :
  (forall s, R s (set_next_ptr (S (next_ptr s))
                    (set_trail_mem (<[next_ptr s := new_Trail]> (trail_mem s)) s))) ->
  respects R alloc_trail.
Proof. intros H s a s' [= _ <-]. apply H. Qed.

Lemma respects_alloc_friend f :
  (forall s, R s (set_next_ptr (S (next_ptr s))
                    (set_friend_mem (<[next_ptr s := f]> (friend_mem s)) s))) ->
  respects R (alloc_friend f).
Proof. intros H s a s' [= _ <-]. apply H. Qed.

End Respects.

#[local] Instance same_preorder {T} (π : state -> T) : PreOrder (same π).
Proof. split; [intros s; reflexivity|intros s1 s2 s3 H1 H2; unfold same in *; congruence]. Qed.

#[local] Instance map_grows_preorder : PreOrder map_grows.
Proof.
  split; [intros s; unfold map_grows; reflexivity|].
  intros s1 s2 s3 H1 H2. unfold map_grows in *. etransitivity; eassumption.
Qed.

#[local] Instance emits_preorder P : PreOrder (emits P).
Proof.
  split.
  - intros s. exists []. split; [reflexivity|constructor].
  - intros s1 s2 s3 (l1 & E1 & H1) (l2 & E2 & H2). exists (l2 ++ l1).
    split; [rewrite E2, E1, app_assoc; reflexivity|]. apply Forall_app. auto.
Qed.

Create HintDb wdht_respects.

(** Breaking a computation into its steps; [tac] is for the states that the
    steps write. *)
Ltac respect_step tac :=
  first
    [ solve [eauto with wdht_respects]
    | progress cbv zeta
    | progress cbn [when]
    | progress unfold GNUNET_assert, GNUNET_break, GNUNET_break_op, heap_remove_node,
        read_u8, read_bytes, run_callback, handle_dht_p2p_peer_get,
        handle_dht_p2p_peer_get_result, handle_dht_p2p_peer_put
    | match goal with
      | |- respects ?R (ret _) => apply (respects_ret R)
      | |- respects ?R get => apply (respects_get R)
      | |- respects ?R (crash _) => apply (respects_crash R)
      | |- respects ?R (load_trail _) => apply (respects_load_trail R)
      | |- respects ?R (load_friend _) => apply (respects_load_friend R)
      | |- respects ?R (load_ft _) => apply (respects_load_ft R)
      | |- respects ?R alloc_trail => apply (respects_alloc_trail R); intros ?; tac
      | |- respects ?R (alloc_friend _) => apply (respects_alloc_friend R); intros ?; tac
      | |- respects ?R (Wdht.modify _) => apply (respects_modify R); intros ?; tac
      | |- respects ?R (Wdht.log _) => apply (respects_modify R); intros ?; tac
      | |- respects _ (match ?x with _ => _ end) => destruct x
      | |- respects _ (if ?b then _ else _) => destruct b
      | |- respects _ (when ?b _) => destruct b; cbn [when]
      | |- respects _ (let '(_, _) := ?x in _) => destruct x
      | |- respects ?R _ => apply (respects_bind R); [|intros ?]
      end ].

Ltac respect tac := repeat (respect_step tac).

(** *** The map of trails only grows *)

Ltac grows_tac := unfold map_grows; reflexivity.

Lemma grows_put_unique k v : respects map_grows (multihashmap_put_unique k v).
Proof.
  intros s a s'. unfold multihashmap_put_unique, bind, get, ret, Wdht.modify.
  destruct (trail_map s !! k) eqn:E; intros [= _ <-]; unfold map_grows; [reflexivity|].
  cbn [trail_map set_trail_map]. apply insert_subseteq. exact E.
Qed.

#[local] Hint Resolve grows_put_unique : wdht_respects.

Lemma grows_delete_trail t ip isu : respects map_grows (delete_trail t ip isu).
Proof. unfold delete_trail. respect grows_tac. Qed.

#[local] Hint Resolve grows_delete_trail : wdht_respects.

Lemma grows_trail_timeout_loop e fuel : respects map_grows (trail_timeout_loop fuel e).
Proof. induction fuel; cbn [trail_timeout_loop]; respect grows_tac. Qed.

Lemma grows_disconnect_loop fuel hd f ip isu :
  respects map_grows (disconnect_loop fuel hd f ip isu).
Proof. induction fuel; cbn [disconnect_loop]; respect grows_tac. Qed.

Lemma grows_nth_valid_finger l : forall off, respects map_grows (nth_valid_finger l off).
Proof. induction l as [|[f|] l IH]; intros off; cbn [nth_valid_finger]; respect grows_tac. Qed.

Lemma grows_dispatch hs : forall th id pl buf payload,
  respects map_grows (dispatch hs th id pl buf payload).
Proof. induction hs as [|h hs IH]; intros; cbn [dispatch]; respect grows_tac. Qed.

#[local] Hint Resolve grows_trail_timeout_loop grows_disconnect_loop
  grows_nth_valid_finger grows_dispatch : wdht_respects.




(** *** What is logged *)

Ltac emits_tac :=
  first [ exists []; split; [reflexivity|constructor]
        | eexists [_]; split; [reflexivity|]; constructor; [cbn; auto|constructor] ].

Lemma emits_dispatch hs : forall th id pl buf payload,
  respects (emits trail_route_event) (dispatch hs th id pl buf payload).
Proof.
  induction hs as [|h hs IH]; intros; cbn [dispatch]; respect emits_tac.
Qed.

Lemma quiet_dispatch hs : forall th id pl buf payload,
  respects (same without_events) (dispatch hs th id pl buf payload).
Proof.
  induction hs as [|h hs IH]; intros; cbn [dispatch]; respect ltac:(reflexivity).
Qed.

#[local] Hint Resolve emits_dispatch quiet_dispatch : wdht_respects.

Lemma always_bind {A B} (Q : B -> Prop) (m : M A) (k : A -> M B) :
  (forall a, always Q (k a)) -> always Q (bind m k).
Proof.
  intros Hk s b s' H. apply bind_inv in H as (a & s1 & _ & H). eapply Hk. exact H.
Qed.

Lemma always_ret {A} (Q : A -> Prop) (a : A) : Q a -> always Q (ret a).
Proof. intros H s b s' [= <- _]. exact H. Qed.

Lemma always_crash {A} (Q : A -> Prop) f : always Q (@crash A f).
Proof. intros s b s'. discriminate. Qed.

Ltac always_step :=
  first
    [ progress cbv zeta
    | apply always_ret; reflexivity
    | apply always_crash
    | match goal with
      | |- always _ (match ?x with _ => _ end) => destruct x
      | |- always _ (if ?b then _ else _) => destruct b
      end
    | apply always_bind; intros ? ].

(** X8. Routing changes nothing but the log: whenever
    [handle_dht_p2p_trail_route] returns, it returns [GNUNET_OK] (it never
    asks for the connection to be closed, not even for a malformed
    message), the maps, the heap, the cells of trails and friends, the
    fingers and the tasks are what they were, and all it has logged are
    messages sent on, look-ups of successors and protocol violations. *)
Theorem trail_route_changes_only_the_log (peer : Z) (buf : list Byte.byte)
    (s s' : state) (r : Z) :
  handle_dht_p2p_trail_route peer buf s = Ok r s' ->
  r = GNUNET_OK /\
  without_events s' = without_events s /\
  exists l, events s' = l ++ events s /\ Forall trail_route_event l.
Proof.
  intros H. split; [|split].
  - assert (Ha : always (fun r => r = GNUNET_OK) (handle_dht_p2p_trail_route peer buf)).
    { unfold handle_dht_p2p_trail_route, route_or_dispatch. repeat always_step. }
    apply Ha in H. exact H.
  - assert (Hq : respects (same without_events) (handle_dht_p2p_trail_route peer buf)).
    { unfold handle_dht_p2p_trail_route, route_or_dispatch, forward_message_on_trail.
      respect ltac:(reflexivity). }
    apply Hq in H. exact H.
  - assert (He : respects (emits trail_route_event) (handle_dht_p2p_trail_route peer buf)).
    { unfold handle_dht_p2p_trail_route, route_or_dispatch, forward_message_on_trail.
      respect emits_tac. }
    apply He in H. exact H.
Qed.

(** *** The friends *)

#[local] Instance not_own_friend_preorder : PreOrder not_own_friend.
Proof.
  split.
  - intros s. split; auto.
  - intros s1 s2 s3 [E1 H1] [E2 H2]. split; [congruence|]. auto.
Qed.

Ltac own_tac :=
  split; [reflexivity|];
  cbn [friends_peermap my_identity set_trail_timeout_task set_random_walk_task
       set_friends_peermap set_fingers set_trail_map set_trail_heap set_walk_layer
       set_trail_mem set_friend_mem set_next_ptr set_events];
  let H := fresh in intros H;
  first [exact H | rewrite lookup_delete_None; right; exact H].

Lemma own_trail_timeout_loop e fuel : respects not_own_friend (trail_timeout_loop fuel e).
Proof. induction fuel; cbn [trail_timeout_loop]; respect own_tac. Qed.

Lemma own_disconnect_loop fuel hd f ip isu :
  respects not_own_friend (disconnect_loop fuel hd f ip isu).
Proof. induction fuel; cbn [disconnect_loop]; respect own_tac. Qed.

Lemma own_nth_valid_finger l : forall off, respects not_own_friend (nth_valid_finger l off).
Proof. induction l as [|[f|] l IH]; intros off; cbn [nth_valid_finger]; respect own_tac. Qed.

Lemma own_dispatch hs : forall th id pl buf payload,
  respects not_own_friend (dispatch hs th id pl buf payload).
Proof. induction hs as [|h hs IH]; intros; cbn [dispatch]; respect own_tac. Qed.

Lemma own_connect peer : respects not_own_friend (handle_core_connect peer).
Proof.
  intros s a s'. unfold handle_core_connect. unfold bind at 1. unfold get at 1.
  case_bool_decide as Hme; [intros [= _ <-]; reflexivity|].
  destruct (friends_peermap s !! peer) eqn:E.
  - assert (H : respects not_own_friend (GNUNET_break false)) by respect own_tac.
    apply H.
  - unfold bind, alloc_friend, Wdht.modify, get, when.
    match goal with |- context [bool_decide ?P] => destruct (bool_decide P) end;
      intros [= _ <-]; (split; [reflexivity|]); cbn; intros Hm;
      rewrite lookup_insert_ne; auto.
Qed.

#[local] Hint Resolve own_trail_timeout_loop own_disconnect_loop own_nth_valid_finger
  own_dispatch own_connect : wdht_respects.

Lemma own_step e i : respects not_own_friend (step e i).
Proof.
  destruct i; cbn [step].
  - respect own_tac.
  - unfold handle_core_disconnect, cancel_random_walk_task. respect own_tac.
  - unfold do_random_walk. respect own_tac.
  - unfold trail_timeout_callback. respect own_tac.
  - unfold handle_dht_p2p_random_walk. respect own_tac.
  - unfold handle_dht_p2p_random_walk_response. respect own_tac.
  - unfold handle_dht_p2p_trail_destroy. respect own_tac.
  - unfold handle_dht_p2p_trail_route, route_or_dispatch. respect own_tac.
Qed.

Lemma own_run l : respects not_own_friend (run l).
Proof.
  induction l as [|[e i] l IH]; cbn [run]; [apply (respects_ret not_own_friend)|].
  apply (respects_bind not_own_friend); [apply own_step|intros _; exact IH].
Qed.

(** X9. The peer never becomes its own friend, and its identity is never
    written: in every state the callbacks reach from the initial one the
    identity is the one given at [core_init], and the map of friends has no
    entry for it. *)
Theorem never_own_friend (me : Z) (l : list (env * input)) (s : state) :
  run l (init_state me) = Ok tt s ->
  my_identity s = me /\ friends_peermap s !! me = None.
Proof.
  intros H. apply own_run in H as [E H]. split; [exact E|].
  change me with (my_identity (init_state me)). rewrite <- E. apply H. reflexivity.
Qed.

(** X10. A peer that connects and disconnects right away leaves no trace
    but the release of its cell: [handle_core_connect] followed by
    [handle_core_disconnect] for a peer that is neither this peer nor a
    friend returns with the map of friends, the cells of friends and
    trails, the map of trails, the heap and the fingers as they were; and
    the random walk task is off if there is no friend left, pending if
    there is one. *)
Theorem connect_then_disconnect (peer : Z) (s : state) :
  my_identity s <> peer ->
  friends_peermap s !! peer = None ->
  friend_mem s !! next_ptr s = None ->
  exists s',
    (handle_core_connect peer;; handle_core_disconnect peer) s = Ok tt s' /\
    friends_peermap s' = friends_peermap s /\
    friend_mem s' = friend_mem s /\
    trail_mem s' = trail_mem s /\ trail_map s' = trail_map s /\
    trail_heap s' = trail_heap s /\ fingers s' = fingers s /\
    events s' = EvFreeFriend (next_ptr s) :: events s /\
    random_walk_task s'
    = if bool_decide (friends_peermap s = ∅) then None
      else Some (default 0 (random_walk_task s)).
Proof.
  intros Hme Hnew Hfresh.
  unfold handle_core_connect, handle_core_disconnect.
  unfold bind at 1. unfold bind at 1. unfold get at 1.
  rewrite (bool_decide_eq_false_2 _ Hme), Hnew.
  unfold bind at 1. unfold alloc_friend at 1.
  unfold bind at 1. unfold Wdht.modify at 1.
  unfold bind at 1. unfold get at 1.
  set (s1 := set_friends_peermap _ _).
  assert (Hs1 : exists s2, when (bool_decide (random_walk_task s1 = None))
                             (Wdht.modify (set_random_walk_task (Some 0))) s1 = Ok tt s2
                 /\ my_identity s2 = my_identity s
                 /\ friends_peermap s2 = <[peer := next_ptr s]> (friends_peermap s)
                 /\ friend_mem s2 = <[next_ptr s := {| id := peer; pred_head := None;
                        pred_tail := None; succ_head := None; succ_tail := None;
                        mq := peer |}]> (friend_mem s)
                 /\ trail_mem s2 = trail_mem s /\ trail_map s2 = trail_map s
                 /\ trail_heap s2 = trail_heap s /\ fingers s2 = fingers s
                 /\ events s2 = events s
                 /\ random_walk_task s2 = Some (default 0 (random_walk_task s))).
  { subst s1. cbn [random_walk_task set_friends_peermap set_next_ptr set_friend_mem].
    destruct (random_walk_task s) eqn:Et; cbn [when bool_decide decide_rel];
      [rewrite bool_decide_eq_false_2 by discriminate
      |rewrite bool_decide_eq_true_2 by reflexivity];
      eexists; (split; [reflexivity|]); cbn; rewrite ?Et; repeat split. }
  destruct Hs1 as (s2 & -> & Hid & Hfr & Hfm & Htm & Hmap & Hheap & Hfing & Hev & Htask).
  clearbody s1. clear s1.
  unfold bind at 1. unfold get at 1. rewrite Hid, (bool_decide_eq_false_2 _ Hme).
  rewrite Hfr, lookup_insert_eq.
  unfold bind at 1. unfold Wdht.modify at 1.
  set (s3 := set_friends_peermap _ s2).
  assert (Hl3 : forall s0 : state, friend_mem s0 = friend_mem s2 ->
                forall hd ip isu fuel,
                  disconnect_loop (S fuel) hd (Some (next_ptr s)) ip isu s0 = Ok tt s0).
  { intros s0 E hd ip isu fuel. cbn [disconnect_loop]. unfold bind, load_friend.
    rewrite E, Hfm, lookup_insert_eq. destruct hd; reflexivity. }
  unfold bind at 1. unfold get at 1. unfold bind at 1.
  rewrite (Hl3 s3 eq_refl).
  unfold bind at 1. unfold get at 1. unfold bind at 1.
  rewrite (Hl3 s3 eq_refl).
  unfold bind at 1. unfold free_friend, bind, load_friend, Wdht.log, Wdht.modify, get.
  subst s3. cbn [friend_mem set_friends_peermap]. rewrite Hfm, lookup_insert_eq.
  cbn [friends_peermap friend_mem set_friends_peermap set_friend_mem set_events
       random_walk_task when cancel_random_walk_task].
  rewrite Hfr, (delete_insert_eq (friends_peermap s)), (delete_id _ _ Hnew).
  rewrite ?Hfm, (delete_insert_eq (friend_mem s)), (delete_id _ _ Hfresh).
  destruct (decide (friends_peermap s = ∅)) as [Hempty|Hne].
  - rewrite Hempty, map_size_empty, !bool_decide_eq_true_2 by reflexivity.
    cbn [when]. unfold cancel_random_walk_task, bind, get, Wdht.modify.
    cbn [random_walk_task set_events set_friend_mem set_friends_peermap].
    rewrite Htask. eexists. split; [reflexivity|]. cbn. rewrite Htm, Hmap, Hheap, Hfing, Hev.
    repeat split.
  - rewrite (bool_decide_eq_false_2 (size _ = 0%nat))
      by (intros Hz; apply map_size_empty_iff in Hz; contradiction).
    rewrite (bool_decide_eq_false_2 _ Hne). cbn [when ret].
    eexists. split; [reflexivity|]. cbn. rewrite Htm, Hmap, Hheap, Hfing, Hev, Htask.
    repeat split.
Qed.

(** *** The expiry of trails *)

(** X11. With no trail in the heap [trail_timeout_callback] only clears
    its task; with the earliest trail of the heap not yet expired it tears
    nothing down and schedules itself for the time that trail has left. *)
Theorem trail_timeout_without_expired_trail (e : env) (s : state) :
  (trail_heap s = [] ->
   trail_timeout_callback e s = Ok tt (set_trail_timeout_task None s)) /\
  (forall q c t,
      heap_min (trail_heap s) = Some (q, c) ->
      trail_mem s !! q = Some t ->
      now e < expiration_time t ->
      trail_timeout_callback e s
      = Ok tt (set_trail_timeout_task
                 (Some (Time.absolute_get_remaining (now e) (expiration_time t))) s)).
Proof.
  split.
  - intros Hnil. unfold trail_timeout_callback, bind, Wdht.modify, get.
    cbn [trail_heap set_trail_timeout_task]. rewrite Hnil.
    cbn [length trail_timeout_loop]. unfold heap_peek, bind, get, ret.
    cbn [trail_heap set_trail_timeout_task]. rewrite Hnil. reflexivity.
  - intros q c t Hmin Hq Hlt.
    assert (Hleft : (Time.absolute_get_remaining (now e) (expiration_time t) =? 0) = false).
    { unfold Time.absolute_get_remaining.
      destruct (Z.eqb_spec (expiration_time t) Time.FOREVER); [reflexivity|].
      destruct (Z.ltb_spec (expiration_time t) (now e)); [lia|].
      apply Z.eqb_neq. lia. }
    unfold trail_timeout_callback, bind, Wdht.modify, get.
    cbn [trail_heap set_trail_timeout_task].
    destruct (trail_heap s) as [|x h] eqn:Eh; [discriminate|]. cbn [length].
    cbn [trail_timeout_loop]. unfold heap_peek, bind, get, ret.
    cbn [trail_heap set_trail_timeout_task]. rewrite ?Eh. rewrite Hmin.
    cbn [fmap option_fmap option_map fst].
    unfold load_trail. cbn [trail_mem set_trail_timeout_task].
    rewrite Hq, Hleft. reflexivity.
Qed.

#[local] Instance keeps_expiry_preorder : PreOrder keeps_expiry.
Proof.
  split.
  - intros s q t H. eauto.
  - intros s1 s2 s3 H1 H2 q t3 H. apply H2 in H as (t2 & H & E2).
    apply H1 in H as (t1 & H & E1). exists t1. split; [exact H|congruence].
Qed.

Lemma expiry_store_trail p f :
  (forall t, expiration_time (f t) = expiration_time t) ->
  respects keeps_expiry (store_trail p f).
Proof.
  intros Hf s a s'. unfold store_trail, bind, load_trail.
  destruct p as [q|]; [|discriminate].
  destruct (trail_mem s !! q) as [t|] eqn:E; [|discriminate].
  intros [= _ <-] q' t'. cbn [trail_mem set_trail_mem].
  destruct (decide (q = q')) as [<-|Hne].
  - rewrite lookup_insert_eq. intros [= <-]. exists t. split; [exact E|]. symmetry. apply Hf.
  - rewrite lookup_insert_ne by exact Hne. eauto.
Qed.

#[local] Hint Extern 1 (respects keeps_expiry (store_trail _ _)) =>
  apply expiry_store_trail; intros ?; reflexivity : wdht_respects.

Ltac expiry_tac :=
  unfold keeps_expiry;
  cbn [trail_mem set_trail_timeout_task set_random_walk_task
       set_friends_peermap set_fingers set_trail_map set_trail_heap set_walk_layer
       set_trail_mem set_friend_mem set_next_ptr set_events];
  let q := fresh in let t := fresh in let H := fresh in
  intros q t H;
  first [ solve [eauto] | apply lookup_delete_Some in H as [_ H]; solve [eauto] ].

Lemma expiry_delete_trail t ip isu : respects keeps_expiry (delete_trail t ip isu).
Proof. unfold delete_trail. respect expiry_tac. Qed.

Lemma frees_only_delete_trail q ip isu :
  respects (emits (frees_only q)) (delete_trail (Some q) ip isu).
Proof. unfold delete_trail. respect emits_tac. Qed.

Lemma trail_timeout_loop_frees_expired e fuel : forall s r s',
  trail_timeout_loop fuel e s = Ok r s' -> emits (frees_expired e s) s s'.
Proof.
  induction fuel as [|fuel IH]; intros s r s'; cbn [trail_timeout_loop];
    unfold heap_peek; unfold bind at 1; unfold bind at 1; unfold get, ret;
    (destruct (fst <$> heap_min (trail_heap s)) as [q|];
       [|intros [= _ <-]; reflexivity]);
    unfold bind at 1; unfold load_trail;
    (destruct (trail_mem s !! q) as [t|] eqn:Eq; [|discriminate]);
    (destruct (Z.eqb_spec (Time.absolute_get_remaining (now e) (expiration_time t)) 0)
       as [Hz|Hnz]; cbn [negb]; [|intros [= _ <-]; reflexivity]);
    [discriminate|].
  intros H. apply bind_inv in H as (? & s1 & Hd & H).
  pose proof (frees_only_delete_trail q true true _ _ _ Hd) as (l1 & E1 & F1).
  pose proof (expiry_delete_trail _ _ _ _ _ _ Hd) as Hk.
  apply IH in H as (l2 & E2 & F2).
  exists (l2 ++ l1). split; [rewrite E2, E1, app_assoc; reflexivity|].
  apply Forall_app. split.
  - eapply Forall_impl; [exact F2|]. intros [] Hx; cbn in *; auto.
    destruct Hx as (t1 & Ht1 & Hr). apply Hk in Ht1 as (t0 & Ht0 & E0).
    exists t0. split; [exact Ht0|]. rewrite E0. exact Hr.
  - eapply Forall_impl; [exact F1|]. intros [] Hx; cbn in *; auto.
    subst. eauto.
Qed.

(** X12. The expiry task tears down only trails whose time is up: every
    trail that [trail_timeout_callback] has released when it returns was a
    trail of the state it started in, with an expiration time that is not
    "forever" and not after the current time. *)
Theorem only_expired_trails_are_torn_down (e : env) (s s' : state) :
  trail_timeout_callback e s = Ok tt s' ->
  exists l, events s' = l ++ events s /\
    forall q, In (EvFreeTrail q) l ->
      exists t, trail_mem s !! q = Some t /\
                expiration_time t <> Time.FOREVER /\ expiration_time t <= now e.
Proof.
  intros H. unfold trail_timeout_callback in H.
  apply bind_inv in H as (u & s0 & Hm & H). injection Hm as _ <-.
  apply bind_inv in H as (s0' & s0'' & Hg & H). injection Hg as <- <-.
  apply bind_inv in H as (r & s1 & Hloop & H).
  apply trail_timeout_loop_frees_expired in Hloop as (l & El & Fl).
  assert (Ev : events s' = events s1).
  { destruct r.1; revert H; [intros [= <-]|intros [= <-]]; reflexivity. }
  exists l. split; [rewrite Ev, El; reflexivity|].
  intros q Hin. rewrite Forall_forall in Fl. apply list_elem_of_In, Fl in Hin.
  destruct Hin as (t & Ht & Hr). exists t. split; [exact Ht|].
  revert Hr. unfold Time.absolute_get_remaining.
  destruct (Z.eqb_spec (expiration_time t) Time.FOREVER) as [->|Hne].
  - discriminate.
  - destruct (Z.ltb_spec (expiration_time t) (now e)); intros; split; auto; lia.
Qed.

(** *** What [delete_trail] does take the trail out of *)

Lemma anchors_store_trail p f :
  (forall t, anchor (f t) = anchor t) -> respects (same anchors) (store_trail p f).
Proof.
  intros Hf s a s'. unfold store_trail, bind, load_trail.
  destruct p as [q|]; [|discriminate].
  destruct (trail_mem s !! q) as [t|] eqn:E; [|discriminate].
  intros [= _ <-]. unfold same, anchors. cbn [trail_mem set_trail_mem].
  rewrite fmap_insert. apply insert_id. rewrite lookup_fmap, E. cbn. rewrite Hf.
  reflexivity.
Qed.

#[local] Hint Extern 1 (respects (same anchors) (store_trail _ _)) =>
  apply anchors_store_trail; intros ?; reflexivity : wdht_respects.

Lemma anchors_MDLL_remove m hd f e : respects (same anchors) (MDLL_remove m hd f e).
Proof. unfold MDLL_remove. respect ltac:(reflexivity). Qed.

#[local] Hint Resolve anchors_MDLL_remove : wdht_respects.

Lemma load_trail_inv p s t s' :
  load_trail p s = Ok t s' -> s' = s /\ exists q, p = Some q /\ trail_mem s !! q = Some t.
Proof.
  unfold load_trail. destruct p as [q|]; [|discriminate].
  destruct (trail_mem s !! q) eqn:E; [|discriminate]. intros [= <- <-]. eauto.
Qed.

Lemma load_finger_inv i off s f s' :
  load_finger i off s = Ok f s' ->
  s' = s /\ exists j tbl, i = Some j /\ fingers s !! j = Some tbl /\
                          ft_fingers tbl !! off = Some f.
Proof.
  unfold load_finger, bind, load_ft. destruct i as [j|]; [|discriminate].
  destruct (fingers s !! j) as [tbl|] eqn:E; [|discriminate].
  destruct (ft_fingers tbl) as [|x l] eqn:El; [discriminate|]. rewrite <- El.
  destruct (ft_fingers tbl !! off) eqn:Eo; [|discriminate].
  intros [= <- <-]. eauto 10.
Qed.

(** X13. What [delete_trail] does take the trail out of: whenever it
    returns, the node of the trail is gone from the expiration heap, the
    slot of its finger in the finger table holds [NULL], and the cell of the
    trail is released. *)
Theorem delete_trail_unlinks_heap_and_finger (q : nat) (t : Trail)
    (inform_pred inform_succ : bool) (s s' : state) :
  trail_mem s !! q = Some t ->
  delete_trail (Some q) inform_pred inform_succ s = Ok tt s' ->
  exists n i tbl,
    hn t = Some n /\ ft t = Some i /\
    trail_heap s' = filter (fun x => x.1 ≠ n) (trail_heap s) /\
    fingers s' !! i = Some tbl /\ ft_fingers tbl !! finger_off t = Some None /\
    trail_mem s' !! q = None.
Proof.
  intros Hq H. unfold delete_trail in H.
  apply bind_inv in H as (t0 & s0 & H0 & H).
  apply load_trail_inv in H0 as [-> (? & [= <-] & H0)].
  assert (t0 = t) as -> by congruence. clear H0.
  apply bind_inv in H as (? & s1 & H1 & H).
  apply bind_inv in H as (t1 & s2 & H2 & H).
  apply load_trail_inv in H2 as [-> _].
  apply bind_inv in H as (? & s3 & H3 & H).
  apply bind_inv in H as (t2 & s4 & H4 & H).
  apply load_trail_inv in H4 as [-> (? & [= <-] & H4)].
  apply bind_inv in H as (r & s5 & H5 & H).
  apply bind_inv in H as (? & s6 & H6 & H).
  apply bind_inv in H as (finger & s7 & H7 & H).
  apply bind_inv in H as (? & s8 & H8 & H9).
  (* the anchors of the trail are those it had *)
  assert (Ha : anchor t2 = anchor t).
  { assert (A1 : respects (same anchors)
                   (match pred t with
                    | Some _ =>
                        when inform_pred
                          (send_to (pred t) (MsgTrailDestroy {| td_trail_id := pred_id t |}));;
                        MDLL_remove PRED PRED (pred t) q
                    | None => ret tt
                    end)) by respect ltac:(reflexivity).
    assert (A3 : respects (same anchors)
                   (match succ t1 with
                    | Some _ =>
                        when inform_succ
                          (send_to (succ t1) (MsgTrailDestroy {| td_trail_id := pred_id t1 |}));;
                        MDLL_remove SUCC PRED (succ t1) q
                    | None => ret tt
                    end)) by respect ltac:(reflexivity).
    pose proof (A1 _ _ _ H1) as B1. pose proof (A3 _ _ _ H3) as B3.
    unfold same, anchors in B1, B3.
    assert (E : anchor <$> (trail_mem s3 !! q) = anchor <$> (trail_mem s !! q)).
    { rewrite <- !lookup_fmap. congruence. }
    rewrite H4, Hq in E. cbn [fmap option_fmap option_map] in E. congruence. }
  unfold anchor in Ha. injection Ha as Hhn Hft Hoff.
  (* the heap *)
  assert (Hheap13 : trail_heap s3 = trail_heap s).
  { match type of H1 with ?m _ = _ =>
      assert (P1 : preserves trail_heap m) by frame; apply P1 in H1 end.
    match type of H3 with ?m _ = _ =>
      assert (P3 : preserves trail_heap m) by frame; apply P3 in H3 end.
    congruence. }
  assert (Hheap5 : exists n, hn t2 = Some n /\
                             trail_heap s5 = filter (fun x => x.1 ≠ n) (trail_heap s3)).
  { revert H5. unfold heap_remove_node. destruct (hn t2) as [n|]; [|intros [=]].
    unfold bind, get, Wdht.modify, ret, crash.
    destruct (bool_decide (n ∈ (trail_heap s3).*1)); [|intros [=]].
    intros [= _ <-]. eauto. }
  destruct Hheap5 as (n & Hn & Hheap5).
  apply load_finger_inv in H7 as [-> (i & tbl & Hi & Htbl & Hslot)].
  exists n, i. 
  assert (Hfing6 : fingers s6 = fingers s5 /\ trail_heap s6 = trail_heap s5).
  { revert H6. unfold GNUNET_break, ret, Wdht.log, Wdht.modify.
    destruct (bool_decide (r = Some q)); intros [= _ <-]; auto. }
  assert (H8' : trail_heap s8 = trail_heap s6 /\
                exists tbl', fingers s8 !! i = Some tbl' /\
                             ft_fingers tbl' !! finger_off t2 = Some None).
  { destruct finger as [f|].
    - split.
      + assert (P : preserves trail_heap
                      (store_finger (ft t2) (finger_off t2) None;;
                       store_ft (ft t2) (fun x =>
                         set_number_valid_fingers (uint (number_valid_fingers x - 1)) x);;
                       Wdht.log (EvFreeFinger (default 0%nat (ft t2)) (finger_off t2))))
          by frame.
        apply P in H8. exact H8.
      + revert H8. rewrite Hi. unfold store_finger, store_ft, load_finger, load_ft, bind.
        rewrite Htbl.
        destruct (ft_fingers tbl) as [|y l] eqn:El; [discriminate|].
        rewrite Hslot. unfold ret, Wdht.modify, Wdht.log, Wdht.modify.
        rewrite ?Htbl. cbn [fingers set_fingers]. rewrite list_lookup_insert_eq
          by (apply lookup_lt_Some in Htbl; exact Htbl).
        cbn [fingers set_fingers set_events]. intros Hs8. injection Hs8 as _ Hs8.
        rewrite <- Hs8. cbn [fingers set_fingers set_events]. eexists. split.
        * apply list_lookup_insert_eq. rewrite length_insert.
          apply lookup_lt_Some in Htbl. exact Htbl.
        * cbn [ft_fingers set_number_valid_fingers set_ft_fingers].
          apply list_lookup_insert_eq. apply lookup_lt_Some in Hslot.
          rewrite El. exact Hslot.
    - unfold ret in H8. injection H8 as _ <-. split; [reflexivity|]. eauto. }
  destruct H8' as (Hheap8 & tbl' & Htbl' & Hslot').
  exists tbl'.
  assert (H9' : trail_heap s' = trail_heap s8 /\ fingers s' = fingers s8 /\
                trail_mem s' !! q = None).
  { revert H9. unfold free_trail, bind, load_trail.
    destruct (trail_mem s8 !! q); [|discriminate].
    unfold Wdht.modify, Wdht.log, Wdht.modify. intros [= <-].
    cbn [trail_heap fingers trail_mem set_events set_trail_mem].
    split; [reflexivity|]. split; [reflexivity|]. apply lookup_delete_eq. }
  destruct H9' as (Hheap9 & Hfing9 & Hgone).
  split; [congruence|]. split; [congruence|].
  split; [rewrite Hheap9, Hheap8, (proj2 Hfing6), Hheap5, Hheap13; reflexivity|].
  split; [rewrite Hfing9; exact Htbl'|]. split; [rewrite <- Hoff; exact Hslot'|exact Hgone].
Qed.

(** *** What [delete_trail] sends *)

Lemma sides_store_trail p f :
  (forall t, side (f t) = side t) -> respects (same sides) (store_trail p f).
Proof.
  intros Hf s a s'. unfold store_trail, bind, load_trail.
  destruct p as [q|]; [|discriminate].
  destruct (trail_mem s !! q) as [t|] eqn:E; [|discriminate].
  intros [= _ <-]. unfold same, sides. cbn [trail_mem set_trail_mem].
  rewrite fmap_insert. apply insert_id. rewrite lookup_fmap, E. cbn. rewrite Hf.
  reflexivity.
Qed.

Lemma queues_store_friend p f :
  (forall x, mq (f x) = mq x) -> respects (same queues) (store_friend p f).
Proof.
  intros Hf s a s'. unfold store_friend, bind, load_friend.
  destruct p as [q|]; [|discriminate].
  destruct (friend_mem s !! q) as [t|] eqn:E; [|discriminate].
  intros [= _ <-]. unfold same, queues. cbn [friend_mem set_friend_mem].
  rewrite fmap_insert. apply insert_id. rewrite lookup_fmap, E. cbn. rewrite Hf.
  reflexivity.
Qed.

#[local] Hint Extern 1 (respects (same sides) (store_trail _ _)) =>
  apply sides_store_trail; intros ?; reflexivity : wdht_respects.
#[local] Hint Extern 1 (respects (same queues) (store_friend _ _)) =>
  apply queues_store_friend; intros ?; reflexivity : wdht_respects.

Lemma sides_MDLL_remove m hd f e : respects (same sides) (MDLL_remove m hd f e).
Proof. unfold MDLL_remove. respect ltac:(reflexivity). Qed.

Lemma queues_MDLL_remove m hd f e : respects (same queues) (MDLL_remove m hd f e).
Proof. unfold MDLL_remove. respect ltac:(reflexivity). Qed.

Lemma events_MDLL_remove m hd f e : respects (same events) (MDLL_remove m hd f e).
Proof. unfold MDLL_remove. respect ltac:(reflexivity). Qed.

Lemma sent_app l1 l2 : sent (l1 ++ l2) = sent l1 ++ sent l2.
Proof. apply omap_app. Qed.

Lemma sent_no_send l : Forall no_send l -> sent l = [].
Proof.
  induction 1 as [|e l He _ IH]; [reflexivity|].
  destruct e; cbn in *; try contradiction; exact IH.
Qed.

Lemma queue_of_queues s s' friend :
  queues s' = queues s -> queue_of s' friend = queue_of s friend.
Proof.
  intros E. unfold queue_of. destruct friend as [f|]; [|reflexivity]. cbn.
  rewrite <- !lookup_fmap. fold (queues s') (queues s). rewrite E. reflexivity.
Qed.

(** One side of the trail: the notification if it was asked for, and the
    trail taken off the friend's list. *)
Lemma delete_trail_side (inform : bool) (friend : option nat) (trail_id : Z)
    (q : nat) (m hd : mdll) (s s1 : state) :
  match friend with
  | None => ret tt
  | Some _ =>
      when inform (send_to friend (MsgTrailDestroy {| td_trail_id := trail_id |}));;
      MDLL_remove m hd friend q
  end s = Ok tt s1 ->
  sides s1 = sides s /\ queues s1 = queues s /\
  exists l, events s1 = l ++ events s /\
            sent l = notification s inform friend trail_id /\
            Forall delete_trail_event l.
Proof.
  destruct friend as [f|].
  - intros H. apply bind_inv in H as ([] & s0 & H0 & H).
    pose proof (sides_MDLL_remove _ _ _ _ _ _ _ H) as Hs.
    pose proof (queues_MDLL_remove _ _ _ _ _ _ _ H) as Hq.
    pose proof (events_MDLL_remove _ _ _ _ _ _ _ H) as He.
    unfold same in Hs, Hq, He. rewrite Hs, Hq, He. clear H Hs Hq He.
    destruct inform; cbn [when] in H0.
    + revert H0. unfold send_to, bind, load_friend, notification, queue_of. cbn.
      destruct (friend_mem s !! f) as [x|] eqn:E; [|discriminate].
      unfold Wdht.log, Wdht.modify. intros [= <-].
      split; [reflexivity|]. split; [reflexivity|].
      exists [EvSend (mq x) (MsgTrailDestroy {| td_trail_id := trail_id |})].
      split; [reflexivity|]. split; [reflexivity|]. repeat constructor.
    + injection H0 as <-. split; [reflexivity|]. split; [reflexivity|].
      exists []. split; [reflexivity|]. split; [reflexivity|constructor].
  - intros [= <-]. split; [reflexivity|]. split; [reflexivity|].
    exists []. split; [reflexivity|]. split; [destruct inform; reflexivity|constructor].
Qed.

(** X7. What [delete_trail] sends, whenever it returns: a TRAIL_DESTROY to
    the queue of the predecessor if the trail has one and [inform_pred] is
    set, then a TRAIL_DESTROY to the queue of the successor if the trail has
    one and [inform_succ] is set, both carrying [pred_id], and no other
    message.  So no side is notified that was not to be informed, and with
    both flags off nothing is sent.  Whatever else is logged is a
    [GNUNET_break] or the release of the finger and of the trail. *)
Theorem delete_trail_informs_only_on_request (q : nat) (t : Trail)
    (inform_pred inform_succ : bool) (s s' : state) :
  trail_mem s !! q = Some t ->
  delete_trail (Some q) inform_pred inform_succ s = Ok tt s' ->
  exists l, events s' = l ++ events s /\
            sent l = notification s inform_succ (succ t) (pred_id t)
                     ++ notification s inform_pred (pred t) (pred_id t) /\
            Forall delete_trail_event l.
Proof.
  intros Hq H. unfold delete_trail in H.
  apply bind_inv in H as (t0 & s0 & H0 & H).
  apply load_trail_inv in H0 as [-> (? & [= <-] & H0)].
  assert (t0 = t) as -> by congruence. clear H0.
  apply bind_inv in H as ([] & s1 & H1 & H).
  apply bind_inv in H as (t1 & s2 & H2 & H).
  apply load_trail_inv in H2 as [-> (? & [= <-] & H2)].
  apply bind_inv in H as ([] & s3 & H3 & H).
  apply delete_trail_side in H1 as (Hs1 & Hq1 & l1 & He1 & Hn1 & Hl1).
  apply delete_trail_side in H3 as (_ & _ & l3 & He3 & Hn3 & Hl3).
  assert (Ht : side t1 = side t).
  { assert (E : side <$> (trail_mem s1 !! q) = side <$> (trail_mem s !! q)).
    { rewrite <- !lookup_fmap. fold (sides s1) (sides s). rewrite Hs1. reflexivity. }
    rewrite H2, Hq in E. cbn [fmap option_fmap option_map] in E. congruence. }
  unfold side in Ht. injection Ht as Hpred Hsucc Hid.
  assert (Hn3' : sent l3 = notification s inform_succ (succ t) (pred_id t)).
  { rewrite Hn3, Hsucc, Hid. unfold notification.
    rewrite (queue_of_queues _ _ _ Hq1). reflexivity. }
  assert (Hrest : exists l, events s' = l ++ events s3 /\ Forall no_send l /\
                            Forall delete_trail_event l).
  { match type of H with
    | ?m _ = _ =>
        assert (A : respects (emits (fun e => no_send e /\ delete_trail_event e)) m)
          by respect emits_tac
    end.
    apply A in H as (l & E & Hl). exists l. split; [exact E|].
    split; (eapply Forall_impl; [exact Hl|]); intros e [? ?]; assumption. }
  destruct Hrest as (l & He & Hns & Hl).
  exists (l ++ l3 ++ l1). split.
  - rewrite He, He3, He1, <- !app_assoc. reflexivity.
  - split.
    + rewrite !sent_app, (sent_no_send _ Hns), Hn3', Hn1. reflexivity.
    + repeat (apply Forall_app; split); assumption.
Qed.

(** *** Messages on their way along a trail *)

Lemma well_framed_length buf : well_framed buf -> Z.of_nat (length buf) < 65536.
Proof. intros H. apply get_u16_range in H. lia. Qed.

Lemma trail_route_accepts peer buf pl ps s :
  well_framed buf -> parsed buf pl ps ->
  handle_dht_p2p_trail_route peer buf s = route_or_dispatch peer buf pl s.
Proof.
  intros Hwf [H1 H2 H3 H4 H5]. unfold well_framed in Hwf.
  revert H1 H2 H3 H4. unfold handle_dht_p2p_trail_route.
  change sizeof_TrailRouteMessage with 72. change sizeof_MessageHeader with 4.
  change sizeof_PeerIdentity with 32. change (4 + 2) with 6. intros H1 H2 H3 H4.
  rewrite (bind_Ok _ _ _ _ _ (eq_trans (read_u16_spec buf 0 s) ltac:(rewrite Hwf; reflexivity))).
  destruct (Z.ltb_spec (Z.of_nat (length buf)) 72) as [Hlt|_]; [lia|].
  rewrite (bind_Ok _ _ _ _ _ (eq_trans (read_u16_spec buf 6 s) ltac:(rewrite H1; reflexivity))).
  destruct (Z.ltb_spec (Z.of_nat (length buf)) (72 + pl * 32 + 4)) as [Hlt|_]; [lia|].
  rewrite (bind_Ok _ _ _ _ _ (eq_trans (read_u16_spec buf (72 + pl * 32) s)
                                 ltac:(rewrite H2; reflexivity))).
  destruct (Z.eqb_spec (Z.of_nat (length buf)) (ps + 72 + pl * 32)) as [_|Hne]; [|lia].
  reflexivity.
Qed.

Lemma forward_message_on_trail_ok buf pl ps fs g tid have_path predecessor s :
  well_framed buf -> parsed buf pl ps ->
  friend_mem s !! fs = Some g ->
  0 <= have_path < 65536 ->
  exists m l,
    forward_message_on_trail (Some fs) tid have_path predecessor buf
      sizeof_TrailRouteMessage pl (sizeof_TrailRouteMessage + pl * sizeof_PeerIdentity) s
    = Ok tt (set_events (EvSend (mq g) (MsgTrailRoute m) :: l ++ events s) s) /\
    Forall (eq EvBreakOp) l /\
    tr_trail_id m = tid /\
    tr_payload m
    = take (Z.to_nat ps)
        (drop (Z.to_nat (sizeof_TrailRouteMessage + pl * sizeof_PeerIdentity)) buf) /\
    sizeof_TrailRouteMessage + tr_path_length m * sizeof_PeerIdentity + ps
    < GNUNET_SERVER_MAX_MESSAGE_SIZE /\
    ((tr_record_path m = 0 /\ tr_path_length m = 0 /\ tr_path m = [] /\
      tr_appended m = None) \/
     (have_path <> 0 /\ tr_record_path m = have_path /\ tr_path_length m = pl + 1 /\
      tr_path m = take (Z.to_nat (pl * sizeof_PeerIdentity))
                    (drop (Z.to_nat sizeof_TrailRouteMessage) buf) /\
      tr_appended m = Some predecessor)).
Proof.
  intros Hwf [H1 H2 H3 H4 H5] Hg Hhp. apply well_framed_length in Hwf.
  pose proof (get_u16_range _ _ _ H1) as Hpl.
  revert H1 H2 H3 H4. unfold forward_message_on_trail.
  change GNUNET_SERVER_MAX_MESSAGE_SIZE with 65536.
  change sizeof_TrailRouteMessage with 72. change sizeof_MessageHeader with 4.
  change sizeof_PeerIdentity with 32. intros H1 H2 H3 H4.
  rewrite (bind_Ok _ _ _ _ _ (eq_trans (read_u16_spec buf (72 + pl * 32) s)
                                 ltac:(rewrite H2; reflexivity))).
  assert (Hbody : forall s0, read_bytes buf (72 + pl * 32) ps s0
            = Ok (take (Z.to_nat ps) (drop (Z.to_nat (72 + pl * 32)) buf)) s0)
    by (intros; apply read_bytes_ok; lia).
  assert (Hpath : forall s0, read_bytes buf 72 (pl * 32) s0
            = Ok (take (Z.to_nat (pl * 32)) (drop (Z.to_nat 72) buf)) s0)
    by (intros; apply read_bytes_ok; lia).
  assert (Hsend : forall m s0, friend_mem s0 = friend_mem s ->
            send_to (Some fs) m s0 = Ok tt (set_events (EvSend (mq g) m :: events s0) s0)).
  { intros m s0 E. unfold send_to, bind, load_friend. rewrite E, Hg. reflexivity. }
  assert (Hsz : size_t (65536 - ps - 72) = 65536 - ps - 72).
  { unfold size_t. apply Z.mod_small. lia. }
  assert (Hu : uint (pl + 1) = pl + 1).
  { unfold uint. apply Z.mod_small. lia. }
  destruct (Z.eqb_spec have_path 0) as [->|Hne]; cbn [negb].
  - (* no path asked for *)
    destruct (Z.eqb_spec pl 0) as [->|Hpl0].
    + eexists _, []. unfold GNUNET_break_op, bind, ret.
      change (0 =? 0) with true. cbn [negb].
      rewrite Hbody, Hsend by reflexivity. split; [reflexivity|].
      split; [constructor|]. cbn [tr_trail_id tr_payload tr_path_length tr_record_path tr_path tr_appended].
      split; [reflexivity|]. split; [reflexivity|].
      split; [change (0 mod 65536) with 0; lia|].
      left. repeat split.
    + eexists _, [EvBreakOp]. unfold GNUNET_break_op, bind, ret, Wdht.log, Wdht.modify.
      change (0 =? 0) with true. cbn [negb].
      rewrite Hbody, Hsend by reflexivity. split; [reflexivity|].
      split; [repeat constructor|]. cbn [tr_trail_id tr_payload tr_path_length tr_record_path tr_path tr_appended].
      split; [reflexivity|]. split; [reflexivity|].
      split; [change (0 mod 65536) with 0; lia|].
      left. repeat split.
  - rewrite Hu, Hsz.
    destruct (Z.geb_spec (pl + 1) ((65536 - ps - 72) / 32)) as [Hover|Hfits].
    + (* the longer path does not fit *)
      eexists _, [EvBreakOp]. unfold GNUNET_break_op, bind, ret, Wdht.log, Wdht.modify.
      change (0 =? 0) with true. cbn [negb].
      rewrite Hbody, Hsend by reflexivity. split; [reflexivity|].
      split; [repeat constructor|]. cbn [tr_trail_id tr_payload tr_path_length tr_record_path tr_path tr_appended].
      split; [reflexivity|]. split; [reflexivity|].
      split; [change (0 mod 65536) with 0; lia|].
      left. repeat split.
    + (* the path is taken along, the sender appended *)
      eexists _, []. unfold bind, ret.
      rewrite (proj2 (Z.eqb_neq have_path 0) Hne). cbn [negb].
      rewrite Hpath, Hbody, Hsend by reflexivity. split; [reflexivity|].
      split; [constructor|].
      assert (Hdiv : 32 * (pl + 1) < 65536 - ps - 72).
      { pose proof (Z.mul_div_le (65536 - ps - 72) 32 ltac:(lia)). lia. }
      cbn [tr_trail_id tr_payload tr_path_length tr_record_path tr_path tr_appended].
      rewrite (Z.mod_small (pl + 1)) by lia. rewrite (Z.mod_small have_path) by lia.
      split; [reflexivity|]. split; [reflexivity|]. split; [lia|].
      right. repeat split. exact Hne.
Qed.

(** X14. [forward_message_on_trail], given a message that passed the size
    checks: one TRAIL_ROUTE message goes to the queue of the next hop,
    under the trail identifier given, and with the payload of the received
    message as it is.  If a path is recorded and the path longer by one
    entry fits, the path of the received message is taken along, the sender
    appended and the path length is one more; in every other case no path
    is sent, the path length is zero and recording is off.  A protocol
    violation is logged exactly when a recorded path does not fit or when a
    path comes with a message that records none.  The message sent is
    shorter than 64k, and nothing but the log changes. *)
Theorem forward_message_on_trail_sends_payload_on (buf : list Byte.byte) (pl ps : Z)
    (fs : nat) (g : FriendInfo) (tid have_path predecessor : Z) (s : state) :
  well_framed buf -> parsed buf pl ps ->
  friend_mem s !! fs = Some g ->
  0 <= have_path < 65536 ->
  let payload :=
    take (Z.to_nat ps)
      (drop (Z.to_nat (sizeof_TrailRouteMessage + pl * sizeof_PeerIdentity)) buf) in
  let fits :=
    pl + 1 <? (GNUNET_SERVER_MAX_MESSAGE_SIZE - ps - sizeof_TrailRouteMessage)
              / sizeof_PeerIdentity in
  let m :=
    if negb (have_path =? 0) && fits
    then {| tr_record_path := have_path; tr_path_length := pl + 1;
            tr_trail_id := tid;
            tr_path := take (Z.to_nat (pl * sizeof_PeerIdentity))
                         (drop (Z.to_nat sizeof_TrailRouteMessage) buf);
            tr_appended := Some predecessor; tr_payload := payload |}
    else {| tr_record_path := 0; tr_path_length := 0; tr_trail_id := tid;
            tr_path := []; tr_appended := None; tr_payload := payload |} in
  let violation := if have_path =? 0 then negb (pl =? 0) else negb fits in
  forward_message_on_trail (Some fs) tid have_path predecessor buf
    sizeof_TrailRouteMessage pl (sizeof_TrailRouteMessage + pl * sizeof_PeerIdentity) s
  = Ok tt (set_events (EvSend (mq g) (MsgTrailRoute m)
                         :: (if violation then [EvBreakOp] else []) ++ events s) s) /\
  sizeof_TrailRouteMessage + tr_path_length m * sizeof_PeerIdentity + ps
  < GNUNET_SERVER_MAX_MESSAGE_SIZE.
Proof.
  intros Hwf [H1 H2 H3 H4 H5] Hg Hhp. apply well_framed_length in Hwf.
  pose proof (get_u16_range _ _ _ H1) as Hpl.
  revert H1 H2 H3 H4. unfold forward_message_on_trail.
  change GNUNET_SERVER_MAX_MESSAGE_SIZE with 65536.
  change sizeof_TrailRouteMessage with 72. change sizeof_MessageHeader with 4.
  change sizeof_PeerIdentity with 32. intros H1 H2 H3 H4. cbv zeta.
  rewrite (bind_Ok _ _ _ _ _ (eq_trans (read_u16_spec buf (72 + pl * 32) s)
                                 ltac:(rewrite H2; reflexivity))).
  assert (Hbody : forall s0, read_bytes buf (72 + pl * 32) ps s0
            = Ok (take (Z.to_nat ps) (drop (Z.to_nat (72 + pl * 32)) buf)) s0)
    by (intros; apply read_bytes_ok; lia).
  assert (Hpath : forall s0, read_bytes buf 72 (pl * 32) s0
            = Ok (take (Z.to_nat (pl * 32)) (drop (Z.to_nat 72) buf)) s0)
    by (intros; apply read_bytes_ok; lia).
  assert (Hsend : forall m s0, friend_mem s0 = friend_mem s ->
            send_to (Some fs) m s0 = Ok tt (set_events (EvSend (mq g) m :: events s0) s0)).
  { intros m s0 E. unfold send_to, bind, load_friend. rewrite E, Hg. reflexivity. }
  assert (Hsz : size_t (65536 - ps - 72) = 65536 - ps - 72).
  { unfold size_t. apply Z.mod_small. lia. }
  assert (Hu : uint (pl + 1) = pl + 1).
  { unfold uint. apply Z.mod_small. lia. }
  destruct (Z.eqb_spec have_path 0) as [->|Hne]; cbn [negb andb].
  - (* no path asked for *)
    destruct (Z.eqb_spec pl 0) as [->|Hpl0]; cbn [negb];
      unfold GNUNET_break_op, bind, ret, Wdht.log, Wdht.modify;
      change (0 =? 0) with true; cbn [negb];
      rewrite Hbody, Hsend by reflexivity;
      (split; [reflexivity|]); cbn [tr_path_length]; lia.
  - rewrite Hu, Hsz. rewrite Z.geb_leb.
    rewrite (Z.ltb_antisym ((65536 - ps - 72) / 32) (pl + 1)).
    destruct (Z.leb_spec ((65536 - ps - 72) / 32) (pl + 1)) as [Hover|Hfits];
      cbn [negb].
    + (* the longer path does not fit *)
      unfold GNUNET_break_op, bind, ret, Wdht.log, Wdht.modify.
      change (0 =? 0) with true. cbn [negb].
      rewrite Hbody, Hsend by reflexivity.
      split; [reflexivity|]. cbn [tr_path_length]. lia.
    + (* the path is taken along, the sender appended *)
      unfold bind, ret.
      rewrite (proj2 (Z.eqb_neq have_path 0) Hne). cbn [negb].
      rewrite Hpath, Hbody, Hsend by reflexivity.
      assert (Hdiv : 32 * (pl + 1) < 65536 - ps - 72).
      { pose proof (Z.mul_div_le (65536 - ps - 72) 32 ltac:(lia)). lia. }
      rewrite (Z.mod_small (pl + 1)) by lia. rewrite (Z.mod_small have_path) by lia.
      split; [reflexivity|]. cbn [tr_path_length]. lia.
Qed.

(** X15. A TRAIL_ROUTE message that passed the size checks, on a trail
    with a friend on either side: if it comes from the predecessor it goes
    on to the successor under the successor's trail identifier; if it comes
    from anyone else it goes to the predecessor under the predecessor's
    identifier, and if the sender is not the successor either this is
    logged as a protocol violation (the message is still sent on).  In all
    cases the payload is sent on as it is, the handler returns [GNUNET_OK]
    and nothing but the log changes. *)
Theorem trail_route_relays (peer : Z) (buf : list Byte.byte) (pl ps : Z) (s : state)
    (q : nat) (t : Trail) (fp fs : nat) (f g : FriendInfo) :
  well_framed buf -> parsed buf pl ps ->
  trail_map s !! be_value (take (Z.to_nat sizeof_HashCode)
                             (drop (Z.to_nat (sizeof_MessageHeader + 4)) buf)) = Some q ->
  trail_mem s !! q = Some t ->
  pred t = Some fp -> friend_mem s !! fp = Some f ->
  succ t = Some fs -> friend_mem s !! fs = Some g ->
  exists m l,
    handle_dht_p2p_trail_route peer buf s
    = Ok GNUNET_OK
        (set_events (EvSend (if bool_decide (peer = id f) then mq g else mq f)
                       (MsgTrailRoute m) :: l ++ events s) s) /\
    Forall (eq EvBreakOp) l /\
    tr_trail_id m = (if bool_decide (peer = id f) then succ_id t else pred_id t) /\
    tr_payload m
    = take (Z.to_nat ps)
        (drop (Z.to_nat (sizeof_TrailRouteMessage + pl * sizeof_PeerIdentity)) buf) /\
    (peer <> id f -> peer <> id g -> In EvBreakOp l).
Proof.
  intros Hwf Hp Hmap Hmem Hpred Hf Hsucc Hg.
  rewrite (trail_route_accepts peer buf pl ps s Hwf Hp).
  pose proof Hp as [H1 H2 H3 H4 H5].
  pose proof (well_framed_length _ Hwf) as Hlen.
  assert (Hid : forall s0, read_be buf (sizeof_MessageHeader + 4) sizeof_HashCode s0
            = Ok (be_value (take (Z.to_nat sizeof_HashCode)
                              (drop (Z.to_nat (sizeof_MessageHeader + 4)) buf))) s0).
  { intros s0. unfold read_be, bind. rewrite read_bytes_ok; [reflexivity|..];
      revert H3 H4; change sizeof_TrailRouteMessage with 72;
      change sizeof_MessageHeader with 4; change sizeof_PeerIdentity with 32;
      change sizeof_HashCode with 64; lia. }
  assert (Hrp : exists rp, 0 <= rp < 65536 /\
            forall s0, read_u16 buf sizeof_MessageHeader s0 = Ok rp s0).
  { destruct (get_u16_is_Some buf sizeof_MessageHeader) as [rp Hrp].
    - change sizeof_MessageHeader with 4. lia.
    - revert H3 H4. change sizeof_TrailRouteMessage with 72.
      change sizeof_MessageHeader with 4. change sizeof_PeerIdentity with 32. lia.
    - exists rp. split; [eapply get_u16_range; exact Hrp|].
      intros s0. rewrite read_u16_spec, Hrp. reflexivity. }
  destruct Hrp as (rp & Hrange & Hrp).
  unfold route_or_dispatch. cbv zeta.
  rewrite (bind_Ok _ _ _ _ _ (Hid s)). rewrite (bind_Ok _ _ _ _ _ (Hrp s)).
  unfold multihashmap_get. unfold bind at 1. unfold bind at 1. unfold get at 1.
  unfold ret at 1. rewrite Hmap.
  unfold bind at 1. unfold load_trail at 1. rewrite Hmem.
  rewrite Hpred, Hsucc.
  unfold bind at 1. unfold bind at 1. unfold load_friend at 1. rewrite Hf.
  unfold ret at 1.
  destruct (bool_decide_reflect (peer = id f)) as [Hfrom|Hfrom].
  - (* from the predecessor: on to the successor *)
    destruct (forward_message_on_trail_ok buf pl ps fs g (succ_id t) rp peer s
                Hwf Hp Hg Hrange) as (m & l & Hfw & Hl & Hm1 & Hm2 & _).
    exists m, l. unfold bind at 1. unfold bind at 1. rewrite Hfw.
    split; [reflexivity|]. split; [exact Hl|]. split; [exact Hm1|].
    split; [exact Hm2|]. intros Hx. contradiction.
  - (* from anyone else: on to the predecessor *)
    unfold bind at 1. unfold bind at 1. unfold bind at 1. unfold bind at 1.
    unfold load_friend at 1. rewrite Hg. unfold ret at 1.
    destruct (bool_decide_reflect (peer = id g)) as [Hs|Hs].
    + unfold GNUNET_break_op at 1. unfold ret at 1.
      destruct (forward_message_on_trail_ok buf pl ps fp f (pred_id t) rp peer s
                  Hwf Hp Hf Hrange) as (m & l & Hfw & Hl & Hm1 & Hm2 & _).
      exists m, l. unfold bind at 1. unfold bind at 1. rewrite Hfw.
      split; [reflexivity|]. split; [exact Hl|]. split; [exact Hm1|].
      split; [exact Hm2|]. intros _ Hx. contradiction.
    + unfold GNUNET_break_op at 1. unfold Wdht.log at 1. unfold Wdht.modify at 1.
      set (s1 := set_events (EvBreakOp :: events s) s).
      destruct (forward_message_on_trail_ok buf pl ps fp f (pred_id t) rp peer s1
                  Hwf Hp Hf Hrange) as (m & l & Hfw & Hl & Hm1 & Hm2 & _).
      exists m, (l ++ [EvBreakOp]). unfold bind at 1. unfold bind at 1. rewrite Hfw.
      split.
      * subst s1. cbn [events set_events]. rewrite <- app_assoc. reflexivity.
      * split; [apply Forall_app; split; [exact Hl|repeat constructor]|].
        split; [exact Hm1|]. split; [exact Hm2|].
        intros _ _. apply in_or_app. right. left. reflexivity.
Qed.

(** *** Responses to random walks *)

(** X16. [handle_dht_p2p_random_walk_response] passes a response along:
    on a trail with a predecessor the response goes to the predecessor's
    queue, under the predecessor's trail identifier and with the location
    as received, and nothing else changes; a response for a trail
    identifier that is not in the map is dropped without a trace. *)
Theorem random_walk_response_is_relayed (peer : Z) (rwrm : RandomWalkResponseMessage)
    (s : state) :
  (trail_map s !! rwr_trail_id rwrm = None ->
   handle_dht_p2p_random_walk_response peer rwrm s = Ok GNUNET_OK s) /\
  (forall q t fp f,
      trail_map s !! rwr_trail_id rwrm = Some q ->
      trail_mem s !! q = Some t ->
      pred t = Some fp -> friend_mem s !! fp = Some f ->
      handle_dht_p2p_random_walk_response peer rwrm s
      = Ok GNUNET_OK
          (set_events
             (EvSend (mq f)
                (MsgRandomWalkResponse {| rwr_trail_id := pred_id t;
                                          rwr_location := rwr_location rwrm |})
              :: events s) s)).
Proof.
  split.
  - intros Hnone. unfold handle_dht_p2p_random_walk_response, multihashmap_get, bind, get, ret.
    rewrite Hnone. reflexivity.
  - intros q t fp f Hmap Hmem Hpred Hf.
    unfold handle_dht_p2p_random_walk_response, multihashmap_get, bind, get, ret.
    rewrite Hmap. unfold load_trail. rewrite Hmem, Hpred.
    unfold send_to, bind, load_friend. rewrite Hf. reflexivity.
Qed.

(** *** Random walks that are turned down *)

(** X17. [handle_dht_p2p_random_walk] turns a walk down with
    [GNUNET_SYSERR] if its layer is above [NUMBER_LAYERED_ID] or if its
    trail identifier is in use.  In the first case only the protocol
    violation is logged; in the second the trail made for the walk is
    released again: the map of trails, the heap, the cells of the trails
    and of the friends and the fingers are what they were, and no message
    is sent. *)
Theorem random_walk_is_turned_down (e : env) (peer : Z) (m : RandomWalkMessage)
    (s : state) :
  (rw_layer m > NUMBER_LAYERED_ID ->
   handle_dht_p2p_random_walk e peer m s
   = Ok GNUNET_SYSERR (set_events (EvBreakOp :: events s) s)) /\
  (rw_layer m <= NUMBER_LAYERED_ID ->
   is_Some (trail_map s !! rw_trail_id m) ->
   trail_mem s !! next_ptr s = None ->
   exists s',
     handle_dht_p2p_random_walk e peer m s = Ok GNUNET_SYSERR s' /\
     trail_map s' = trail_map s /\ trail_heap s' = trail_heap s /\
     trail_mem s' = trail_mem s /\ friend_mem s' = friend_mem s /\
     fingers s' = fingers s /\ trail_timeout_task s' = trail_timeout_task s /\
     events s' = EvFreeTrail (next_ptr s) :: EvBreakOp :: events s).
Proof.
  split.
  - intros Hl. unfold handle_dht_p2p_random_walk. cbv zeta.
    rewrite (proj2 (Z.gtb_gt _ _) Hl). reflexivity.
  - intros Hl [q0 Hq0] Hfresh. unfold handle_dht_p2p_random_walk. cbv zeta.
    destruct (Z.gtb_spec (rw_layer m) NUMBER_LAYERED_ID) as [Hgt|_]; [lia|].
    unfold bind at 1. unfold get at 1.
    unfold bind at 1. unfold alloc_trail at 1.
    unfold bind at 1. unfold store_trail at 1. unfold bind at 1.
    unfold load_trail at 1. cbn [trail_mem set_next_ptr set_trail_mem].
    rewrite lookup_insert_eq. unfold Wdht.modify at 1.
    unfold bind at 1. unfold store_trail at 1. unfold bind at 1.
    unfold load_trail at 1. cbn [trail_mem set_next_ptr set_trail_mem].
    rewrite lookup_insert_eq. unfold Wdht.modify at 1.
    unfold bind at 1. unfold multihashmap_put_unique at 1.
    unfold bind at 1. unfold get at 1.
    cbn [trail_map set_next_ptr set_trail_mem]. rewrite Hq0. unfold ret at 1.
    change (negb (GNUNET_SYSERR =? GNUNET_OK)) with true. cbv iota.
    unfold GNUNET_break_op, Wdht.log, free_trail, bind, Wdht.modify, load_trail, ret.
    cbn [trail_mem set_next_ptr set_trail_mem set_events].
    rewrite lookup_insert_eq. eexists. split; [reflexivity|].
    cbn [trail_map trail_heap trail_mem friend_mem fingers trail_timeout_task events
         set_next_ptr set_trail_mem set_events].
    rewrite !insert_insert_eq, delete_insert_eq, (delete_id _ _ Hfresh).
    repeat split.
Qed.

(** *** The random walk task *)

Ltac step_same_as H st Hs :=
  let u := fresh "u" in
  apply bind_inv in H as (u & st & Hs & H);
  match type of Hs with
  | ?m _ = Ok _ _ =>
      let P := fresh in
      assert (P : respects (same walk_statics) m) by (respect ltac:(reflexivity));
      apply P in Hs; clear P
  end.

(** X18. [do_random_walk], whenever it returns.  If the random trail
    identifier is free, the trail is entered into the map of trails under
    it, the layer to walk next moves on by one (modulo
    [NUMBER_LAYERED_ID]) and the task is scheduled again after
    [RANDOM_WALK_DELAY].  If the identifier is taken, the map and the layer
    stay as they are, and the task is not scheduled again. *)
Theorem do_random_walk_advances_layer (e : env) (s s' : state) :
  do_random_walk e s = Ok tt s' ->
  (trail_map s !! random_hash e = None ->
   trail_map s' = <[random_hash e := next_ptr s]> (trail_map s) /\
   walk_layer s' = ((walk_layer s + 1) mod Z.to_nat NUMBER_LAYERED_ID)%nat /\
   random_walk_task s' = Some RANDOM_WALK_DELAY) /\
  (is_Some (trail_map s !! random_hash e) ->
   trail_map s' = trail_map s /\ walk_layer s' = walk_layer s /\
   random_walk_task s' = None).
Proof.
  intros H. unfold do_random_walk in H.
  apply bind_inv in H as (? & s0 & H0 & H). injection H0 as _ <-.
  apply bind_inv in H as (friend & s1 & H1 & H).
  assert (s1 = set_random_walk_task None s) as ->.
  { revert H1. unfold pick_random_friend, bind, get, ret.
    destruct (map_to_list _); intros [= _ <-]; reflexivity. }
  clear H1.
  apply bind_inv in H as (trail & s2 & H2 & H).
  assert (Htrail : trail = next_ptr s) by (injection H2 as <- _; reflexivity).
  assert (P2 : respects (same walk_statics) alloc_trail) by (respect ltac:(reflexivity)).
  apply P2 in H2. clear P2.
  step_same_as H s3 Hs3. step_same_as H s4 Hs4.
  apply bind_inv in H as (rc & s5 & H5 & H).
  assert (Hbefore : walk_statics s4 = (walk_layer s, trail_map s, None)).
  { unfold same in *. rewrite Hs4, Hs3, H2. reflexivity. }
  clear Hs4 Hs3 H2.
  unfold walk_statics in Hbefore. injection Hbefore as Hw Hm Ht.
  revert H5. unfold multihashmap_put_unique, bind, get, ret, Wdht.modify. rewrite Hm.
  destruct (trail_map s !! random_hash e) as [q0|] eqn:Ekey.
  - (* the identifier is taken *)
    intros [= <- <-]. change (negb (GNUNET_SYSERR =? GNUNET_OK)) with true in H.
    cbv iota in H.
    assert (P : respects (same walk_statics) (GNUNET_break false;; free_trail trail))
      by (respect ltac:(reflexivity)).
    apply P in H. unfold same, walk_statics in H. injection H as Hw' Hm' Ht'.
    split; [discriminate|]. intros _. repeat split; congruence.
  - (* the identifier is free *)
    intros [= <- <-]. change (negb (GNUNET_OK =? GNUNET_OK)) with false in H.
    cbv iota in H.
    set (s5 := set_trail_map _ _) in H.
    assert (H5 : walk_statics s5
                 = (walk_layer s, <[random_hash e := next_ptr s]> (trail_map s), None)).
    { subst s5. unfold walk_statics. cbn [walk_layer trail_map random_walk_task set_trail_map].
      rewrite Hw, Hm, Ht, Htrail. reflexivity. }
    clearbody s5.
    repeat (let st := fresh "st" in let Hs := fresh "Hs" in
            step_same_as H st Hs; unfold same in Hs; rewrite H5 in Hs; clear H5;
            rename Hs into H5).
    apply bind_inv in H as (? & s8 & H8 & H9).
    unfold Wdht.modify in H8, H9. injection H8 as _ <-. injection H9 as <-.
    unfold walk_statics in H5. injection H5 as Hw' Hm' Ht'.
    split; [|intros [? [=]]]. intros _.
    cbn [trail_map walk_layer random_walk_task set_walk_layer set_random_walk_task].
    rewrite Hw', Hm'. repeat split.
Qed.

(** *** Results sent back along a trail *)

Lemma byte_val_byte_of z : byte_val (byte_of z) = z mod 256.
Proof.
  unfold byte_val, byte_of.
  assert (Hr : 0 <= z mod 256 < 256) by (apply Z.mod_pos_bound; lia).
  destruct (Byte.of_N (Z.to_N (z mod 256))) as [b|] eqn:E.
  - apply Byte.to_of_N in E. change (default Byte.x00 (Some b)) with b. rewrite E. lia.
  - apply Byte.of_N_None_iff in E. lia.
Qed.

(** X19. [GDS_NEIGHBOURS_send_get_result].  For a trail identifier that
    is not in the map, and for a trail that starts here, it sends nothing
    and changes nothing.  For a trail with a predecessor the size field of
    the payload is written in host byte order and read back as network
    byte order: on a little-endian host, whenever the swapped size exceeds
    the bytes allocated for the payload, [forward_message_on_trail] reads
    past the end of the payload. *)
Theorem send_get_result_reads_past_its_payload (e : env) (trail_id : Z)
    (record_route : bool) (data_size : Z) (s : state) :
  (trail_map s !! trail_id = None ->
   GDS_NEIGHBOURS_send_get_result e trail_id record_route data_size s = Ok tt s) /\
  (forall q t,
      trail_map s !! trail_id = Some q -> trail_mem s !! q = Some t ->
      pred t = None ->
      GDS_NEIGHBOURS_send_get_result e trail_id record_route data_size s = Ok tt s) /\
  (forall q t fp,
      trail_map s !! trail_id = Some q -> trail_mem s !! q = Some t ->
      pred t = Some fp ->
      little_endian e = true ->
      0 <= data_size < 65536 ->
      sizeof_MessageHeader + data_size < data_size mod 256 * 256 + data_size / 256 ->
      exists s',
        GDS_NEIGHBOURS_send_get_result e trail_id record_route data_size s
        = Fault OutOfBounds s').
Proof.
  split; [|split].
  - intros Hnone. unfold GDS_NEIGHBOURS_send_get_result, multihashmap_get, bind, get, ret.
    rewrite Hnone. reflexivity.
  - intros q t Hmap Hmem Hpred.
    unfold GDS_NEIGHBOURS_send_get_result, multihashmap_get, bind, get, ret.
    rewrite Hmap. unfold load_trail. rewrite Hmem, Hpred. reflexivity.
  - intros q t fp Hmap Hmem Hpred Hle Hsize Hswap.
    unfold GDS_NEIGHBOURS_send_get_result, multihashmap_get. cbv zeta.
    unfold bind at 1. unfold bind at 1. unfold get at 1. unfold ret at 1.
    rewrite Hmap. unfold bind at 1. unfold load_trail at 1. rewrite Hmem, Hpred.
    unfold bind at 1. unfold get at 1.
    unfold host_u16. rewrite Hle. rewrite (Z.mod_small data_size) by lia.
    set (buf := [byte_of data_size; byte_of (data_size / 256)] ++ _).
    assert (Hlen : Z.of_nat (length buf) = 4 + data_size).
    { subst buf. rewrite !length_app, length_replicate. cbn [length]. lia. }
    assert (Hread : forall s0, read_u16 buf 0 s0
              = Ok (data_size mod 256 * 256 + data_size / 256) s0).
    { intros s0. rewrite read_u16_spec. unfold get_u16, get_u8.
      assert (L0 : buf !! Z.to_nat 0 = Some (byte_of data_size)) by reflexivity.
      assert (L1 : buf !! Z.to_nat (0 + 1) = Some (byte_of (data_size / 256)))
        by reflexivity.
      change (0 <? 0) with false. change (0 + 1 <? 0) with false. cbv iota.
      rewrite L0, L1. cbn [fmap option_fmap option_map].
      rewrite !byte_val_byte_of. rewrite (Z.mod_small (data_size / 256)); [reflexivity|].
      split; [apply Z.div_pos; lia|apply Z.div_lt_upper_bound; lia]. }
    unfold forward_message_on_trail.
    rewrite (bind_Ok _ _ _ _ _ (Hread s)).
    assert (Hbody : forall s0, read_bytes buf 0 (data_size mod 256 * 256 + data_size / 256) s0
              = Fault OutOfBounds s0).
    { intros s0. unfold read_bytes. revert Hswap. change sizeof_MessageHeader with 4.
      intros Hswap.
      destruct (Z.ltb_spec (Z.of_nat (length buf))
                  (0 + (data_size mod 256 * 256 + data_size / 256))) as [_|Hge]; [|lia].
      rewrite orb_true_r. reflexivity. }
    assert (Hpath : forall s0, read_bytes buf 0 (0 * sizeof_PeerIdentity) s0 = Ok [] s0).
    { intros s0. rewrite read_bytes_ok by (change sizeof_PeerIdentity with 32; lia).
      reflexivity. }
    destruct record_route.
    + change (negb (1 =? 0)) with true. cbv iota.
      destruct (_ >=? _).
      * unfold bind at 1. unfold bind at 1. unfold GNUNET_break_op at 1.
        unfold Wdht.log at 1. unfold Wdht.modify at 1. unfold ret at 1.
        change (negb (0 =? 0)) with false. cbv iota.
        unfold bind at 1. unfold ret at 1. unfold bind at 1. rewrite Hbody.
        eexists. reflexivity.
      * unfold bind at 1. unfold ret at 1.
        change (negb (1 =? 0)) with true. cbv iota.
        unfold bind at 1. rewrite Hpath. unfold bind at 1. rewrite Hbody.
        eexists. reflexivity.
    + change (negb (0 =? 0)) with false. cbv iota.
      unfold bind at 1. unfold bind at 1. unfold GNUNET_break_op at 1.
      change (0 =? 0) with true. cbv iota. unfold ret at 1. unfold ret at 1.
      change (negb (0 =? 0)) with false. cbv iota.
      unfold bind at 1. unfold ret at 1. unfold bind at 1. rewrite Hbody.
      eexists. reflexivity.
Qed.

(** *** Picking a friend *)

(** X20. [pick_random_friend] never fails and leaves the state alone; it
    returns [NULL] exactly when the map of friends is empty, and what it
    returns otherwise is the cell of a friend in the map. *)
Theorem pick_random_friend_picks_a_friend (e : env) (s : state) :
  exists r,
    pick_random_friend e s = Ok r s /\
    (r = None <-> friends_peermap s = ∅) /\
    (forall f, r = Some f -> exists k, friends_peermap s !! k = Some f).
Proof.
  unfold pick_random_friend, bind, get, ret.
  destruct (map_to_list (friends_peermap s)) as [|x l] eqn:E.
  - exists None. split; [reflexivity|]. split; [|discriminate].
    split; [intros _; apply map_to_list_empty_iff; exact E|reflexivity].
  - destruct (lookup_lt_is_Some_2 (x :: l) (random_friend e mod length (x :: l))%nat)
      as [y Hy]; [apply Nat.mod_upper_bound; discriminate|].
    exists (Some y.2). rewrite Hy. split; [reflexivity|]. split.
    + split; [discriminate|]. intros Hempty. rewrite Hempty, map_to_list_empty in E.
      discriminate.
    + intros f [= <-]. exists y.1. apply elem_of_map_to_list. rewrite E.
      destruct y. eapply list_elem_of_lookup_2. exact Hy.
Qed.

(** *** Trails destroyed on request *)

Lemma delete_trail_no_send t : respects (emits no_send) (delete_trail t false false).
Proof. unfold delete_trail. respect emits_tac. Qed.

Lemma delete_trail_releases q ip isu s s' :
  delete_trail (Some q) ip isu s = Ok tt s' -> trail_mem s' !! q = None.
Proof.
  intros H. unfold delete_trail in H.
  do 9 (apply bind_inv in H as (? & ? & _ & H)).
  revert H. unfold free_trail, bind, load_trail.
  match goal with |- context [trail_mem ?x !! q] => destruct (trail_mem x !! q) end;
    [|discriminate].
  unfold Wdht.modify, Wdht.log, Wdht.modify. intros [= <-].
  cbn [trail_mem set_events set_trail_mem]. apply lookup_delete_eq.
Qed.

(** X21. [handle_dht_p2p_trail_destroy] does not ask who sent the
    message: for a TRAIL_DESTROY from a peer that is neither the
    predecessor nor the successor of the trail, it tears the trail down all
    the same, whenever it returns: the cell of the trail is released, and no
    message is sent to either side. *)
Theorem trail_destroy_from_a_stranger (peer : Z) (tdm : TrailDestroyMessage)
    (s s' : state) (r : Z) (q : nat) (t : Trail) :
  trail_map s !! td_trail_id tdm = Some q ->
  trail_mem s !! q = Some t ->
  (forall fp f, pred t = Some fp -> friend_mem s !! fp = Some f -> id f <> peer) ->
  (forall fs g, succ t = Some fs -> friend_mem s !! fs = Some g -> id g <> peer) ->
  handle_dht_p2p_trail_destroy peer tdm s = Ok r s' ->
  r = GNUNET_OK /\ trail_mem s' !! q = None /\
  exists l, events s' = l ++ events s /\ Forall no_send l.
Proof.
  intros Hmap Hmem Hpred Hsucc H. unfold handle_dht_p2p_trail_destroy in H.
  revert H. unfold multihashmap_get. unfold bind at 1. unfold bind at 1. unfold get at 1.
  unfold ret at 1. rewrite Hmap. unfold bind at 1. unfold load_trail at 1. rewrite Hmem.
  assert (Hfs : (match succ t with
                 | Some _ => do f <- load_friend (succ t); ret (bool_decide (peer = id f))
                 | None => ret false
                 end) s = Ok false s \/
                exists fl, (match succ t with
                 | Some _ => do f <- load_friend (succ t); ret (bool_decide (peer = id f))
                 | None => ret false
                 end) s = Fault fl s).
  { destruct (succ t) as [fs|] eqn:Es; [|left; reflexivity].
    unfold bind, load_friend. destruct (friend_mem s !! fs) as [g|] eqn:Eg.
    - left. unfold ret. rewrite bool_decide_eq_false_2; [reflexivity|].
      intros ->. eapply Hsucc; eauto.
    - right. eauto. }
  assert (Hfp : (match pred t with
                 | Some _ => do f <- load_friend (pred t); ret (bool_decide (peer = id f))
                 | None => ret false
                 end) s = Ok false s \/
                exists fl, (match pred t with
                 | Some _ => do f <- load_friend (pred t); ret (bool_decide (peer = id f))
                 | None => ret false
                 end) s = Fault fl s).
  { destruct (pred t) as [fp|] eqn:Ep; [|left; reflexivity].
    unfold bind, load_friend. destruct (friend_mem s !! fp) as [f|] eqn:Ef.
    - left. unfold ret. rewrite bool_decide_eq_false_2; [reflexivity|].
      intros ->. eapply Hpred; eauto.
    - right. eauto. }
  unfold bind at 1. destruct Hfs as [->|[fl ->]]; [|discriminate].
  unfold bind at 1. destruct Hfp as [->|[fl ->]]; [|discriminate].
  intros H. apply bind_inv in H as ([] & s1 & Hd & H). injection H as <- <-.
  split; [reflexivity|]. split; [eapply delete_trail_releases; exact Hd|].
  apply delete_trail_no_send in Hd. exact Hd.
Qed.

(** *** A friend that disconnects *)

(** X22. [handle_core_disconnect] for a friend, whenever it returns: the
    friend is out of the map of friends, which is otherwise as it was; the
    cell of the friend is released; and if no friend is left, the random
    walk task is off. *)
Theorem disconnect_removes_the_friend (peer : Z) (rf : nat) (s s' : state) :
  my_identity s <> peer ->
  friends_peermap s !! peer = Some rf ->
  handle_core_disconnect peer s = Ok tt s' ->
  friends_peermap s' = delete peer (friends_peermap s) /\
  friend_mem s' !! rf = None /\
  head (events s') = Some (EvFreeFriend rf) /\
  (friends_peermap s' = ∅ -> random_walk_task s' = None).
Proof.
  intros Hme Hfr H. unfold handle_core_disconnect in H.
  revert H. unfold bind at 1. unfold get at 1.
  rewrite (bool_decide_eq_false_2 _ Hme), Hfr. intros H.
  apply bind_inv in H as (? & s1 & H1 & H). injection H1 as _ <-.
  apply bind_inv in H as (? & ? & Hg & H). injection Hg as <- <-.
  apply bind_inv in H as (? & s2 & H2 & H).
  apply (preserves_disconnect_loop friends_peermap) in H2.
  apply bind_inv in H as (? & ? & Hg & H). injection Hg as <- <-.
  apply bind_inv in H as (? & s3 & H3 & H).
  apply (preserves_disconnect_loop friends_peermap) in H3.
  apply bind_inv in H as (? & s4 & H4 & H).
  assert (H4' : friends_peermap s4 = friends_peermap s3 /\ friend_mem s4 !! rf = None /\
                events s4 = EvFreeFriend rf :: events s3).
  { revert H4. unfold free_friend, bind, load_friend.
    destruct (friend_mem s3 !! rf); [|discriminate].
    unfold Wdht.modify, Wdht.log, Wdht.modify. intros Hs4. injection Hs4 as _ Hs4.
    rewrite <- Hs4. cbn [friends_peermap friend_mem events set_events set_friend_mem].
    split; [reflexivity|]. split; [apply lookup_delete_eq|reflexivity]. }
  destruct H4' as (Hf4 & Hgone & Hev).
  apply bind_inv in H as (? & ? & Hg & H). injection Hg as <- <-.
  assert (Hfriends : friends_peermap s4 = delete peer (friends_peermap s)).
  { rewrite Hf4, H3, H2. reflexivity. }
  revert H. unfold when, cancel_random_walk_task, bind, get, Wdht.modify, ret.
  destruct (bool_decide_reflect (size (friends_peermap s4) = 0%nat)) as [Hz|Hnz].
  - destruct (random_walk_task s4); [|discriminate]. intros [= <-].
    cbn [friends_peermap friend_mem events random_walk_task set_random_walk_task].
    rewrite Hev. repeat split; auto.
  - intros [= <-]. rewrite Hev. repeat split; auto.
    intros Hempty. exfalso. apply Hnz. rewrite Hempty. apply map_size_empty.
Qed.


Lemma delete_trail_informs_only_on_request_witness :
  let s' := final_state (delete_trail (Some 3%nat) false true three_walks) in
  let t := default new_Trail (trail_mem three_walks !! 3%nat) in
  trail_mem three_walks !! 3%nat = Some t /\
  delete_trail (Some 3%nat) false true three_walks = Ok tt s' /\
  pred t = None /\ succ t = Some 1%nat /\ queue_of three_walks (succ t) = Some 2 /\
  exists l, events s' = l ++ events three_walks /\
            sent l = [(2, MsgTrailDestroy {| td_trail_id := pred_id t |})] /\
            Forall delete_trail_event l.
Proof.
  cbv zeta. set (t := default new_Trail (trail_mem three_walks !! 3%nat)).
  assert (Ht : trail_mem three_walks !! 3%nat = Some t) by (vm_compute; reflexivity).
  assert (Hd : delete_trail (Some 3%nat) false true three_walks
               = Ok tt (final_state (delete_trail (Some 3%nat) false true three_walks)))
    by (vm_compute; reflexivity).
  split; [exact Ht|]. split; [exact Hd|].
  split; [vm_compute; reflexivity|]. split; [vm_compute; reflexivity|].
  split; [vm_compute; reflexivity|].
  destruct (delete_trail_informs_only_on_request 3%nat t false true three_walks _ Ht Hd)
    as (l & He & Hs & Hl).
  exists l. split; [exact He|]. split; [|exact Hl].
  rewrite Hs. vm_compute. reflexivity.
Defined.

Lemma trail_route_changes_only_the_log_witness :
  let buf := example_trail_route 0 100 914 in
  let s' := final_state (handle_dht_p2p_trail_route 2 buf three_walks) in
  handle_dht_p2p_trail_route 2 buf three_walks = Ok GNUNET_OK s' /\
  events s' <> events three_walks /\
  GNUNET_OK = GNUNET_OK /\
  without_events s' = without_events three_walks /\
  exists l, events s' = l ++ events three_walks /\ Forall trail_route_event l.
Proof.
  cbv zeta. split; [vm_compute; reflexivity|]. split; [vm_compute; discriminate|].
  apply (trail_route_changes_only_the_log 2 (example_trail_route 0 100 914) three_walks).
  vm_compute; reflexivity.
Defined.

Lemma never_own_friend_witness :
  let l := [(example_env 0 0, CoreConnect 1); (example_env 0 0, CoreConnect 2);
            (example_env 100 10, RandomWalkTimer)] in
  let s := final_state (run l (init_state 1)) in
  run l (init_state 1) = Ok tt s /\
  friends_peermap s !! 2 = Some 1%nat /\
  my_identity s = 1 /\ friends_peermap s !! 1 = None.
Proof.
  cbv zeta. split; [vm_compute; reflexivity|]. split; [vm_compute; reflexivity|].
  apply (never_own_friend 1 [(example_env 0 0, CoreConnect 1); (example_env 0 0, CoreConnect 2);
                             (example_env 100 10, RandomWalkTimer)]).
  vm_compute; reflexivity.
Defined.

Lemma connect_then_disconnect_witness :
  my_identity three_walks <> 3 /\
  friends_peermap three_walks !! 3 = None /\
  friend_mem three_walks !! next_ptr three_walks = None /\
  exists s',
    (handle_core_connect 3;; handle_core_disconnect 3) three_walks = Ok tt s' /\
    friends_peermap s' = friends_peermap three_walks /\
    friend_mem s' = friend_mem three_walks /\
    trail_mem s' = trail_mem three_walks /\ trail_map s' = trail_map three_walks /\
    trail_heap s' = trail_heap three_walks /\ fingers s' = fingers three_walks /\
    events s' = EvFreeFriend (next_ptr three_walks) :: events three_walks /\
    random_walk_task s'
    = if bool_decide (friends_peermap three_walks = ∅) then None
      else Some (default 0 (random_walk_task three_walks)).
Proof.
  assert (H1 : my_identity three_walks <> 3) by (vm_compute; discriminate).
  assert (H2 : friends_peermap three_walks !! 3 = None) by (vm_compute; reflexivity).
  assert (H3 : friend_mem three_walks !! next_ptr three_walks = None)
    by (vm_compute; reflexivity).
  split; [exact H1|]. split; [exact H2|]. split; [exact H3|].
  exact (connect_then_disconnect 3 three_walks H1 H2 H3).
Defined.

Lemma trail_timeout_without_expired_trail_witness :
  let e := example_env 0 40 in
  heap_min (trail_heap three_walks) = Some (2%nat, 10 + TRAIL_TIMEOUT) /\
  trail_timeout_callback e three_walks
  = Ok tt (set_trail_timeout_task (Some (TRAIL_TIMEOUT - 30)) three_walks).
Proof.
  cbv zeta. split; [vm_compute; reflexivity|].
  rewrite (proj2 (trail_timeout_without_expired_trail (example_env 0 40) three_walks)
             2%nat (10 + TRAIL_TIMEOUT)
             {| pred_id := 0; succ_id := 100; expiration_time := 10 + TRAIL_TIMEOUT;
                prev_succ := Some 3%nat; next_succ := None;
                prev_pred := None; next_pred := None; pred := None; succ := Some 1%nat;
                hn := Some 2%nat; ft := Some 0%nat; finger_off := 0 |}
             ltac:(vm_compute; reflexivity) ltac:(vm_compute; reflexivity)
             ltac:(vm_compute; reflexivity)).
  vm_compute; reflexivity.
Defined.

Lemma only_expired_trails_are_torn_down_witness :
  let e := example_env 0 (7 + TRAIL_TIMEOUT) in
  let s' := final_state (trail_timeout_callback e walks_with_clock_skew) in
  trail_timeout_callback e walks_with_clock_skew = Ok tt s' /\
  head (events s') = Some (EvFreeTrail 3) /\
  trail_timeout_task s' = Some 3 /\
  exists l, events s' = l ++ events walks_with_clock_skew /\
    forall q, In (EvFreeTrail q) l ->
      exists t, trail_mem walks_with_clock_skew !! q = Some t /\
                expiration_time t <> Time.FOREVER /\
                expiration_time t <= now e.
Proof.
  cbv zeta. split; [vm_compute; reflexivity|]. split; [vm_compute; reflexivity|].
  split; [vm_compute; reflexivity|].
  apply (only_expired_trails_are_torn_down (example_env 0 (7 + TRAIL_TIMEOUT))
           walks_with_clock_skew).
  vm_compute; reflexivity.
Defined.

Lemma delete_trail_unlinks_heap_and_finger_witness :
  let s' := final_state (delete_trail (Some 3%nat) false true three_walks) in
  exists t n i tbl,
    trail_mem three_walks !! 3%nat = Some t /\
    delete_trail (Some 3%nat) false true three_walks = Ok tt s' /\
    hn t = Some n /\ ft t = Some i /\
    trail_heap s' = filter (fun x => x.1 ≠ n) (trail_heap three_walks) /\
    fingers s' !! i = Some tbl /\ ft_fingers tbl !! finger_off t = Some None /\
    trail_mem s' !! 3%nat = None.
Proof.
  cbv zeta.
  assert (Hq : trail_mem three_walks !! 3%nat
               = Some {| pred_id := 0; succ_id := 101; expiration_time := 20 + TRAIL_TIMEOUT;
                         prev_succ := Some 4%nat; next_succ := Some 2%nat;
                         prev_pred := None; next_pred := None; pred := None;
                         succ := Some 1%nat; hn := Some 3%nat; ft := Some 1%nat;
                         finger_off := 0 |}) by (vm_compute; reflexivity).
  assert (Hd : delete_trail (Some 3%nat) false true three_walks
               = Ok tt (final_state (delete_trail (Some 3%nat) false true three_walks)))
    by (vm_compute; reflexivity).
  destruct (delete_trail_unlinks_heap_and_finger _ _ _ _ _ _ Hq Hd)
    as (n & i & tbl & H1 & H2 & H3 & H4 & H5 & H6).
  eexists _, n, i, tbl. split; [exact Hq|]. split; [exact Hd|]. repeat split; assumption.
Defined.

Lemma forward_message_on_trail_sends_payload_on_witness :
  let buf := example_trail_route 1 50 915 in
  well_framed buf /\ parsed buf 0 4 /\
  exists g, friend_mem one_relayed_walk !! 1%nat = Some g /\
    forward_message_on_trail (Some 1%nat) 60 1 3 buf
      sizeof_TrailRouteMessage 0 (sizeof_TrailRouteMessage + 0 * sizeof_PeerIdentity)
      one_relayed_walk
    = Ok tt (set_events
               (EvSend (mq g)
                  (MsgTrailRoute
                     {| tr_record_path := 1; tr_path_length := 1; tr_trail_id := 60;
                        tr_path := []; tr_appended := Some 3;
                        tr_payload := drop 72 buf |})
                :: events one_relayed_walk)
               one_relayed_walk).
Proof.
  cbv zeta.
  assert (Hwf : well_framed (example_trail_route 1 50 915)) by (vm_compute; reflexivity).
  assert (Hp : parsed (example_trail_route 1 50 915) 0 4).
  { split; [vm_compute; reflexivity|vm_compute; reflexivity|vm_compute; reflexivity
           |unfold sizeof_MessageHeader; lia|lia]. }
  split; [exact Hwf|]. split; [exact Hp|].
  eexists. split; [vm_compute; reflexivity|].
  refine (eq_trans
            (proj1 (forward_message_on_trail_sends_payload_on _ 0 4 1%nat _ 60 1 3
                      one_relayed_walk Hwf Hp _ _)) _);
    [vm_compute; reflexivity|lia|vm_compute; reflexivity].
Defined.

Lemma trail_route_relays_witness :
  let buf := example_trail_route 0 50 915 in
  well_framed buf /\ parsed buf 0 4 /\
  exists t f g,
    trail_mem one_relayed_walk !! 3%nat = Some t /\
    friend_mem one_relayed_walk !! 2%nat = Some f /\
    friend_mem one_relayed_walk !! 1%nat = Some g /\
    id f = 3 /\ mq g = 2 /\ succ_id t = 60 /\
    exists m l,
      handle_dht_p2p_trail_route 3 buf one_relayed_walk
      = Ok GNUNET_OK
          (set_events (EvSend (if bool_decide (3 = id f) then mq g else mq f)
                         (MsgTrailRoute m) :: l ++ events one_relayed_walk)
             one_relayed_walk) /\
      Forall (eq EvBreakOp) l /\
      tr_trail_id m = (if bool_decide (3 = id f) then succ_id t else pred_id t) /\
      tr_payload m
      = take (Z.to_nat 4)
          (drop (Z.to_nat (sizeof_TrailRouteMessage + 0 * sizeof_PeerIdentity)) buf) /\
      (3 <> id f -> 3 <> id g -> In EvBreakOp l).
Proof.
  cbv zeta.
  assert (Hwf : well_framed (example_trail_route 0 50 915)) by (vm_compute; reflexivity).
  assert (Hp : parsed (example_trail_route 0 50 915) 0 4).
  { split; [vm_compute; reflexivity|vm_compute; reflexivity|vm_compute; reflexivity
           |unfold sizeof_MessageHeader; lia|lia]. }
  split; [exact Hwf|]. split; [exact Hp|].
  eexists _, _, _. split; [vm_compute; reflexivity|].
  split; [vm_compute; reflexivity|]. split; [vm_compute; reflexivity|].
  split; [reflexivity|]. split; [reflexivity|]. split; [reflexivity|].
  apply (trail_route_relays 3 _ 0 4 one_relayed_walk 3%nat _ 2%nat 1%nat _ _ Hwf Hp);
    vm_compute; reflexivity.
Defined.

Lemma random_walk_response_is_relayed_witness :
  let rwrm := {| rwr_trail_id := 60; rwr_location := 555 |} in
  handle_dht_p2p_random_walk_response 2 rwrm one_relayed_walk
  = Ok GNUNET_OK
      (set_events
         (EvSend 3 (MsgRandomWalkResponse {| rwr_trail_id := 50; rwr_location := 555 |})
          :: events one_relayed_walk) one_relayed_walk).
Proof.
  cbv zeta.
  rewrite (proj2 (random_walk_response_is_relayed 2
                    {| rwr_trail_id := 60; rwr_location := 555 |} one_relayed_walk)
             3%nat _ 2%nat _
             ltac:(vm_compute; reflexivity) ltac:(vm_compute; reflexivity)
             ltac:(vm_compute; reflexivity) ltac:(vm_compute; reflexivity)).
  vm_compute; reflexivity.
Defined.

Lemma random_walk_is_turned_down_witness :
  let m := {| rw_hops_taken := 0; rw_layer := 0; rw_trail_id := 100 |} in
  rw_layer m <= NUMBER_LAYERED_ID /\
  is_Some (trail_map three_walks !! rw_trail_id m) /\
  trail_mem three_walks !! next_ptr three_walks = None /\
  exists s',
    handle_dht_p2p_random_walk (example_env 7 50) 2 m three_walks = Ok GNUNET_SYSERR s' /\
    trail_map s' = trail_map three_walks /\ trail_heap s' = trail_heap three_walks /\
    trail_mem s' = trail_mem three_walks /\ friend_mem s' = friend_mem three_walks /\
    fingers s' = fingers three_walks /\
    trail_timeout_task s' = trail_timeout_task three_walks /\
    events s' = EvFreeTrail (next_ptr three_walks) :: EvBreakOp :: events three_walks.
Proof.
  cbv zeta.
  assert (H1 : rw_layer {| rw_hops_taken := 0; rw_layer := 0; rw_trail_id := 100 |}
               <= NUMBER_LAYERED_ID) by (vm_compute; discriminate).
  assert (H2 : is_Some (trail_map three_walks
                          !! rw_trail_id {| rw_hops_taken := 0; rw_layer := 0;
                                            rw_trail_id := 100 |}))
    by (vm_compute; eauto).
  assert (H3 : trail_mem three_walks !! next_ptr three_walks = None)
    by (vm_compute; reflexivity).
  split; [exact H1|]. split; [exact H2|]. split; [exact H3|].
  exact (proj2 (random_walk_is_turned_down (example_env 7 50) 2
                  {| rw_hops_taken := 0; rw_layer := 0; rw_trail_id := 100 |} three_walks)
           H1 H2 H3).
Defined.

Lemma do_random_walk_advances_layer_witness :
  let s := final_state (run [(example_env 0 0, CoreConnect 2)] (init_state 1)) in
  let e := example_env 100 10 in
  let s' := final_state (do_random_walk e s) in
  do_random_walk e s = Ok tt s' /\
  trail_map s !! random_hash e = None /\
  trail_map s' = <[random_hash e := next_ptr s]> (trail_map s) /\
  walk_layer s' = ((walk_layer s + 1) mod Z.to_nat NUMBER_LAYERED_ID)%nat /\
  random_walk_task s' = Some RANDOM_WALK_DELAY.
Proof.
  cbv zeta.
  assert (H1 : do_random_walk (example_env 100 10)
                 (final_state (run [(example_env 0 0, CoreConnect 2)] (init_state 1)))
               = Ok tt (final_state
                          (do_random_walk (example_env 100 10)
                             (final_state (run [(example_env 0 0, CoreConnect 2)]
                                             (init_state 1))))))
    by (vm_compute; reflexivity).
  assert (H2 : trail_map (final_state (run [(example_env 0 0, CoreConnect 2)] (init_state 1)))
                 !! random_hash (example_env 100 10) = None) by (vm_compute; reflexivity).
  split; [exact H1|]. split; [exact H2|].
  exact (proj1 (do_random_walk_advances_layer _ _ _ H1) H2).
Defined.

Lemma send_get_result_reads_past_its_payload_witness :
  exists s',
    GDS_NEIGHBOURS_send_get_result (example_env 0 9) 60 false 1 one_relayed_walk
    = Fault OutOfBounds s'.
Proof.
  refine (proj2 (proj2 (send_get_result_reads_past_its_payload
                          (example_env 0 9) 60 false 1 one_relayed_walk))
            3%nat _ 2%nat _ _ _ _ _ _);
    first [vm_compute; reflexivity | lia | (vm_compute; split; [discriminate|reflexivity])].
Defined.

Lemma trail_destroy_from_a_stranger_witness :
  let tdm := {| td_trail_id := 101 |} in
  let s' := final_state (handle_dht_p2p_trail_destroy 3 tdm three_walks) in
  friends_peermap three_walks !! 3 = None /\
  handle_dht_p2p_trail_destroy 3 tdm three_walks = Ok GNUNET_OK s' /\
  is_Some (trail_mem three_walks !! 3%nat) /\
  GNUNET_OK = GNUNET_OK /\ trail_mem s' !! 3%nat = None /\
  exists l, events s' = l ++ events three_walks /\ Forall no_send l.
Proof.
  cbv zeta. split; [vm_compute; reflexivity|].
  assert (H : handle_dht_p2p_trail_destroy 3 {| td_trail_id := 101 |} three_walks
              = Ok GNUNET_OK
                  (final_state (handle_dht_p2p_trail_destroy 3 {| td_trail_id := 101 |}
                                  three_walks))) by (vm_compute; reflexivity).
  split; [exact H|]. split; [vm_compute; eauto|].
  refine (trail_destroy_from_a_stranger 3 {| td_trail_id := 101 |} three_walks _ _ 3%nat
            {| pred_id := 0; succ_id := 101; expiration_time := 20 + TRAIL_TIMEOUT;
               prev_succ := Some 4%nat; next_succ := Some 2%nat;
               prev_pred := None; next_pred := None; pred := None;
               succ := Some 1%nat; hn := Some 3%nat; ft := Some 1%nat;
               finger_off := 0 |} _ _ _ _ H).
  - vm_compute; reflexivity.
  - vm_compute; reflexivity.
  - intros fp f Hp. discriminate Hp.
  - intros fs g [= <-]. vm_compute. intros [= <-]. discriminate.
Defined.

Lemma disconnect_removes_the_friend_witness :
  let s := final_state (run [(example_env 0 0, CoreConnect 2);
                             (example_env 0 0, CoreConnect 3)] (init_state 1)) in
  let s' := final_state (handle_core_disconnect 3 s) in
  my_identity s <> 3 /\ friends_peermap s !! 3 = Some 2%nat /\
  handle_core_disconnect 3 s = Ok tt s' /\
  friends_peermap s' = delete 3 (friends_peermap s) /\
  friend_mem s' !! 2%nat = None /\
  head (events s') = Some (EvFreeFriend 2) /\
  (friends_peermap s' = ∅ -> random_walk_task s' = None).
Proof.
  cbv zeta.
  assert (H1 : my_identity (final_state (run [(example_env 0 0, CoreConnect 2);
                 (example_env 0 0, CoreConnect 3)] (init_state 1))) <> 3)
    by (vm_compute; discriminate).
  assert (H2 : friends_peermap (final_state (run [(example_env 0 0, CoreConnect 2);
                 (example_env 0 0, CoreConnect 3)] (init_state 1))) !! 3 = Some 2%nat)
    by (vm_compute; reflexivity).
  split; [exact H1|]. split; [exact H2|].
  assert (H3 : handle_core_disconnect 3
                 (final_state (run [(example_env 0 0, CoreConnect 2);
                    (example_env 0 0, CoreConnect 3)] (init_state 1)))
               = Ok tt (final_state (handle_core_disconnect 3
                          (final_state (run [(example_env 0 0, CoreConnect 2);
                             (example_env 0 0, CoreConnect 3)] (init_state 1))))))
    by (vm_compute; reflexivity).
  split; [exact H3|].
  exact (disconnect_removes_the_friend 3 2%nat _ _ H1 H2 H3).
Defined.

End WdhtFacts.
